(** * Plan-mode grants and browser safety guards of gemini-cli

    A shallow embedding of

    - [packages/core/src/tools/enter-plan-mode.ts]
      (the confirmation protocol and the scoped write grant),
    - the browser security guards ([isUrlAllowed], [ActionRateLimiter],
      [isSensitiveAction], [getNavigationRestrictionsMessage]),
    - the overlay diagnostics ([detectBlockingOverlays],
      [wasActionBlockedByOverlay]),
    - the browser action primitives of [BrowserTools],
    - the activity log [BrowserLogger],

    together with the part of the JavaScript runtime these functions rely
    on: string case mapping, [RegExp] construction and matching, Node's
    POSIX [path.resolve] and the string escaping of [JSON.stringify].

    Strings.  A JavaScript string is a sequence of UTF-16 code units.  The
    embedding represents one code unit by one [ascii] value, so it covers
    exactly the strings whose code units lie below 256 (Latin-1).  On that
    range the case mappings and the character classes below are the ones
    of ECMAScript. *)

From Stdlib Require Import List String Ascii Bool Arith NArith ZArith Lia.
From Stdlib Require Import DecimalString Sorted.
Import ListNotations.

Local Open Scope list_scope.

(** ** JavaScript strings *)

Module Js.

Definition str := list ascii.

(** A string literal of the source. *)
Definition lit (s : string) : str := list_ascii_of_string s.

Definition code (c : ascii) : N := N_of_ascii c.

(** The double quote and the backslash. *)
Definition dquote : ascii := "034"%char.
Definition bslash : ascii := "092"%char.

(** How a call ends: with a value, or with a thrown error. *)
Inductive completion (A : Type) : Type :=
| Return (a : A)
| Throw (e : str).

Arguments Return {A} a.
Arguments Throw {A} e.

Definition in_range (lo hi : N) (c : ascii) : bool :=
  (N.leb lo (code c) && N.leb (code c) hi)%bool.

(** [String.prototype.toLowerCase] on one Latin-1 code unit: A-Z and the
    accented capitals U+00C0..U+00DE (the multiplication sign U+00D7
    apart) move up by 32. *)
Definition lower_char (c : ascii) : ascii :=
  if (in_range 65 90 c
      || (in_range 192 222 c && negb (N.eqb (code c) 215)))%bool
  then ascii_of_N (code c + 32) else c.

Definition toLowerCase (s : str) : str := map lower_char s.

(** The [Canonicalize] operation of a case-insensitive, non-unicode
    [RegExp]: the upper-case mapping, kept only when it yields one code
    unit and does not send a non-ASCII unit to an ASCII one.  U+00B5 and
    U+00FF map outside Latin-1 to units no other Latin-1 unit reaches, and
    U+00DF maps to two units; all three are therefore fixed here. *)
Definition canon (c : ascii) : ascii :=
  if (in_range 97 122 c
      || (in_range 224 254 c && negb (N.eqb (code c) 247)))%bool
  then ascii_of_N (code c - 32) else c.

(** Line terminators, the units [.] refuses. *)
Definition is_line_terminator (c : ascii) : bool :=
  (N.eqb (code c) 10 || N.eqb (code c) 13)%bool.

(** The class [\s]: white space and line terminators. *)
Definition is_space (c : ascii) : bool :=
  (in_range 9 13 c || N.eqb (code c) 32 || N.eqb (code c) 160)%bool.

(** The class [\w], which decides the assertion [\b]. *)
Definition is_word (c : ascii) : bool :=
  (in_range 97 122 c || in_range 65 90 c || in_range 48 57 c
   || N.eqb (code c) 95)%bool.

Fixpoint eqb (a b : str) : bool :=
  match a, b with
  | [], [] => true
  | x :: a', y :: b' => (Ascii.eqb x y && eqb a' b')%bool
  | _, _ => false
  end.

(** [String.prototype.startsWith]. *)
Fixpoint startsWith (s p : str) {struct p} : bool :=
  match p, s with
  | [], _ => true
  | x :: p', y :: s' => (Ascii.eqb x y && startsWith s' p')%bool
  | _ :: _, [] => false
  end.

(** [String.prototype.includes]. *)
Fixpoint includes (s p : str) : bool :=
  (startsWith s p
   || match s with [] => false | _ :: s' => includes s' p end)%bool.

(** [Array.prototype.join]. *)
Fixpoint join (sep : str) (l : list str) : str :=
  match l with
  | [] => []
  | [x] => x
  | x :: l' => x ++ sep ++ join sep l'
  end.

(** Truthiness of a string: the empty string is falsy. *)
Definition truthy (s : str) : bool :=
  match s with [] => false | _ :: _ => true end.

(** Truthiness of an optional string ([undefined] and [null] are falsy). *)
Definition truthy_opt (o : option str) : bool :=
  match o with Some s => truthy s | None => false end.

End Js.

(** ** Regular expressions *)

Module RegExp.

Import Js.

(** The part of the pattern syntax the sources use: literal units, [.],
    [\s], the assertions [^], [$] and [\b], groups, alternation and the
    greedy quantifiers [*] and [?]. *)
Inductive regex : Type :=
| Empty
| Chr (c : ascii)
| Wide (n : N)
| Dot
| Space
| WordB
| Bol
| Eol
| Seq (r1 r2 : regex)
| Alt (r1 r2 : regex)
| Star (r : regex)
| Opt (r : regex)
| Group (r : regex).

(** A literal unit above U+00FF.  Without the [i] flag it equals no
    Latin-1 unit.  With it, U+0178 canonicalizes like U+00FF and the two
    Greek letters mu like U+00B5. *)
Definition wide_eq (ic : bool) (n : N) (x : ascii) : bool :=
  (ic && ((N.eqb n 376 && N.eqb (code x) 255)
          || ((N.eqb n 924 || N.eqb n 956) && N.eqb (code x) 181)))%bool.

Definition chr_eq (ic : bool) (c x : ascii) : bool :=
  if ic then Ascii.eqb (canon c) (canon x) else Ascii.eqb c x.

Definition word_at (o : option ascii) : bool :=
  match o with Some c => is_word c | None => false end.

Section Matcher.

Variable ic : bool.
Context {R : Type}.

(** The loop of a greedy star, [RepeatMatcher]: one more iteration of
    [step] if it consumes something and the rest then matches, else the
    continuation.  [n] bounds the iterations by the length of the input. *)
Fixpoint repeat_match
    (step : option ascii -> str -> (option ascii -> str -> option R)
            -> option R)
    (k : option ascii -> str -> option R)
    (n : nat) (p : option ascii) (t : str) {struct n} : option R :=
  match n with
  | O => k p t
  | S n' =>
      match step p t
              (fun p' t' =>
                 if List.length t' <? List.length t
                 then repeat_match step k n' p' t'
                 else None) with
      | Some x => Some x
      | None => k p t
      end
  end.

(** The backtracking matcher of the language specification, in
    continuation-passing style.  [prev] is the unit before the current
    position (for the assertions), [s] the rest of the input, [k] what is
    left to match.  Alternatives are tried left to right and quantifiers
    are greedy; an iteration of a quantifier that consumes nothing is
    refused. *)
Fixpoint mt (r : regex) (prev : option ascii) (s : str)
    (k : option ascii -> str -> option R) {struct r} : option R :=
  match r with
  | Empty => k prev s
  | Chr c =>
      match s with
      | x :: s' => if chr_eq ic c x then k (Some x) s' else None
      | [] => None
      end
  | Wide n =>
      match s with
      | x :: s' => if wide_eq ic n x then k (Some x) s' else None
      | [] => None
      end
  | Dot =>
      match s with
      | x :: s' => if is_line_terminator x then None else k (Some x) s'
      | [] => None
      end
  | Space =>
      match s with
      | x :: s' => if is_space x then k (Some x) s' else None
      | [] => None
      end
  | WordB =>
      if xorb (word_at prev) (word_at (hd_error s)) then k prev s else None
  | Bol => match prev with None => k prev s | Some _ => None end
  | Eol => match s with [] => k prev s | _ :: _ => None end
  | Seq r1 r2 => mt r1 prev s (fun p' s' => mt r2 p' s' k)
  | Alt r1 r2 =>
      match mt r1 prev s k with
      | Some x => Some x
      | None => mt r2 prev s k
      end
  | Star r' => repeat_match (mt r') k (List.length s) prev s
  | Opt r' =>
      match mt r' prev s
              (fun p' s' =>
                 if List.length s' <? List.length s then k p' s' else None) with
      | Some x => Some x
      | None => k prev s
      end
  | Group r' => mt r' prev s k
  end.

End Matcher.

(** *** Construction from pattern text *)

Inductive token : Type :=
| TAtom (r : regex)
| TAssert (r : regex)
| TStar
| TQuest
| TOpen
| TClose
| TBar.

(** The syntax characters of a pattern. *)
Definition is_syntax_char (c : ascii) : bool :=
  existsb (Ascii.eqb c) (lit "^$\.*+?()[]{}|").

(** A unit that may follow a backslash as an identity escape: anything
    that is not a letter, a digit or the underscore. *)
Definition is_identity_escape (c : ascii) : bool := negb (is_word c).

(** The tokens of a pattern.  [None] stands for the [SyntaxError] of the
    constructor, and also for pattern syntax outside the modelled part
    (classes, braces, [+], look-around, letter escapes other than [\s]
    and [\b]); no pattern the program builds contains any of it. *)
Fixpoint tokenize (s : str) : option (list token) :=
  match s with
  | [] => Some []
  | c :: rest =>
      if Ascii.eqb c bslash then
        match rest with
        | [] => None
        | e :: rest' =>
            let tk :=
              if Ascii.eqb e "s" then Some (TAtom Space)
              else if Ascii.eqb e "b" then Some (TAssert WordB)
              else if is_identity_escape e then Some (TAtom (Chr e))
              else None in
            match tk, tokenize rest' with
            | Some t, Some ts => Some (t :: ts)
            | _, _ => None
            end
        end
      else if Ascii.eqb c "(" then
        match rest with
        | q :: rest' =>
            if Ascii.eqb q "?" then
              match rest' with
              | d :: rest'' =>
                  if Ascii.eqb d ":" then
                    option_map (cons TOpen) (tokenize rest'')
                  else None
              | [] => None
              end
            else option_map (cons TOpen) (tokenize rest)
        | [] => option_map (cons TOpen) (tokenize rest)
        end
      else
        let tk :=
          if Ascii.eqb c ")" then Some TClose
          else if Ascii.eqb c "|" then Some TBar
          else if Ascii.eqb c "*" then Some TStar
          else if Ascii.eqb c "?" then Some TQuest
          else if Ascii.eqb c "." then Some (TAtom Dot)
          else if Ascii.eqb c "^" then Some (TAssert Bol)
          else if Ascii.eqb c "$" then Some (TAssert Eol)
          else if is_syntax_char c then None
          else Some (TAtom (Chr c)) in
        match tk, tokenize rest with
        | Some t, Some ts => Some (t :: ts)
        | _, _ => None
        end
  end.

(** One alternation under construction: the finished alternatives and
    the terms of the current one, both newest first, and whether the
    newest term may take a quantifier. *)
Record frame : Type := mkFrame {
  alts : list regex;
  cur : list regex;
  quantifiable : bool
}.

Definition empty_frame : frame := mkFrame [] [] false.

Definition mkseq (ts : list regex) : regex := fold_right Seq Empty ts.

Fixpoint mkalt (a : regex) (l : list regex) : regex :=
  match l with
  | [] => a
  | b :: l' => Alt a (mkalt b l')
  end.

Definition close_frame (f : frame) : regex :=
  match rev (mkseq (rev (cur f)) :: alts f) with
  | [] => Empty
  | a :: l => mkalt a l
  end.

Definition push_term (q : bool) (t : regex) (f : frame) : frame :=
  mkFrame (alts f) (t :: cur f) q.

Definition quantify (mk : regex -> regex) (f : frame) : option frame :=
  if quantifiable f then
    match cur f with
    | t :: ts => Some (mkFrame (alts f) (mk t :: ts) false)
    | [] => None
    end
  else None.

(** The parser: a frame for the innermost open group and the frames of
    the groups around it. *)
Fixpoint parse (ts : list token) (f : frame) (stack : list frame)
    : option regex :=
  match ts with
  | [] => match stack with [] => Some (close_frame f) | _ :: _ => None end
  | t :: ts' =>
      match t with
      | TAtom a => parse ts' (push_term true a f) stack
      | TAssert a => parse ts' (push_term false a f) stack
      | TStar =>
          match quantify Star f with
          | Some f' => parse ts' f' stack
          | None => None
          end
      | TQuest =>
          match quantify Opt f with
          | Some f' => parse ts' f' stack
          | None => None
          end
      | TBar =>
          parse ts' (mkFrame (mkseq (rev (cur f)) :: alts f) [] false) stack
      | TOpen => parse ts' empty_frame (f :: stack)
      | TClose =>
          match stack with
          | g :: stack' =>
              parse ts' (push_term true (Group (close_frame f)) g) stack'
          | [] => None
          end
      end
  end.

(** A [RegExp] object: the text of its pattern, the [i] flag and the
    compiled pattern.  For a pattern written as a literal the text is its
    [source] property; the escaping of slashes that the property adds to
    a text given to the constructor is left out, as nothing reads it. *)
Record t : Type := mkRegExp {
  source : str;
  ignoreCase : bool;
  pattern : regex
}.

(** [new RegExp(src, flags)]. *)
Definition create (src : str) (i : bool) : completion t :=
  match tokenize src with
  | Some ts =>
      match parse ts empty_frame [] with
      | Some r => Return (mkRegExp src i r)
      | None => Throw (lit "SyntaxError")
      end
  | None => Throw (lit "SyntaxError")
  end.

(** The leftmost match: every start position in turn, the text matched
    at the first that succeeds. *)
Fixpoint search (ic : bool) (r : regex) (prev : option ascii) (s : str)
    : option str :=
  match mt ic r prev s (fun _ rest => Some rest) with
  | Some rest => Some (firstn (List.length s - List.length rest) s)
  | None =>
      match s with
      | [] => None
      | x :: s' => search ic r (Some x) s'
      end
  end.

(** [String.prototype.match] with a pattern that has no [g] flag: the
    text of the match, [match[0]]. *)
Definition exec (re : t) (s : str) : option str :=
  search (ignoreCase re) (pattern re) None s.

(** [RegExp.prototype.test]. *)
Definition test (re : t) (s : str) : bool :=
  match exec re s with Some _ => true | None => false end.

End RegExp.

(** ** Node's [path.resolve] on POSIX *)

Module NodePath.

Import Js.

Definition slash : ascii := "/"%char.

(** [s.split('/')]. *)
Fixpoint split (s : str) : list str :=
  match s with
  | [] => [[]]
  | c :: s' =>
      if Ascii.eqb c slash then [] :: split s'
      else
        match split s' with
        | seg :: rest => (c :: seg) :: rest
        | [] => [[c]]
        end
  end.

(** One segment of [normalizeString]; [acc] holds the segments kept so
    far, newest first.  Empty segments and [.] are dropped, [..] removes
    the segment before it, or is kept when there is none to remove and
    the path is relative. *)
Definition normalize_step (allowAboveRoot : bool) (acc : list str)
    (seg : str) : list str :=
  if (Js.eqb seg [] || Js.eqb seg (lit "."))%bool then acc
  else if Js.eqb seg (lit "..") then
    match acc with
    | top :: rest =>
        if Js.eqb top (lit "..") then
          (if allowAboveRoot then seg :: acc else acc)
        else rest
    | [] => if allowAboveRoot then [seg] else []
    end
  else seg :: acc.

Definition normalizeString (p : str) (allowAboveRoot : bool) : str :=
  join [slash] (rev (fold_left (normalize_step allowAboveRoot) (split p) [])).

(** The loop of [resolve]: the arguments from right to left, then the
    working directory, until an absolute one is met. *)
Fixpoint gather (paths : list str) (acc : str) : str * bool :=
  match paths with
  | [] => (acc, false)
  | p :: rest =>
      match p with
      | [] => gather rest acc
      | c :: _ =>
          let acc' := p ++ slash :: acc in
          if Ascii.eqb c slash then (acc', true) else gather rest acc'
      end
  end.

(** [path.resolve(...args)] in a process whose working directory is
    [cwd]. *)
Definition resolve (cwd : str) (args : list str) : str :=
  let '(resolvedPath, resolvedAbsolute) := gather (rev args ++ [cwd]) [] in
  let normalized := normalizeString resolvedPath (negb resolvedAbsolute) in
  if resolvedAbsolute then slash :: normalized
  else match normalized with [] => lit "." | _ :: _ => normalized end.

End NodePath.

(** ** String escaping of [JSON.stringify] *)

Module Json.

Import Js.

Definition hex_digit (n : N) : ascii :=
  if N.ltb n 10 then ascii_of_N (48 + n) else ascii_of_N (87 + n).

(** [QuoteJSONString] on one unit: the quote and the backslash get a
    backslash, the control units their short or [\u00XX] form. *)
Definition escape_char (c : ascii) : str :=
  let n := code c in
  if N.eqb n 8 then [bslash; "b"%char]
  else if N.eqb n 9 then [bslash; "t"%char]
  else if N.eqb n 10 then [bslash; "n"%char]
  else if N.eqb n 12 then [bslash; "f"%char]
  else if N.eqb n 13 then [bslash; "r"%char]
  else if N.eqb n 34 then [bslash; dquote]
  else if N.eqb n 92 then [bslash; bslash]
  else if N.ltb n 32 then
    [bslash; "u"%char; "0"%char; "0"%char;
     hex_digit (N.div n 16); hex_digit (N.modulo n 16)]
  else [c].

(** The text between the quotes of [JSON.stringify(s)]. *)
Definition escape (s : str) : str := flat_map escape_char s.

(** One string-valued member of a serialized object. *)
Definition member (key value : str) : str :=
  dquote :: key ++ dquote :: ":"%char :: dquote :: escape value ++ [dquote].

End Json.

(** ** The tool [enter_plan_mode] *)

Module PlanMode.

Import Js.

(** Modelled from the spec: the outcomes of a confirmation, declared in
    [tools.ts]. *)
Inductive ToolConfirmationOutcome : Type :=
| Proceed
| ProceedAlways
| Cancel.

(** Modelled from the spec: the decisions of the policy engine and the
    approval modes, declared in [policy/types.ts]. *)
Inductive PolicyDecision : Type :=
| ALLOW
| DENY
| ASK_USER.

Inductive ApprovalMode : Type :=
| DEFAULT
| AUTO_EDIT
| YOLO
| PLAN.

Record EnterPlanModeParams : Type := mkParams {
  reason : option str;
  path : option str;
  allowed_tools : option (list str)
}.

Record PolicyRule : Type := mkRule {
  toolName : str;
  argsPattern : RegExp.t;
  decision : PolicyDecision;
  priority : Z;
  modes : list ApprovalMode;
  source : str
}.

Record ToolResult : Type := mkResult {
  llmContent : str;
  returnDisplay : str
}.

(** The collaborator [Config]: what it answers, and the calls that change
    it. *)
Record Config : Type := mkConfig {
  getTargetDir : str;
  validatePathAccess : str -> option str
}.

Inductive ConfigCall : Type :=
| addPolicyRule (rule : PolicyRule)
| setApprovalMode (mode : ApprovalMode).

(** A computation that calls into [Config]: how it ends and the calls it
    made, in order. *)
Definition Eff (A : Type) : Type := (completion A * list ConfigCall)%type.

Definition ret {A : Type} (a : A) : Eff A := (Return a, []).

Definition throw {A : Type} (e : str) : Eff A := (Throw e, []).

Definition call (c : ConfigCall) : Eff unit := (Return tt, [c]).

Definition bind {A B : Type} (m : Eff A) (f : A -> Eff B) : Eff B :=
  match m with
  | (Return a, l) => let '(r, l') := f a in (r, l ++ l')
  | (Throw e, l) => (Throw e, l)
  end.

Definition lift {A : Type} (c : completion A) : Eff A := (c, []).

Notation "x <- m ;; k" := (bind m (fun x => k))
  (at level 61, m at next level, right associativity).
Notation "m ;;; k" := (bind m (fun _ => k))
  (at level 61, right associativity).

(** [for (const x of l) body(x)]. *)
Fixpoint for_of {A : Type} (l : list A) (body : A -> Eff unit) : Eff unit :=
  match l with
  | [] => ret tt
  | x :: l' => body x ;;; for_of l' body
  end.

(** The state of an [EnterPlanModeInvocation]. *)
Record EnterPlanModeInvocation : Type := mkInvocation {
  params : EnterPlanModeParams;
  _toolName : str;
  _toolDisplayName : str;
  confirmationOutcome : option ToolConfirmationOutcome
}.

(** [createInvocation]: the outcome starts as [null]. *)
Definition createInvocation (p : EnterPlanModeParams)
    (toolName toolDisplayName : str) : EnterPlanModeInvocation :=
  mkInvocation p toolName toolDisplayName None.

Definition getDescription (this : EnterPlanModeInvocation) : str :=
  match reason (params this) with
  | Some r => if truthy r then r else lit "Initiating Plan Mode"
  | None => lit "Initiating Plan Mode"
  end.

(** The callback [onConfirm] of the confirmation details, as its effect
    on the invocation.  [publishPolicyUpdate] of the base class, which it
    awaits next, talks to the message bus only. *)
Definition onConfirm (this : EnterPlanModeInvocation)
    (outcome : ToolConfirmationOutcome) : EnterPlanModeInvocation :=
  mkInvocation (params this) (_toolName this) (_toolDisplayName this)
    (Some outcome).

Record ToolInfoConfirmationDetails : Type := mkDetails {
  type : str;
  title : str;
  prompt : str;
  details_onConfirm :
    EnterPlanModeInvocation -> ToolConfirmationOutcome ->
    EnterPlanModeInvocation
}.

(** What [shouldConfirmExecute] resolves to: [false] or the details. *)
Inductive Confirmation : Type :=
| NoConfirmation
| Details (d : ToolInfoConfirmationDetails).

(** The abort signal handed to the methods of an invocation. *)
Record AbortSignal : Type := mkSignal {
  aborted : bool
}.

(** [shouldConfirmExecute].  [getMessageBusDecision] is the method of the
    base class that asks the message bus; it is awaited first, and what
    it throws leaves the method. *)
Definition shouldConfirmExecute
    (getMessageBusDecision : AbortSignal -> completion PolicyDecision)
    (this : EnterPlanModeInvocation) (abortSignal : AbortSignal)
    : Eff Confirmation :=
  decision <- lift (getMessageBusDecision abortSignal) ;;
  match decision with
  | ALLOW => ret NoConfirmation
  | DENY =>
      throw (lit "Tool execution for " ++ [dquote]
             ++ (if truthy (_toolDisplayName this) then _toolDisplayName this
                 else _toolName this)
             ++ [dquote] ++ lit " denied by policy.")
  | ASK_USER =>
      ret (Details
             (mkDetails (lit "info") (lit "Enter Plan Mode")
                (lit "This will restrict the agent to read-only tools to allow for safe planning.")
                onConfirm))
  end.

(** The escaping of [execute]: a global [replace] that puts a backslash
    before each of the fourteen units of its character class. *)
Definition needs_escape (c : ascii) : bool :=
  existsb (Ascii.eqb c) (lit "\.*+?^${}()|[]").

Definition escapeRegex (s : str) : str :=
  flat_map (fun c => if needs_escape c then [bslash; c] else [c]) s.

(** The text of the pattern of a grant: the key [file_path] in quotes, a
    colon, and in quotes the escaped path followed by an optional group
    made of a slash and any run of units. *)
Definition argsPatternSource (escapedPath : str) : str :=
  dquote :: lit "file_path" ++ dquote :: ":"%char :: dquote :: escapedPath
  ++ lit "(?:/.*)?" ++ [dquote].

Definition cancelled : ToolResult :=
  mkResult (lit "User cancelled entering Plan Mode.") (lit "Cancelled").

(** The block [if (this.params.path) { ... }] of [execute]: [Some r] when
    it returns [r] from [execute], [None] when it falls through. *)
Definition grant (cwd : str) (config : Config)
    (this : EnterPlanModeInvocation) (p : str) : Eff (option ToolResult) :=
  let absolutePath := NodePath.resolve cwd [getTargetDir config; p] in
  let validationError := validatePathAccess config absolutePath in
  if truthy_opt validationError then
    ret (Some (mkResult
                 (lit "Error: "
                  ++ match validationError with Some e => e | None => [] end)
                 (lit "Error: Invalid path")))
  else
    let escapedPath := escapeRegex absolutePath in
    let allowedTools :=
      match allowed_tools (params this) with
      | Some l => l
      | None => [lit "write_file"; lit "replace"]
      end in
    for_of allowedTools
      (fun toolName =>
         re <- lift (RegExp.create (argsPatternSource escapedPath) false) ;;
         call (addPolicyRule
                 (mkRule toolName re ALLOW 80 [PLAN] (lit "PlanMode")))) ;;;
    ret None.

(** [execute], in a process whose working directory is [cwd]; the abort
    signal it is given is not read. *)
Definition execute (cwd : str) (config : Config)
    (this : EnterPlanModeInvocation) : Eff ToolResult :=
  match confirmationOutcome this with
  | Some Cancel => ret cancelled
  | _ =>
      early <- match path (params this) with
               | Some p => if truthy p then grant cwd config this p
                           else ret None
               | None => ret None
               end ;;
      match early with
      | Some r => ret r
      | None =>
          call (setApprovalMode PLAN) ;;;
          let displayMessage :=
            match reason (params this) with
            | Some r =>
                if truthy r then lit "Switching to Plan mode: " ++ r
                else lit "Switching to Plan mode"
            | None => lit "Switching to Plan mode"
            end in
          let displayMessage :=
            match path (params this) with
            | Some p =>
                if truthy p
                then displayMessage ++ lit " (Allowed path: " ++ p ++ lit ")"
                else displayMessage
            | None => displayMessage
            end in
          ret (mkResult
                 match path (params this) with
                 | Some p =>
                     if truthy p
                     then lit "Switching to Plan mode. Write access enabled for: " ++ p
                     else lit "Switching to Plan mode."
                 | None => lit "Switching to Plan mode."
                 end
                 displayMessage)
      end
  end.

End PlanMode.

(** ** Browser security: URL guard and rate limiter *)

Module BrowserSecurity.

Import Js.

Definition DEFAULT_ALLOWED_PATTERNS : list str :=
  [lit "https://*.google.com";
   lit "https://www.google.com";
   lit "https://*.github.com";
   lit "https://github.com";
   lit "about:blank";
   lit "chrome://newtab"].

Definition BLOCKED_PATTERNS : list str :=
  [lit "file://";
   lit "javascript:";
   lit "data:text/html";
   lit "chrome://extensions";
   lit "chrome://settings/passwords"].

Definition isBlockedUrl (url : str) : bool :=
  existsb (fun pattern => startsWith (toLowerCase url) (toLowerCase pattern))
    BLOCKED_PATTERNS.

(** The first [replace] of [patternToRegex]: a backslash before each unit
    of its class, which is the class of [escapeRegex] without the star. *)
Definition needs_escape (c : ascii) : bool :=
  existsb (Ascii.eqb c) (lit "\.+?^${}()|[]").

Definition escapePattern (s : str) : str :=
  flat_map (fun c => if needs_escape c then [bslash; c] else [c]) s.

(** The second [replace]: every star becomes a dot and a star. *)
Definition expandStars (s : str) : str :=
  flat_map (fun c => if Ascii.eqb c "*" then lit ".*" else [c]) s.

Definition patternToRegex (pattern : str) : completion RegExp.t :=
  let escaped := escapePattern pattern in
  let regexStr := expandStars escaped in
  RegExp.create ("^"%char :: regexStr) true.

(** [patterns.some(...)]: the patterns in order, up to the first that
    matches. *)
Fixpoint matchesAnyPattern (url : str) (patterns : list str)
    : completion bool :=
  match patterns with
  | [] => Return false
  | pattern :: rest =>
      match patternToRegex pattern with
      | Return regex =>
          if RegExp.test regex url then Return true
          else matchesAnyPattern url rest
      | Throw e => Throw e
      end
  end.

(** What [isUrlAllowed] reads of the configuration:
    [getBrowserAgentConfig().customConfig.allowedDomains], which may be
    absent. *)
Record Config : Type := mkConfig {
  allowedDomains : option (list str)
}.

(** [isUrlAllowed]; the lines written to the debug log are left out. *)
Definition isUrlAllowed (url : str) (config : Config) : completion bool :=
  if isBlockedUrl url then Return false
  else
    let userAllowedDomains :=
      match allowedDomains config with Some l => l | None => [] end in
    match userAllowedDomains with
    | [] => Return true
    | _ :: _ =>
        let allAllowedPatterns :=
          DEFAULT_ALLOWED_PATTERNS ++ userAllowedDomains in
        matchesAnyPattern url allAllowedPatterns
    end.

Definition SENSITIVE_ACTIONS : list str :=
  [lit "fill"; lit "submit"; lit "upload_file"].

Definition isSensitiveAction (actionName : str) : bool :=
  existsb (fun sensitive =>
             (includes (toLowerCase actionName) sensitive
              || includes sensitive (toLowerCase actionName))%bool)
    SENSITIVE_ACTIONS.

(** The limits are JavaScript numbers, compared with the length of a
    list of time stamps by [>=].  The embedding takes them, like the
    millisecond time stamps, as integers, which the default limits are; a
    limit with a fraction, an infinite limit and NaN lie outside it. *)
Record RateLimitConfig : Type := mkLimits {
  maxActionsPerMinute : Z;
  maxNavigationsPerMinute : Z
}.

Definition DEFAULT_RATE_LIMITS : RateLimitConfig := mkLimits 60 10.

Record ActionRateLimiter : Type := mkLimiter {
  actionTimestamps : list Z;
  navigationTimestamps : list Z;
  limits : RateLimitConfig
}.

(** The constructor. *)
Definition newLimiter (l : RateLimitConfig) : ActionRateLimiter :=
  mkLimiter [] [] l.

(** [recordAction], at the moment [now] that [Date.now()] answers. *)
Definition recordAction (now : Z) (this : ActionRateLimiter)
    : bool * ActionRateLimiter :=
  let oneMinuteAgo := (now - 60000)%Z in
  let kept := filter (fun t => (oneMinuteAgo <? t)%Z) (actionTimestamps this) in
  if (maxActionsPerMinute (limits this) <=? Z.of_nat (List.length kept))%Z
  then (false, mkLimiter kept (navigationTimestamps this) (limits this))
  else (true,
        mkLimiter (kept ++ [now]) (navigationTimestamps this) (limits this)).

Definition recordNavigation (now : Z) (this : ActionRateLimiter)
    : bool * ActionRateLimiter :=
  let oneMinuteAgo := (now - 60000)%Z in
  let kept :=
    filter (fun t => (oneMinuteAgo <? t)%Z) (navigationTimestamps this) in
  if (maxNavigationsPerMinute (limits this) <=? Z.of_nat (List.length kept))%Z
  then (false, mkLimiter (actionTimestamps this) kept (limits this))
  else (true,
        mkLimiter (actionTimestamps this) (kept ++ [now]) (limits this)).

Definition reset (this : ActionRateLimiter) : ActionRateLimiter :=
  mkLimiter [] [] (limits this).

(** A run of calls of one method, one per moment of [times]: the answers
    in order and the limiter left behind. *)
Fixpoint calls (method : Z -> ActionRateLimiter -> bool * ActionRateLimiter)
    (times : list Z) (this : ActionRateLimiter)
    : list bool * ActionRateLimiter :=
  match times with
  | [] => ([], this)
  | now :: rest =>
      let '(ok, this') := method now this in
      let '(oks, this'') := calls method rest this' in
      (ok :: oks, this'')
  end.

(** [getNavigationRestrictionsMessage]: the lines of the template, with
    one line for each pattern of the user. *)
Definition getNavigationRestrictionsMessage (config : Config) : str :=
  let allowedDomains :=
    match allowedDomains config with Some l => l | None => [] end in
  match allowedDomains with
  | [] => []
  | _ :: _ =>
      "010"%char :: lit "NAVIGATION RESTRICTIONS:"
      ++ "010"%char
         :: lit "You may only navigate to URLs matching these patterns:"
      ++ "010"%char
         :: join ["010"%char] (map (fun u => lit "- " ++ u) allowedDomains)
      ++ "010"%char :: lit "Attempts to navigate elsewhere will be blocked."
  end.

(** The calls a user of the limiter can make, and a session of them. *)
Inductive LimiterCall : Type :=
| Action (now : Z)
| Navigation (now : Z)
| Reset.

Definition perform (this : ActionRateLimiter) (c : LimiterCall)
    : ActionRateLimiter :=
  match c with
  | Action now => snd (recordAction now this)
  | Navigation now => snd (recordNavigation now this)
  | Reset => reset this
  end.

Definition session (cs : list LimiterCall) (this : ActionRateLimiter)
    : ActionRateLimiter :=
  fold_left perform cs this.

End BrowserSecurity.

(** ** Overlay detection *)

Module OverlayDetection.

Import Js.

Record OverlayDetectionResult : Type := mkDetection {
  hasOverlay : bool;
  overlayInfo : str;
  suggestedAction : str
}.

(** A pattern written as a literal in the source. *)
Definition literal (src : str) (i : bool) : RegExp.t :=
  match RegExp.create src i with
  | Return re => re
  | Throw _ => RegExp.mkRegExp src i RegExp.Empty
  end.

Definition quoted (s : string) : str := dquote :: lit s ++ [dquote].

Definition OVERLAY_PATTERN_SOURCES : list str :=
  [lit "role=" ++ quoted "dialog";
   lit "role=" ++ quoted "alertdialog";
   lit "role=" ++ quoted "tooltip";
   lit "aria-modal=" ++ quoted "true";
   lit "cookie\s*(banner|consent|notice|policy)";
   lit "accept\s*all\s*cookies";
   lit "we\s*use\s*cookies";
   lit "privacy\s*settings";
   lit "newsletter\s*(sign\s*up|popup)";
   lit "subscribe\s*to";
   lit "sign\s*up\s*for";
   lit "modal|popup|overlay|lightbox";
   lit "close\s*(button|modal|dialog)";
   lit "dismiss|got\s*it|no\s*thanks|maybe\s*later"].

Definition OVERLAY_PATTERNS : list RegExp.t :=
  map (fun src => literal src true) OVERLAY_PATTERN_SOURCES.

(** The multiplication sign U+00D7; the four other crosses of the first
    close-button pattern lie above U+00FF. *)
Definition times_sign : ascii := ascii_of_N 215.

Definition crosses : RegExp.regex :=
  RegExp.Alt (RegExp.Seq (RegExp.Chr times_sign) RegExp.Empty)
    (RegExp.Alt (RegExp.Seq (RegExp.Wide 10005) RegExp.Empty)
       (RegExp.Alt (RegExp.Seq (RegExp.Wide 10006) RegExp.Empty)
          (RegExp.Alt (RegExp.Seq (RegExp.Wide 10761) RegExp.Empty)
             (RegExp.Seq (RegExp.Wide 10799) RegExp.Empty)))).

Definition CLOSE_BUTTON_PATTERNS : list RegExp.t :=
  [RegExp.mkRegExp [] false crosses;
   literal (lit "\bclose\b") true;
   literal (lit "\bdismiss\b") true;
   literal (lit "\bcancel\b") true;
   literal (lit "\bgot\s*it\b") true;
   literal (lit "\bno\s*thanks\b") true;
   literal (lit "\baccept\b") true;
   literal (lit "\bI\s*agree\b") true;
   literal (lit "\bcontinue\b") true].

(** [detectBlockingOverlays]; the line written to the debug log is left
    out. *)
Definition detectBlockingOverlays (snapshot : str) : OverlayDetectionResult :=
  let overlaysFound :=
    map RegExp.source
      (filter (fun pattern => RegExp.test pattern snapshot) OVERLAY_PATTERNS) in
  match overlaysFound with
  | [] => mkDetection false [] []
  | _ :: _ =>
      let closeButtons :=
        flat_map (fun pattern =>
                    match RegExp.exec pattern snapshot with
                    | Some m => [m]
                    | None => []
                    end) CLOSE_BUTTON_PATTERNS in
      let overlayInfo :=
        lit "Detected overlay patterns: "
        ++ join (lit ", ") (firstn 3 overlaysFound) in
      let suggestedAction :=
        match closeButtons with
        | [] =>
            lit "Look for a close button (" ++ [times_sign]
            ++ lit ", Close, Dismiss, Got it) and click it to dismiss the overlay."
        | _ :: _ =>
            lit "Found potential close buttons: "
            ++ join (lit ", ") (firstn 3 closeButtons)
            ++ lit ". Click one to dismiss the overlay."
        end in
      mkDetection true overlayInfo suggestedAction
  end.

Definition wasActionBlockedByOverlay (beforeSnapshot afterSnapshot : str)
    : bool :=
  let beforeDetection := detectBlockingOverlays beforeSnapshot in
  let afterDetection := detectBlockingOverlays afterSnapshot in
  if (hasOverlay beforeDetection && hasOverlay afterDetection)%bool
  then Js.eqb (overlayInfo beforeDetection) (overlayInfo afterDetection)
  else false.

End OverlayDetection.

(** ** The browser action primitives *)

Module BrowserTools.

Import Js.

Record ToolResult : Type := mkResult {
  output : option str;
  error : option str;
  url : option str
}.

Inductive Direction : Type :=
| up
| down
| left
| right.

Definition direction_name (d : Direction) : str :=
  match d with
  | up => lit "up"
  | down => lit "down"
  | left => lit "left"
  | right => lit "right"
  end.

Section Driver.

(** JavaScript numbers and the arithmetic the primitives do on them stay
    abstract: [scale x d] is [(x / 1000) * d], [negate] the unary minus,
    [zero] the literal 0 and [show] the conversion to a string. *)
Variable num : Type.
Variable scale : num -> num -> num.
Variable negate : num -> num.
Variable zero : num.
Variable show : num -> str.

(** The state of the browser behind [browserManager]. *)
Variable Page : Type.

(** The functions the primitives hand to [page.evaluate]. *)
Inductive Script : Type :=
| ShowOverlay (message : str)
| RemoveOverlay
| MoveMouse (x y : num)
| ShowScrollIndicator (direction : str)
| AnimateClick
| ElementLabel (x y : num)
| WindowSize.

(** The driver.  The values that the page hands back are typed [any] in
    the source; they stay abstract, together with what the primitives do
    with such a value: the test of its truthiness, its conversion to a
    string in a template literal, and the reads of its properties [width]
    and [height] as the numbers that the multiplication sees.  Every
    call but [viewportSize] and [url] may throw, and may change the
    page. *)
Record Driver : Type := mkDriver {
  Value : Type;
  truthy_value : Value -> bool;
  text_of : Value -> str;
  width_of : Value -> num;
  height_of : Value -> num;
  getPage : Page -> completion Page;
  evaluate : Script -> Page -> completion (Value * Page);
  goto : str -> Page -> completion Page;
  page_url : Page -> str;
  viewportSize : Page -> Value;
  mouse_click : num -> num -> Page -> completion Page;
  mouse_move : num -> num -> Page -> completion Page;
  mouse_down : Page -> completion Page;
  mouse_up : Page -> completion Page;
  mouse_wheel : num -> num -> Page -> completion Page;
  keyboard_press : str -> Page -> completion Page;
  keyboard_type : str -> Page -> completion Page
}.

Variable driver : Driver.

(** An asynchronous method: from the page it starts on to a result and
    the page it leaves, or to a thrown error.  The pauses taken with
    [setTimeout] are left out. *)
Definition Async (A : Type) : Type := Page -> completion (A * Page).

Definition ret {A : Type} (a : A) : Async A := fun p => Return (a, p).

Definition bind {A B : Type} (m : Async A) (f : A -> Async B) : Async B :=
  fun p =>
    match m p with
    | Return (a, p') => f a p'
    | Throw e => Throw e
    end.

(** A driver call without a result. *)
Definition await (op : Page -> completion Page) : Async unit :=
  fun p =>
    match op p with
    | Return p' => Return (tt, p')
    | Throw e => Throw e
    end.

(** [try { body } catch (e) { }]. *)
Definition try_ignore (body : Async unit) : Async unit :=
  fun p =>
    match body p with
    | Return r => Return r
    | Throw _ => Return (tt, p)
    end.

Definition current_url : Async str := fun p => Return (page_url driver p, p).

Notation "x <- m ;; k" := (bind m (fun x => k))
  (at level 61, m at next level, right associativity).
Notation "m ;;; k" := (bind m (fun _ => k))
  (at level 61, right associativity).

Definition showOverlay (message : str) : Async unit :=
  _ <- evaluate driver (ShowOverlay message) ;; ret tt.

Definition removeOverlay : Async unit :=
  try_ignore
    (await (getPage driver) ;;;
     _ <- evaluate driver RemoveOverlay ;; ret tt).

Definition moveMouse (x y : num) : Async unit :=
  _ <- evaluate driver (MoveMouse x y) ;; ret tt.

Definition showScrollIndicator (direction : str) : Async unit :=
  _ <- evaluate driver (ShowScrollIndicator direction) ;; ret tt.

Definition animateClick : Async unit :=
  _ <- evaluate driver AnimateClick ;; ret tt.

(** [getViewportSize]: the viewport of the page when that is truthy,
    else what the script of the window size answers. *)
Definition getViewportSize : Async (Value driver) :=
  fun p =>
    let viewport := viewportSize driver p in
    if truthy_value driver viewport then Return (viewport, p)
    else evaluate driver WindowSize p.

Definition getElementLabel (x y : num) : Async (Value driver) :=
  evaluate driver (ElementLabel x y).

Definition ok (out : str) : Async ToolResult :=
  u <- current_url ;; ret (mkResult (Some out) None (Some u)).

Definition viewport_not_available : Async ToolResult :=
  u <- current_url ;;
  ret (mkResult None (Some (lit "Viewport not available")) (Some u)).

Definition navigate (target : str) : Async ToolResult :=
  await (getPage driver) ;;;
  showOverlay (lit "Navigating to " ++ target) ;;;
  await (goto driver target) ;;;
  ok (lit "Navigated to " ++ target).

Definition clickAt (x y : num) : Async ToolResult :=
  await (getPage driver) ;;;
  viewport <- getViewportSize ;;
  if truthy_value driver viewport then
    let actualX := scale x (width_of driver viewport) in
    let actualY := scale y (height_of driver viewport) in
    moveMouse actualX actualY ;;;
    label <- getElementLabel actualX actualY ;;
    let msg :=
      if truthy_value driver label
      then lit "Clicking " ++ [dquote] ++ text_of driver label ++ [dquote]
      else lit "Clicking at " ++ show x ++ lit ", " ++ show y in
    showOverlay msg ;;;
    await (mouse_click driver actualX actualY) ;;;
    animateClick ;;;
    ok (lit "Clicked")
  else viewport_not_available.

Definition typeTextAt (x y : num) (text : str)
    (pressEnter clearBeforeTyping : bool) : Async ToolResult :=
  await (getPage driver) ;;;
  viewport <- getViewportSize ;;
  if truthy_value driver viewport then
    let actualX := scale x (width_of driver viewport) in
    let actualY := scale y (height_of driver viewport) in
    moveMouse actualX actualY ;;;
    label <- getElementLabel actualX actualY ;;
    let typing := lit "Typing " ++ [dquote] ++ text ++ [dquote] in
    let msg :=
      if truthy_value driver label
      then typing ++ lit " into " ++ text_of driver label
      else typing ++ lit " at " ++ show x ++ lit ", " ++ show y in
    showOverlay msg ;;;
    await (mouse_click driver actualX actualY) ;;;
    animateClick ;;;
    (if clearBeforeTyping
     then await (keyboard_press driver (lit "Control+A")) ;;;
          await (keyboard_press driver (lit "Backspace"))
     else ret tt) ;;;
    await (keyboard_type driver text) ;;;
    (if pressEnter then await (keyboard_press driver (lit "Enter"))
     else ret tt) ;;;
    ok (lit "Typed " ++ [dquote] ++ text ++ [dquote])
  else viewport_not_available.

Definition scrollDocument (direction : Direction) (amount : num)
    : Async ToolResult :=
  await (getPage driver) ;;;
  showScrollIndicator (direction_name direction) ;;;
  showOverlay (lit "Scrolling " ++ direction_name direction) ;;;
  let deltaX :=
    match direction with
    | left => negate amount
    | right => amount
    | _ => zero
    end in
  let deltaY :=
    match direction with
    | up => negate amount
    | down => amount
    | _ => zero
    end in
  await (mouse_wheel driver deltaX deltaY) ;;;
  ok (lit "Scrolled " ++ direction_name direction ++ lit " by " ++ show amount).

Definition dragAndDrop (x y destX destY : num) : Async ToolResult :=
  let route :=
    show x ++ lit "," ++ show y ++ lit " to "
    ++ show destX ++ lit "," ++ show destY in
  await (getPage driver) ;;;
  showOverlay (lit "Dragging from " ++ route) ;;;
  viewport <- getViewportSize ;;
  if truthy_value driver viewport then
    let actualX := scale x (width_of driver viewport) in
    let actualY := scale y (height_of driver viewport) in
    let actualDestX := scale destX (width_of driver viewport) in
    let actualDestY := scale destY (height_of driver viewport) in
    moveMouse actualX actualY ;;;
    await (mouse_move driver actualX actualY) ;;;
    animateClick ;;;
    await (mouse_down driver) ;;;
    moveMouse actualDestX actualDestY ;;;
    await (mouse_move driver actualDestX actualDestY) ;;;
    await (mouse_up driver) ;;;
    animateClick ;;;
    ok (lit "Dragged from " ++ route)
  else viewport_not_available.

Definition pagedown : Async ToolResult :=
  await (getPage driver) ;;;
  showOverlay (lit "Pressing PageDown") ;;;
  await (keyboard_press driver (lit "PageDown")) ;;;
  ok (lit "Pressed PageDown").

Definition pageup : Async ToolResult :=
  await (getPage driver) ;;;
  showOverlay (lit "Pressing PageUp") ;;;
  await (keyboard_press driver (lit "PageUp")) ;;;
  ok (lit "Pressed PageUp").

Definition keyCombination (keys : str) : Async ToolResult :=
  await (getPage driver) ;;;
  showOverlay (lit "Pressing " ++ keys) ;;;
  await (keyboard_press driver keys) ;;;
  ok (lit "Pressed " ++ keys).

Definition openWebBrowser : Async ToolResult :=
  await (getPage driver) ;;;
  ok (lit "Browser opened").

End Driver.

End BrowserTools.

(** ** The matchers as the specification words them

    These definitions follow the text of the specification, not the
    code; the theorems below compare the code with them. *)

Module Spec.

Import Js.

(** Two units are the same letter up to case. *)
Definition same_letter (a b : ascii) : bool :=
  Ascii.eqb (lower_char a) (lower_char b).

(** A string starts, case-insensitively, with a prefix: its first units,
    as many as the prefix has, are the units of the prefix up to case. *)
Definition starts_with_ci (url prefix : str) : Prop :=
  exists head rest,
    url = head ++ rest /\ Forall2 (fun a b => same_letter a b = true) head prefix.

(** Some run of units that [span] allows, followed by a match of
    [next]. *)
Fixpoint any_run (span : ascii -> bool) (next : str -> bool) (u : str)
    : bool :=
  (next u
   || match u with
      | x :: u' => span x && any_run span next u'
      | [] => false
      end)%bool.

(** A pattern with wildcards, matched case-insensitively as a prefix of
    the string: a star stands for any run of units that [span] allows,
    every other unit for itself up to case, and what follows the match is
    free. *)
Fixpoint glob (span : ascii -> bool) (pattern : str) (url : str)
    {struct pattern} : bool :=
  match pattern with
  | [] => true
  | c :: pattern' =>
      if Ascii.eqb c "*" then any_run span (glob span pattern') url
      else
        match url with
        | x :: url' => (same_letter c x && glob span pattern' url')%bool
        | [] => false
        end
  end.

(** The wildcard of the specification: any characters. *)
Definition glob_any : str -> str -> bool := glob (fun _ => true).

(** The wildcard of the code: any characters but line terminators. *)
Definition glob_line : str -> str -> bool :=
  glob (fun x => negb (is_line_terminator x)).

End Spec.

(** ** What the patterns of the program compile to *)

Module Compiled.

Import Js.

(** The continuation that ends a match: it hands back the rest of the
    input. *)
Definition accept (_ : option ascii) (rest : str) : option str := Some rest.

Definition matched {A : Type} (o : option A) : bool :=
  match o with Some _ => true | None => false end.

Definition literal_token (c : ascii) : RegExp.token :=
  RegExp.TAtom (RegExp.Chr c).

(** The tokens and the term of one unit of a URL pattern. *)
Definition url_tokens (c : ascii) : list RegExp.token :=
  if Ascii.eqb c "*" then [RegExp.TAtom RegExp.Dot; RegExp.TStar]
  else [literal_token c].

Definition url_term (c : ascii) : RegExp.regex :=
  if Ascii.eqb c "*" then RegExp.Star RegExp.Dot else RegExp.Chr c.

(** The pattern of a URL pattern: anchored at the start, one term a
    unit. *)
Definition url_regex (pattern : str) : RegExp.regex :=
  RegExp.mkseq (RegExp.Bol :: map url_term pattern).

(** The key of the member a grant looks for, with its quotes, the colon
    and the quote that opens the value. *)
Definition file_path_key : str :=
  dquote :: lit "file_path" ++ [dquote; ":"%char; dquote].

(** The end of the pattern of a grant: an optional group, made of a
    slash and any run of units, and the closing quote. *)
Definition below : RegExp.regex :=
  RegExp.Opt
    (RegExp.Group
       (RegExp.mkseq [RegExp.Chr "/"; RegExp.Star RegExp.Dot])).

(** The pattern of the grant of an absolute path. *)
Definition grant_regex (absolutePath : str) : RegExp.regex :=
  RegExp.mkseq
    (map RegExp.Chr (file_path_key ++ absolutePath)
     ++ [below; RegExp.Chr dquote]).

(** No quote of the text stands bare: each has a backslash before it.
    [after_backslash] tells whether the unit before the text is one. *)
Fixpoint no_bare_quote (after_backslash : bool) (text : str) : bool :=
  match text with
  | [] => true
  | c :: text' =>
      if Ascii.eqb c dquote
      then (after_backslash && no_bare_quote false text')%bool
      else no_bare_quote (Ascii.eqb c bslash) text'
  end.

End Compiled.

(** ** One sliding window

    The two methods of the limiter run the same steps on their own list
    of time stamps; [record_in] is that common step and [run_in] a run of
    it, used to state the lemmas once. *)

Module Window.

(** Less than a minute old at [now]. *)
Definition young (now t : Z) : bool := (now - 60000 <? t)%Z.

Definition record_in (limit now : Z) (ts : list Z) : bool * list Z :=
  let kept := filter (fun t => (now - 60000 <? t)%Z) ts in
  if (limit <=? Z.of_nat (List.length kept))%Z then (false, kept)
  else (true, kept ++ [now]).

Fixpoint run_in (limit : Z) (times : list Z) (ts : list Z)
    : list bool * list Z :=
  match times with
  | [] => ([], ts)
  | now :: rest =>
      let '(ok, ts') := record_in limit now ts in
      let '(oks, ts'') := run_in limit rest ts' in
      (ok :: oks, ts'')
  end.

End Window.

(** ** Inputs of the examples *)

Module Examples.

Import Js.

Definition root : str := lit "/".

Definition enter (p : PlanMode.EnterPlanModeParams)
    : PlanMode.EnterPlanModeInvocation :=
  PlanMode.createInvocation p (lit "enter_plan_mode") (lit "Enter Plan Mode").

(** A configuration rooted at [/app] that accepts every path, one that
    refuses every path, and one whose validation answers the empty
    string. *)
Definition accept_all : PlanMode.Config :=
  PlanMode.mkConfig (lit "/app") (fun _ => None).

Definition deny_all : PlanMode.Config :=
  PlanMode.mkConfig (lit "/app") (fun _ => Some (lit "Access denied")).

Definition empty_error : PlanMode.Config :=
  PlanMode.mkConfig (lit "/app") (fun _ => Some []).

Definition with_path (p : string) : PlanMode.EnterPlanModeParams :=
  PlanMode.mkParams None (Some (lit p)) None.

Definition forbidden : PlanMode.EnterPlanModeInvocation :=
  enter (with_path "/forbidden/path").

Definition forbidden_cancelled : PlanMode.EnterPlanModeInvocation :=
  PlanMode.onConfirm forbidden PlanMode.Cancel.

Definition empty_path : PlanMode.EnterPlanModeInvocation :=
  enter (PlanMode.mkParams None (Some []) None).

Definition conductor : PlanMode.EnterPlanModeInvocation :=
  enter (with_path "conductor").

Definition feature_1 : PlanMode.EnterPlanModeInvocation :=
  enter (with_path "conductor/tracks/feature-1").

Definition no_params : PlanMode.EnterPlanModeInvocation :=
  enter (PlanMode.mkParams None None None).

Definition with_reason : PlanMode.EnterPlanModeInvocation :=
  enter (PlanMode.mkParams (Some (lit "Design new database schema"))
           None None).

(** A path with a backslash in a file name. *)
Definition backslash_name : PlanMode.EnterPlanModeInvocation :=
  enter (with_path "notes\plan.md").

(** The patterns of the rules among the calls of a run. *)
Definition patterns_of (run : PlanMode.Eff PlanMode.ToolResult)
    : list RegExp.t :=
  flat_map (fun c =>
              match c with
              | PlanMode.addPolicyRule r => [PlanMode.argsPattern r]
              | PlanMode.setApprovalMode _ => []
              end) (snd run).

(** The configuration of the security tests that restricts domains. *)
Definition restricted : BrowserSecurity.Config :=
  BrowserSecurity.mkConfig
    (Some [lit "https://example.com/*"; lit "https://*.test.org"]).

Definition unrestricted : BrowserSecurity.Config :=
  BrowserSecurity.mkConfig None.

(** The rule that [execute] adds for [write_file] when it grants
    [/app/conductor]. *)
Definition conductor_write_rule : PlanMode.PolicyRule :=
  PlanMode.mkRule (lit "write_file")
    (RegExp.mkRegExp (PlanMode.argsPatternSource (lit "/app/conductor"))
       false (Compiled.grant_regex (lit "/app/conductor")))
    PlanMode.ALLOW 80%Z [PlanMode.PLAN] (lit "PlanMode").

(** Two snapshots of the accessibility tree: a dialog with a close
    button, and a page without overlay. *)
Definition dialog_snapshot : str :=
  lit "uid=1 div role=" ++ OverlayDetection.quoted "dialog"
  ++ lit " uid=2 button " ++ OverlayDetection.quoted "Close".

Definition clean_snapshot : str :=
  lit "uid=1 main uid=2 h1 " ++ OverlayDetection.quoted "Welcome".

(** The values that the browsers of the examples answer: undefined,
    null, a text, and the object of a window size.  The dimension that a
    value without one gives is NaN in JavaScript; the integers of the
    examples have no such number and 0 stands in for it. *)
Inductive value : Type :=
| undefined
| null
| text (s : str)
| size (width height : Z).

Definition value_truthy (v : value) : bool :=
  match v with
  | undefined | null => false
  | text s => truthy s
  | size _ _ => true
  end.

Definition value_text (v : value) : str :=
  match v with
  | undefined => lit "undefined"
  | null => lit "null"
  | text s => s
  | size _ _ => lit "[object Object]"
  end.

Definition value_width (v : value) : Z :=
  match v with size w _ => w | _ => 0%Z end.

Definition value_height (v : value) : Z :=
  match v with size _ h => h | _ => 0%Z end.

(** Four browsers, with integers for numbers and the current URL for
    the state of the page: one where every call goes through, one whose
    navigation fails, one that cannot be reached at all, one without a
    viewport. *)
Definition quiet : BrowserTools.Driver Z str :=
  BrowserTools.mkDriver Z str
    value value_truthy value_text value_width value_height
    (fun p => Return p)
    (fun _ p => Return (undefined, p))
    (fun target _ => Return target)
    (fun p => p)
    (fun _ => size 1000%Z 800%Z)
    (fun _ _ p => Return p)
    (fun _ _ p => Return p)
    (fun p => Return p)
    (fun p => Return p)
    (fun _ _ p => Return p)
    (fun _ p => Return p)
    (fun _ p => Return p).

Definition offline : BrowserTools.Driver Z str :=
  BrowserTools.mkDriver Z str
    value value_truthy value_text value_width value_height
    (BrowserTools.getPage Z str quiet)
    (BrowserTools.evaluate Z str quiet)
    (fun _ _ => Throw (lit "net::ERR_INTERNET_DISCONNECTED"))
    (BrowserTools.page_url Z str quiet)
    (BrowserTools.viewportSize Z str quiet)
    (BrowserTools.mouse_click Z str quiet)
    (BrowserTools.mouse_move Z str quiet)
    (BrowserTools.mouse_down Z str quiet)
    (BrowserTools.mouse_up Z str quiet)
    (BrowserTools.mouse_wheel Z str quiet)
    (BrowserTools.keyboard_press Z str quiet)
    (BrowserTools.keyboard_type Z str quiet).

Definition unreachable : BrowserTools.Driver Z str :=
  BrowserTools.mkDriver Z str
    value value_truthy value_text value_width value_height
    (fun _ => Throw (lit "browser has been closed"))
    (BrowserTools.evaluate Z str quiet)
    (BrowserTools.goto Z str quiet)
    (BrowserTools.page_url Z str quiet)
    (BrowserTools.viewportSize Z str quiet)
    (BrowserTools.mouse_click Z str quiet)
    (BrowserTools.mouse_move Z str quiet)
    (BrowserTools.mouse_down Z str quiet)
    (BrowserTools.mouse_up Z str quiet)
    (BrowserTools.mouse_wheel Z str quiet)
    (BrowserTools.keyboard_press Z str quiet)
    (BrowserTools.keyboard_type Z str quiet).

Definition no_viewport : BrowserTools.Driver Z str :=
  BrowserTools.mkDriver Z str
    value value_truthy value_text value_width value_height
    (BrowserTools.getPage Z str quiet)
    (fun _ p => Return (null, p))
    (BrowserTools.goto Z str quiet)
    (BrowserTools.page_url Z str quiet)
    (fun _ => null)
    (BrowserTools.mouse_click Z str quiet)
    (BrowserTools.mouse_move Z str quiet)
    (BrowserTools.mouse_down Z str quiet)
    (BrowserTools.mouse_up Z str quiet)
    (BrowserTools.mouse_wheel Z str quiet)
    (BrowserTools.keyboard_press Z str quiet)
    (BrowserTools.keyboard_type Z str quiet).

(** Integer stand-ins for the arithmetic on numbers. *)
Definition scaleZ (x d : Z) : Z := (x * d / 1000)%Z.

Definition showZ (z : Z) : str := lit (NilZero.string_of_int (Z.to_int z)).

(** A configuration that allows the pattern of the test suite, and a
    URL with a line feed after [sub]. *)
Definition test_org : BrowserSecurity.Config :=
  BrowserSecurity.mkConfig (Some [lit "https://*.test.org"]).

Definition line_feed : ascii := "010"%char.

Definition broken_line_url : str :=
  lit "https://sub" ++ [line_feed] ++ lit ".test.org".

(** A limiter that lets two actions and one navigation pass a minute. *)
Definition two_a_minute : BrowserSecurity.ActionRateLimiter :=
  BrowserSecurity.newLimiter (BrowserSecurity.mkLimits 2 1).

End Examples.

(** ** The activity log of the browser agent *)

(** [BrowserLogger] of [browserLogger.ts].  [flush] is asynchronous: the
    part before its [await] runs within the call (the text of the
    buffered entries is handed to [fs.promises.appendFile]), the part
    after it (the buffer is emptied) runs when the write has settled.
    The callers of [log] do not wait for the flush that it starts, so a
    state of the logger holds the writes that were started and have not
    settled yet. *)

Module BrowserLogger.

Import Js.

Inductive EntryType : Type :=
| Action
| Navigation
| Snapshot
| Error
| Info.

Section Logger.

(** The parameters of a tool call ([Record<string, unknown>]), numbers
    and their conversion to a string, the record with the one field
    [url], and [JSON.stringify] on the entries of the buffer stay
    abstract.  In [flush] a [JSON.stringify] that throws is caught with
    the failures of the write and leaves the logger as a write that fails
    does; it is not modelled apart. *)
Variable Params : Type.
Variable num : Type.
Variable show : num -> str.
Variable url_params : str -> Params.

Record BrowserLogEntry : Type := mkEntry {
  timestamp : str;
  type : EntryType;
  tool : option str;
  params : option Params;
  result : option str;
  error : option str;
  duration : option num
}.

(** What the buffer holds: an entry, or the record of a full turn that
    [logFullTurn] pushes in its place. *)
Inductive Logged : Type :=
| Activity (entry : BrowserLogEntry)
| Turn (timestamp input output : str).

Variable stringify : Logged -> str.

Record State : Type := mkState {
  entries : list Logged;
  file : list str;
  pending : list str
}.

(** The constructor, with a log file that has nothing appended yet. *)
Definition newLogger : State := mkState [] [] [].

(** The text that [flush] appends: one line for each entry. *)
Definition lines (es : list Logged) : str :=
  join ["010"%char] (map stringify es) ++ ["010"%char].

(** [flush] up to its [await]: nothing when the buffer is empty, else a
    write of the lines of the buffer is started.  [ensureLogDir] catches
    its own errors; a directory that could not be made shows as a write
    that fails. *)
Definition flush (this : State) : State :=
  match entries this with
  | [] => this
  | _ :: _ =>
      mkState (entries this) (file this)
        (pending this ++ [lines (entries this)])
  end.

(** The rest of [flush], run when the write that was started as number
    [i] of the pending ones settles: after a write that succeeded the
    buffer is emptied, after one that failed the error is logged and the
    buffer stays. *)
Fixpoint remove_nth {A : Type} (i : nat) (l : list A) : list A :=
  match l, i with
  | [], _ => []
  | _ :: l', O => l'
  | x :: l', S i' => x :: remove_nth i' l'
  end.

Definition settle (i : nat) (ok : bool) (this : State) : State :=
  match nth_error (pending this) i with
  | None => this
  | Some text =>
      if ok then mkState [] (file this ++ [text]) (remove_nth i (pending this))
      else mkState (entries this) (file this) (remove_nth i (pending this))
  end.

(** [log]; the line for the debug log is left out.  The flush it starts
    is not awaited. *)
Definition log (entry : Logged) (this : State) : State :=
  let this' := mkState (entries this ++ [entry]) (file this) (pending this) in
  if Nat.eqb (List.length (entries this') mod 10) 0 then flush this'
  else this'.

(** The five methods that log an entry; [now] is the time stamp that
    [new Date().toISOString()] gives. *)
Definition logAction (now tool_ : str) (params_ : Params) (result_ : str)
    (duration_ : option num) : State -> State :=
  log (Activity (mkEntry now Action (Some tool_) (Some params_)
                   (Some result_) None duration_)).

Definition logNavigation (now url result_ : str) : State -> State :=
  log (Activity (mkEntry now Navigation None (Some (url_params url))
                   (Some result_) None None)).

Definition logSnapshot (now : str) (snapshotLength : num) : State -> State :=
  log (Activity (mkEntry now Snapshot None None
                   (Some (lit "Captured " ++ show snapshotLength
                          ++ lit " characters"))
                   None None)).

Definition logError (now tool_ error_ : str) : State -> State :=
  log (Activity (mkEntry now Error (Some tool_) None None (Some error_) None)).

Definition logInfo (now message : str) : State -> State :=
  log (Activity (mkEntry now Info None None (Some message) None None)).

(** [JSON.stringify(v).slice(0, 500)], from what [JSON.stringify]
    answers for [v]: a text, [undefined] (for [undefined], a function or
    a symbol) or a thrown error (for a cyclic value or a BigInt).  The
    call of [slice] on [undefined] throws a [TypeError]. *)
Definition sliced (serialized : completion (option str)) : completion str :=
  match serialized with
  | Return (Some text) => Return (firstn 500 text)
  | Return None => Throw (lit "TypeError")
  | Throw e => Throw e
  end.

(** [logFullTurn] up to its [await], from what [JSON.stringify] answers
    for the input and for the output.  The record of the turn is built
    first, the input before the output; what that throws leaves the
    method before anything is pushed.  Then the record is pushed and a
    flush is started. *)
Definition logFullTurn (now : str)
    (input output : completion (option str)) (this : State)
    : completion State :=
  match sliced input with
  | Throw e => Throw e
  | Return input' =>
      match sliced output with
      | Throw e => Throw e
      | Return output' =>
          Return (flush (mkState (entries this ++ [Turn now input' output'])
                           (file this) (pending this)))
      end
  end.

(** What happens to a logger, in the order in which it happens.  A call
    of [logFullTurn] that throws leaves the logger as it was. *)
Inductive Event : Type :=
| Log (entry : Logged)
| FullTurn (now : str) (input output : completion (option str))
| Flush
| Settle (i : nat) (ok : bool).

Definition step (this : State) (ev : Event) : State :=
  match ev with
  | Log entry => log entry this
  | FullTurn now input output =>
      match logFullTurn now input output this with
      | Return this' => this'
      | Throw _ => this
      end
  | Flush => flush this
  | Settle i ok => settle i ok this
  end.

Definition run (evs : list Event) (this : State) : State :=
  fold_left step evs this.

End Logger.

End BrowserLogger.

(** ** Notions used by the further properties *)

Module Notions.

Import Js.

(** The moments of the calls of a run that were answered true. *)
Definition accepted (times : list Z) (answers : list bool) : list Z :=
  map fst (filter snd (combine times answers)).

(** Within the minute that ends at [t]. *)
Definition within (t a : Z) : bool := ((t - 60000 <? a) && (a <=? t))%Z.

(** The calls of a session that touch the actions, and those that touch
    the navigations; a reset touches both. *)
Definition on_actions (c : BrowserSecurity.LimiterCall) : bool :=
  match c with BrowserSecurity.Navigation _ => false | _ => true end.

Definition on_navigations (c : BrowserSecurity.LimiterCall) : bool :=
  match c with BrowserSecurity.Action _ => false | _ => true end.

(** The units of a pattern before its first star. *)
Fixpoint literal_head (pattern : str) : str :=
  match pattern with
  | [] => []
  | c :: pattern' =>
      if Ascii.eqb c "*" then [] else c :: literal_head pattern'
  end.

(** Two strings differ at a position that both have. *)
Fixpoint diverge (a b : str) : bool :=
  match a, b with
  | x :: a', y :: b' => (negb (Ascii.eqb x y) || diverge a' b')%bool
  | _, _ => false
  end.

(** A match attempt found a match. *)
Definition succeeds {R : Type} (o : option R) : bool :=
  match o with Some _ => true | None => false end.

(** A pattern without assertions: what it matches at a position does
    not depend on what stands before or after the match. *)
Fixpoint assertion_free (r : RegExp.regex) : bool :=
  match r with
  | RegExp.WordB | RegExp.Bol | RegExp.Eol => false
  | RegExp.Seq r1 r2 | RegExp.Alt r1 r2 =>
      (assertion_free r1 && assertion_free r2)%bool
  | RegExp.Star r' | RegExp.Opt r' | RegExp.Group r' => assertion_free r'
  | _ => true
  end.

(** A browser action reports the page it leaves: whenever it returns a
    result, the [url] of the result is the URL of the page after the
    action, and the result carries either an output and no error, or no
    output and the error of the missing viewport. *)
Definition reports_page {num Page : Type}
    (driver : BrowserTools.Driver num Page)
    (action : BrowserTools.Async Page BrowserTools.ToolResult) : Prop :=
  forall p result p',
    action p = Return (result, p') ->
    BrowserTools.url result
    = Some (BrowserTools.page_url num Page driver p')
    /\ ((exists out,
            BrowserTools.output result = Some out
            /\ BrowserTools.error result = None)
        \/ (BrowserTools.output result = None
            /\ BrowserTools.error result
               = Some (lit "Viewport not available"))).

(** What stands after the granted path where the pattern of a grant
    matches: the closing quote, or a slash, a run of units other than
    line terminators, and a quote. *)
Definition closes_path (tail : str) : Prop :=
  (exists after, tail = dquote :: after)
  \/ (exists run after,
         tail = "/"%char :: run ++ dquote :: after
         /\ forallb (fun c => negb (is_line_terminator c)) run = true).

(** The text that [JSON.stringify] gives for arguments whose [file_path]
    is [/app/conductor2] and whose member [meta] is an object with a
    [file_path] of its own, [/app/conductor]. *)
Definition nested_arguments : str :=
  lit "{" ++ Json.member (lit "file_path") (lit "/app/conductor2")
  ++ lit "," ++ dquote :: lit "meta" ++ dquote :: lit ":{"
  ++ Json.member (lit "file_path") (lit "/app/conductor") ++ lit "}}".

(** The calls of a driver that may throw. *)
Inductive DriverCall (num : Type) : Type :=
| GetPage
| Evaluate (script : BrowserTools.Script num)
| Goto (target : str)
| MouseClick (x y : num)
| MouseMove (x y : num)
| MouseDown
| MouseUp
| MouseWheel (deltaX deltaY : num)
| KeyboardPress (keys : str)
| KeyboardType (text : str).

Arguments GetPage {num}.
Arguments Evaluate {num} script.
Arguments Goto {num} target.
Arguments MouseClick {num} x y.
Arguments MouseMove {num} x y.
Arguments MouseDown {num}.
Arguments MouseUp {num}.
Arguments MouseWheel {num} deltaX deltaY.
Arguments KeyboardPress {num} keys.
Arguments KeyboardType {num} text.

(** A driver made to fail: the calls that [broken] picks, by the call
    and the page it is made on, throw [e]; every other call does what it
    did. *)
Definition failing {num Page : Type}
    (broken : DriverCall num -> Page -> bool) (e : str)
    (driver : BrowserTools.Driver num Page) : BrowserTools.Driver num Page :=
  BrowserTools.mkDriver num Page
    (BrowserTools.Value num Page driver)
    (BrowserTools.truthy_value num Page driver)
    (BrowserTools.text_of num Page driver)
    (BrowserTools.width_of num Page driver)
    (BrowserTools.height_of num Page driver)
    (fun p =>
       if broken GetPage p then Throw e
       else BrowserTools.getPage num Page driver p)
    (fun script p =>
       if broken (Evaluate script) p then Throw e
       else BrowserTools.evaluate num Page driver script p)
    (fun target p =>
       if broken (Goto target) p then Throw e
       else BrowserTools.goto num Page driver target p)
    (BrowserTools.page_url num Page driver)
    (BrowserTools.viewportSize num Page driver)
    (fun x y p =>
       if broken (MouseClick x y) p then Throw e
       else BrowserTools.mouse_click num Page driver x y p)
    (fun x y p =>
       if broken (MouseMove x y) p then Throw e
       else BrowserTools.mouse_move num Page driver x y p)
    (fun p =>
       if broken MouseDown p then Throw e
       else BrowserTools.mouse_down num Page driver p)
    (fun p =>
       if broken MouseUp p then Throw e
       else BrowserTools.mouse_up num Page driver p)
    (fun dx dy p =>
       if broken (MouseWheel dx dy) p then Throw e
       else BrowserTools.mouse_wheel num Page driver dx dy p)
    (fun keys p =>
       if broken (KeyboardPress keys) p then Throw e
       else BrowserTools.keyboard_press num Page driver keys p)
    (fun text p =>
       if broken (KeyboardType text) p then Throw e
       else BrowserTools.keyboard_type num Page driver text p).

(** The action [hurt], run on the driver made to fail, against the
    action run on the driver itself: on every page it ends as the other
    does, or it throws the error of the failure. *)
Definition unaffected_or_thrown {Page A : Type} (e : str)
    (hurt action : BrowserTools.Async Page A) : Prop :=
  forall p, hurt p = action p \/ hurt p = Throw e.

(** No result of the action carries an error. *)
Definition returns_no_error {Page : Type}
    (action : BrowserTools.Async Page BrowserTools.ToolResult) : Prop :=
  forall p result p',
    action p = Return (result, p') -> BrowserTools.error result = None.

(** The one error that a result of the action carries is that of the
    viewport, and the viewport was then not available: [getViewportSize]
    had answered a falsy value and left the page of the result. *)
Definition errs_only_without_viewport {num Page : Type}
    (driver : BrowserTools.Driver num Page)
    (action : BrowserTools.Async Page BrowserTools.ToolResult) : Prop :=
  forall p result p',
    action p = Return (result, p') ->
    BrowserTools.error result = None
    \/ (result
        = BrowserTools.mkResult None (Some (lit "Viewport not available"))
            (Some (BrowserTools.page_url num Page driver p'))
        /\ exists q v,
             BrowserTools.getViewportSize num Page driver q = Return (v, p')
             /\ BrowserTools.truthy_value num Page driver v = false).

(** A browser whose navigation ends on another page than the one
    asked for. *)
Definition redirecting : BrowserTools.Driver Z str :=
  BrowserTools.mkDriver Z str
    Examples.value Examples.value_truthy Examples.value_text
    Examples.value_width Examples.value_height
    (BrowserTools.getPage Z str Examples.quiet)
    (BrowserTools.evaluate Z str Examples.quiet)
    (fun target _ => Return (target ++ lit "/login"))
    (BrowserTools.page_url Z str Examples.quiet)
    (BrowserTools.viewportSize Z str Examples.quiet)
    (BrowserTools.mouse_click Z str Examples.quiet)
    (BrowserTools.mouse_move Z str Examples.quiet)
    (BrowserTools.mouse_down Z str Examples.quiet)
    (BrowserTools.mouse_up Z str Examples.quiet)
    (BrowserTools.mouse_wheel Z str Examples.quiet)
    (BrowserTools.keyboard_press Z str Examples.quiet)
    (BrowserTools.keyboard_type Z str Examples.quiet).

(** An informational entry and a serialization for the examples of the
    activity log: the message of the entry. *)
Definition info_entry (message : string) : BrowserLogger.Logged unit Z :=
  BrowserLogger.Activity unit Z
    (BrowserLogger.mkEntry unit Z (lit "2026-01-01T00:00:00.000Z")
       BrowserLogger.Info None None (Some (lit message)) None None).

Definition message_of (l : BrowserLogger.Logged unit Z) : str :=
  match l with
  | BrowserLogger.Activity _ _ e =>
      match BrowserLogger.result unit Z e with Some r => r | None => [] end
  | BrowserLogger.Turn _ _ t _ _ => t
  end.

(** [part] occurs in [whole]. *)
Definition occurs_in (part whole : str) : Prop :=
  exists before after, whole = before ++ part ++ after.

End Notions.

(** * Properties *)

Import Js.

(** ** Strings *)

Lemma ascii_eqb_true (a b : ascii) : Ascii.eqb a b = true <-> a = b.
Proof. apply Ascii.eqb_eq. Qed.

Lemma js_eqb_eq (a b : str) : Js.eqb a b = true <-> a = b.
Proof.
  revert b; induction a as [|x a IH]; intros [|y b]; simpl;
    try (split; [discriminate | discriminate]); try tauto.
  rewrite andb_true_iff, ascii_eqb_true, IH.
  split; [intros [-> ->]; reflexivity | intros H; inversion H; auto].
Qed.

Lemma startsWith_iff (s p : str) :
  startsWith s p = true <-> exists rest, s = p ++ rest.
Proof.
  revert s; induction p as [|x p IH]; intros s; simpl.
  - split; [intros _; exists s; reflexivity | reflexivity].
  - destruct s as [|y s].
    + split; [discriminate | intros [rest H]; discriminate].
    + rewrite andb_true_iff, ascii_eqb_true, IH. split.
      * intros [-> [rest ->]]. exists rest. reflexivity.
      * intros [rest H]. inversion H. split; [reflexivity | eauto].
Qed.

(** ** The confirmation protocol of [enter_plan_mode] *)

Lemma onConfirm_outcome (this : PlanMode.EnterPlanModeInvocation) o :
  PlanMode.confirmationOutcome (PlanMode.onConfirm this o) = Some o.
Proof. reflexivity. Qed.

Lemma fold_onConfirm_last (outcomes : list PlanMode.ToolConfirmationOutcome) :
  forall this o,
    PlanMode.confirmationOutcome
      (fold_left PlanMode.onConfirm (outcomes ++ [o]) this) = Some o.
Proof.
  induction outcomes as [|x l IH]; intros this o; simpl.
  - reflexivity.
  - apply IH.
Qed.

(** C1.  Once the pending confirmation of an invocation has been
    resolved with Cancel, whatever outcomes the callback received before,
    [execute] returns the cancellation result (display [Cancelled], a
    content that tells the user cancelled) and calls neither
    [setApprovalMode] nor [addPolicyRule]: the list of calls into the
    configuration is empty.  This holds for every parameter set, with or
    without a path. *)
Theorem execute_after_cancel :
  forall cwd config this outcomes,
    PlanMode.execute cwd config
      (fold_left PlanMode.onConfirm (outcomes ++ [PlanMode.Cancel]) this)
    = (Return (PlanMode.mkResult (lit "User cancelled entering Plan Mode.")
                 (lit "Cancelled")),
       []).
Proof.
  intros cwd config this outcomes.
  unfold PlanMode.execute.
  rewrite fold_onConfirm_last.
  reflexivity.
Qed.

(** C2.  For every invocation and every abort signal, the answer of
    [shouldConfirmExecute] is fixed by the decision that the message bus
    gives for the signal.  ALLOW: it resolves to false.  DENY: it throws
    the policy-denial error, naming the display name of the tool or,
    when that is empty, its name.  ASK_USER: it resolves to details of
    type [info], titled [Enter Plan Mode], with the prompt of the source
    and a callback that records the outcome it is given.  In none of the
    three cases is the configuration called: neither [setApprovalMode]
    nor [addPolicyRule]. *)
Theorem shouldConfirmExecute_by_decision :
  forall getMessageBusDecision this abortSignal decision,
    getMessageBusDecision abortSignal = Return decision ->
    (decision = PlanMode.ALLOW ->
     PlanMode.shouldConfirmExecute getMessageBusDecision this abortSignal
     = (Return PlanMode.NoConfirmation, []))
    /\ (decision = PlanMode.DENY ->
        PlanMode.shouldConfirmExecute getMessageBusDecision this abortSignal
        = (Throw (lit "Tool execution for " ++ [dquote]
                  ++ (if truthy (PlanMode._toolDisplayName this)
                      then PlanMode._toolDisplayName this
                      else PlanMode._toolName this)
                  ++ [dquote] ++ lit " denied by policy."),
           []))
    /\ (decision = PlanMode.ASK_USER ->
        exists d,
          PlanMode.shouldConfirmExecute getMessageBusDecision this abortSignal
          = (Return (PlanMode.Details d), [])
          /\ PlanMode.type d = lit "info"
          /\ PlanMode.title d = lit "Enter Plan Mode"
          /\ PlanMode.prompt d
             = lit "This will restrict the agent to read-only tools to allow for safe planning."
          /\ forall inv outcome,
               PlanMode.confirmationOutcome
                 (PlanMode.details_onConfirm d inv outcome) = Some outcome).
Proof.
  intros bus this abortSignal decision Hbus.
  unfold PlanMode.shouldConfirmExecute. rewrite Hbus.
  repeat apply conj; intros ->; try reflexivity.
  eexists. split; [reflexivity |].
  repeat split.
Qed.

Lemma shouldConfirmExecute_by_decision_witness :
  PlanMode.shouldConfirmExecute (fun _ => Return PlanMode.DENY)
    Examples.no_params (PlanMode.mkSignal false)
  = (Throw (lit "Tool execution for " ++ [dquote] ++ lit "Enter Plan Mode"
            ++ [dquote] ++ lit " denied by policy."),
     [])
  /\ PlanMode.shouldConfirmExecute (fun _ => Return PlanMode.ALLOW)
       Examples.no_params (PlanMode.mkSignal false)
     = (Return PlanMode.NoConfirmation, [])
  /\ exists d,
       PlanMode.shouldConfirmExecute (fun _ => Return PlanMode.ASK_USER)
         Examples.no_params (PlanMode.mkSignal true)
       = (Return (PlanMode.Details d), [])
       /\ PlanMode.title d = lit "Enter Plan Mode".
Proof.
  split; [| split].
  - exact (proj1 (proj2 (shouldConfirmExecute_by_decision
                           (fun _ => Return PlanMode.DENY)
                           Examples.no_params (PlanMode.mkSignal false)
                           PlanMode.DENY eq_refl)) eq_refl).
  - exact (proj1 (shouldConfirmExecute_by_decision
                    (fun _ => Return PlanMode.ALLOW)
                    Examples.no_params (PlanMode.mkSignal false)
                    PlanMode.ALLOW eq_refl) eq_refl).
  - destruct (proj2 (proj2 (shouldConfirmExecute_by_decision
                              (fun _ => Return PlanMode.ASK_USER)
                              Examples.no_params (PlanMode.mkSignal true)
                              PlanMode.ASK_USER eq_refl)) eq_refl)
      as (d & Hd & _ & Ht & _).
    exists d. split; assumption.
Defined.

(** ** Path validation in [execute] *)

(** C4, the claim as stated fails.  With a validation that refuses every
    path: a cancelled invocation returns the cancellation result, not the
    error result; an invocation whose path is the empty string is not
    validated at all and switches the mode.  With a validation that
    answers the empty string, the answer counts as no error: the rules
    are added and the mode is switched. *)
Lemma validation_error_not_always_reported :
  (PlanMode.validatePathAccess Examples.deny_all
     (NodePath.resolve Examples.root [lit "/app"; lit "/forbidden/path"])
   = Some (lit "Access denied")
   /\ PlanMode.execute Examples.root Examples.deny_all
        Examples.forbidden_cancelled
      = (Return PlanMode.cancelled, []))
  /\ (PlanMode.validatePathAccess Examples.deny_all
        (NodePath.resolve Examples.root [lit "/app"; []])
      = Some (lit "Access denied")
      /\ PlanMode.execute Examples.root Examples.deny_all Examples.empty_path
         = (Return (PlanMode.mkResult (lit "Switching to Plan mode.")
                      (lit "Switching to Plan mode")),
            [PlanMode.setApprovalMode PlanMode.PLAN]))
  /\ (PlanMode.validatePathAccess Examples.empty_error
        (NodePath.resolve Examples.root [lit "/app"; lit "/forbidden/path"])
      = Some []
      /\ fst (PlanMode.execute Examples.root Examples.empty_error
                Examples.forbidden)
         = Return (PlanMode.mkResult
                     (lit "Switching to Plan mode. Write access enabled for: /forbidden/path")
                     (lit "Switching to Plan mode (Allowed path: /forbidden/path)"))
      /\ In (PlanMode.setApprovalMode PlanMode.PLAN)
           (snd (PlanMode.execute Examples.root Examples.empty_error
                   Examples.forbidden))).
Proof.
  repeat split; try reflexivity.
  vm_compute. right. right. left. reflexivity.
Qed.

(** C4, amended.  When the confirmation was not cancelled, the path
    parameter is a non-empty string and the validation answers a
    non-empty error message for the resolved absolute path, [execute]
    returns, without throwing, the error result made of that message and
    of the display [Error: Invalid path], and calls neither
    [addPolicyRule] nor [setApprovalMode]. *)
Theorem validation_error_aborts :
  forall cwd config this p msg,
    PlanMode.confirmationOutcome this <> Some PlanMode.Cancel ->
    PlanMode.path (PlanMode.params this) = Some p ->
    p <> [] ->
    PlanMode.validatePathAccess config
      (NodePath.resolve cwd [PlanMode.getTargetDir config; p]) = Some msg ->
    msg <> [] ->
    PlanMode.execute cwd config this
    = (Return (PlanMode.mkResult (lit "Error: " ++ msg)
                 (lit "Error: Invalid path")),
       []).
Proof.
  intros cwd config this p msg Hc Hp Hne Hv Hm.
  unfold PlanMode.execute.
  assert (Hgrant : PlanMode.grant cwd config this p
                   = PlanMode.ret
                       (Some (PlanMode.mkResult (lit "Error: " ++ msg)
                                (lit "Error: Invalid path")))).
  { unfold PlanMode.grant. rewrite Hv.
    destruct msg as [|m msg']; [contradiction Hm; reflexivity |].
    reflexivity. }
  rewrite Hp.
  destruct p as [|c p']; [contradiction Hne; reflexivity |].
  cbn [truthy]. rewrite Hgrant.
  destruct (PlanMode.confirmationOutcome this) as [[| |]|];
    try reflexivity.
  contradiction Hc; reflexivity.
Qed.

Lemma validation_error_aborts_witness :
  PlanMode.execute Examples.root Examples.deny_all Examples.forbidden
  = (Return (PlanMode.mkResult (lit "Error: " ++ lit "Access denied")
               (lit "Error: Invalid path")),
     []).
Proof.
  apply (validation_error_aborts Examples.root Examples.deny_all
           Examples.forbidden (lit "/forbidden/path") (lit "Access denied")).
  - discriminate.
  - reflexivity.
  - discriminate.
  - reflexivity.
  - discriminate.
Defined.

(** ** The URL guard: blocked prefixes *)

Lemma lower_prefix_iff (prefix : str) :
  forall url,
    startsWith (toLowerCase url) (toLowerCase prefix) = true
    <-> Spec.starts_with_ci url prefix.
Proof.
  unfold Spec.starts_with_ci.
  induction prefix as [|c prefix IH]; intros url; simpl.
  - split; [intros _ | reflexivity].
    exists [], url. split; [reflexivity | constructor].
  - destruct url as [|x url]; simpl.
    + split; [discriminate |].
      intros (head & rest & Heq & HF). inversion HF; subst. discriminate.
    + rewrite andb_true_iff, IH. split.
      * intros [Hx (head & rest & -> & HF)].
        exists (x :: head), rest. split; [reflexivity |].
        constructor; [| exact HF].
        unfold Spec.same_letter. rewrite Ascii.eqb_sym. exact Hx.
      * intros (head & rest & Heq & HF).
        inversion HF as [|a b head' prefix' Hab HF' E1 E2]; subst.
        simpl in Heq. inversion Heq; subst. split.
        -- unfold Spec.same_letter in Hab. rewrite Ascii.eqb_sym. exact Hab.
        -- exists head', rest. split; [reflexivity | exact HF'].
Qed.

Lemma isBlockedUrl_iff (url : str) :
  BrowserSecurity.isBlockedUrl url = true
  <-> exists prefix,
        In prefix BrowserSecurity.BLOCKED_PATTERNS
        /\ Spec.starts_with_ci url prefix.
Proof.
  unfold BrowserSecurity.isBlockedUrl. rewrite existsb_exists.
  split; intros (prefix & Hin & H); exists prefix; split; auto;
    apply lower_prefix_iff; exact H.
Qed.

(** C5.  A URL that starts, case-insensitively, with one of the five
    blocked prefixes is refused by [isUrlAllowed] under every
    configuration, whatever patterns the user allows; in particular
    [file:///etc/passwd] is refused under every configuration. *)
Theorem blocked_prefix_always_rejected :
  (forall url config prefix,
      In prefix BrowserSecurity.BLOCKED_PATTERNS ->
      Spec.starts_with_ci url prefix ->
      BrowserSecurity.isUrlAllowed url config = Return false)
  /\ BrowserSecurity.BLOCKED_PATTERNS
     = [lit "file://"; lit "javascript:"; lit "data:text/html";
        lit "chrome://extensions"; lit "chrome://settings/passwords"]
  /\ forall config,
       BrowserSecurity.isUrlAllowed (lit "file:///etc/passwd") config
       = Return false.
Proof.
  split; [| split; [reflexivity | intros config; reflexivity]].
  intros url config prefix Hin Hci.
  unfold BrowserSecurity.isUrlAllowed.
  assert (Hb : BrowserSecurity.isBlockedUrl url = true)
    by (apply isBlockedUrl_iff; eauto).
  rewrite Hb. reflexivity.
Qed.

Lemma blocked_prefix_always_rejected_witness :
  BrowserSecurity.isUrlAllowed (lit "JavaScript:alert(1)")
    (BrowserSecurity.mkConfig (Some [lit "*"]))
  = Return false.
Proof.
  apply (proj1 blocked_prefix_always_rejected
           (lit "JavaScript:alert(1)")
           (BrowserSecurity.mkConfig (Some [lit "*"]))
           (lit "javascript:")).
  - simpl. right. left. reflexivity.
  - exists (lit "JavaScript:"), (lit "alert(1)").
    split; [reflexivity |].
    repeat constructor.
Defined.

(** ** Overlay diagnostics *)

(** C9.  [wasActionBlockedByOverlay] answers true exactly when an
    overlay is detected in the snapshot taken before and in the one taken
    after and the two detections carry the same [overlayInfo]; so it
    answers false whenever no overlay is detected in the snapshot taken
    after. *)
Theorem wasActionBlockedByOverlay_iff :
  forall beforeSnapshot afterSnapshot,
    (OverlayDetection.wasActionBlockedByOverlay beforeSnapshot afterSnapshot
     = true
     <-> OverlayDetection.hasOverlay
           (OverlayDetection.detectBlockingOverlays beforeSnapshot) = true
         /\ OverlayDetection.hasOverlay
              (OverlayDetection.detectBlockingOverlays afterSnapshot) = true
         /\ OverlayDetection.overlayInfo
              (OverlayDetection.detectBlockingOverlays beforeSnapshot)
            = OverlayDetection.overlayInfo
                (OverlayDetection.detectBlockingOverlays afterSnapshot))
    /\ (OverlayDetection.hasOverlay
          (OverlayDetection.detectBlockingOverlays afterSnapshot) = false ->
        OverlayDetection.wasActionBlockedByOverlay beforeSnapshot afterSnapshot
        = false).
Proof.
  intros b a. unfold OverlayDetection.wasActionBlockedByOverlay.
  generalize (OverlayDetection.detectBlockingOverlays b) as db.
  generalize (OverlayDetection.detectBlockingOverlays a) as da.
  intros da db.
  destruct (OverlayDetection.hasOverlay db), (OverlayDetection.hasOverlay da);
    simpl; split; try rewrite js_eqb_eq; try tauto;
    try (intros; discriminate); try reflexivity;
    split; try discriminate; intros (H1 & H2 & _); discriminate.
Qed.

Lemma wasActionBlockedByOverlay_iff_witness :
  OverlayDetection.wasActionBlockedByOverlay Examples.dialog_snapshot
    Examples.clean_snapshot = false.
Proof.
  apply (proj2 (wasActionBlockedByOverlay_iff Examples.dialog_snapshot
                  Examples.clean_snapshot)).
  vm_compute. reflexivity.
Defined.

(** ** The rate limiter *)

Local Open Scope Z_scope.

Lemma recordAction_window now (this : BrowserSecurity.ActionRateLimiter) :
  BrowserSecurity.recordAction now this
  = (fst (Window.record_in
            (BrowserSecurity.maxActionsPerMinute (BrowserSecurity.limits this))
            now (BrowserSecurity.actionTimestamps this)),
     BrowserSecurity.mkLimiter
       (snd (Window.record_in
               (BrowserSecurity.maxActionsPerMinute
                  (BrowserSecurity.limits this))
               now (BrowserSecurity.actionTimestamps this)))
       (BrowserSecurity.navigationTimestamps this)
       (BrowserSecurity.limits this)).
Proof.
  unfold BrowserSecurity.recordAction, Window.record_in.
  destruct (_ <=? _); reflexivity.
Qed.

Lemma recordNavigation_window now (this : BrowserSecurity.ActionRateLimiter) :
  BrowserSecurity.recordNavigation now this
  = (fst (Window.record_in
            (BrowserSecurity.maxNavigationsPerMinute
               (BrowserSecurity.limits this))
            now (BrowserSecurity.navigationTimestamps this)),
     BrowserSecurity.mkLimiter
       (BrowserSecurity.actionTimestamps this)
       (snd (Window.record_in
               (BrowserSecurity.maxNavigationsPerMinute
                  (BrowserSecurity.limits this))
               now (BrowserSecurity.navigationTimestamps this)))
       (BrowserSecurity.limits this)).
Proof.
  unfold BrowserSecurity.recordNavigation, Window.record_in.
  destruct (_ <=? _); reflexivity.
Qed.

Lemma calls_recordAction_window times :
  forall this : BrowserSecurity.ActionRateLimiter,
    BrowserSecurity.calls BrowserSecurity.recordAction times this
    = (fst (Window.run_in
              (BrowserSecurity.maxActionsPerMinute
                 (BrowserSecurity.limits this))
              times (BrowserSecurity.actionTimestamps this)),
       BrowserSecurity.mkLimiter
         (snd (Window.run_in
                 (BrowserSecurity.maxActionsPerMinute
                    (BrowserSecurity.limits this))
                 times (BrowserSecurity.actionTimestamps this)))
         (BrowserSecurity.navigationTimestamps this)
         (BrowserSecurity.limits this)).
Proof.
  induction times as [|now rest IH]; intros this.
  - destruct this; reflexivity.
  - cbn [BrowserSecurity.calls Window.run_in].
    rewrite recordAction_window, IH. cbn.
    destruct (Window.record_in _ now _) as [ok ts']. cbn [fst snd].
    destruct (Window.run_in _ rest ts') as [oks ts'']. reflexivity.
Qed.

Lemma calls_recordNavigation_window times :
  forall this : BrowserSecurity.ActionRateLimiter,
    BrowserSecurity.calls BrowserSecurity.recordNavigation times this
    = (fst (Window.run_in
              (BrowserSecurity.maxNavigationsPerMinute
                 (BrowserSecurity.limits this))
              times (BrowserSecurity.navigationTimestamps this)),
       BrowserSecurity.mkLimiter
         (BrowserSecurity.actionTimestamps this)
         (snd (Window.run_in
                 (BrowserSecurity.maxNavigationsPerMinute
                    (BrowserSecurity.limits this))
                 times (BrowserSecurity.navigationTimestamps this)))
         (BrowserSecurity.limits this)).
Proof.
  induction times as [|now rest IH]; intros this.
  - destruct this; reflexivity.
  - cbn [BrowserSecurity.calls Window.run_in].
    rewrite recordNavigation_window, IH. cbn.
    destruct (Window.record_in _ now _) as [ok ts']. cbn [fst snd].
    destruct (Window.run_in _ rest ts') as [oks ts'']. reflexivity.
Qed.

Section SlidingWindow.

Variable limit : Z.

Lemma filter_young_all now ts :
  Forall (fun t => now - 60000 < t) ts -> filter (Window.young now) ts = ts.
Proof.
  induction 1 as [|t ts Ht _ IH]; simpl; [reflexivity |].
  unfold Window.young at 1. destruct (Z.ltb_spec (now - 60000) t); [| lia].
  rewrite IH. reflexivity.
Qed.

Lemma filter_young_sound now ts :
  Forall (fun t => now - 60000 < t) (filter (Window.young now) ts).
Proof.
  apply Forall_forall. intros t Hin. apply filter_In in Hin.
  destruct Hin as [_ H]. unfold Window.young in H. apply Z.ltb_lt in H. exact H.
Qed.

Lemma record_in_pruned now ts :
  Forall (fun t => now - 60000 < t) (snd (Window.record_in limit now ts)).
Proof.
  unfold Window.record_in. fold (Window.young now).
  pose proof (filter_young_sound now ts) as H.
  destruct (_ <=? _); simpl.
  - exact H.
  - apply Forall_app. split; [exact H |].
    constructor; [lia | constructor].
Qed.

(** A rejected call leaves the pruned window, with nothing appended. *)
Lemma record_in_rejected now ts :
  fst (Window.record_in limit now ts) = false ->
  snd (Window.record_in limit now ts) = filter (Window.young now) ts.
Proof.
  unfold Window.record_in. fold (Window.young now).
  destruct (_ <=? _); simpl; [reflexivity | discriminate].
Qed.

(** The calls of a run that all succeed, at moments within the minute
    before [t], stay in the window, behind what was Window.young in it. *)
Lemma run_in_accumulates t times :
  forall ts0 Y,
    Forall (fun ti => ti <= t /\ t - 60000 < ti) times ->
    Forall (fun y => t - 60000 < y) Y ->
    fst (Window.run_in limit times (ts0 ++ Y))
    = repeat true (List.length times) ->
    exists pre,
      snd (Window.run_in limit times (ts0 ++ Y)) = pre ++ Y ++ times
      /\ (times <> [] ->
          Z.of_nat (List.length
                      (snd (Window.run_in limit times (ts0 ++ Y))))
          <= limit).
Proof.
  induction times as [|t1 rest IH]; intros ts0 Y Ht HY Hok.
  - exists ts0. simpl. rewrite app_nil_r. split; [reflexivity | congruence].
  - inversion Ht as [|? ? [Hle Hin] Hrest]; subst.
    cbn [Window.run_in] in *.
    unfold Window.record_in in *. fold (Window.young t1) in *.
    rewrite filter_app in *.
    assert (HYk : filter (Window.young t1) Y = Y).
    { apply filter_young_all. eapply Forall_impl; [| exact HY].
      cbn. intros; lia. }
    rewrite HYk in *.
    destruct (limit <=? _) eqn:Hlim.
    + exfalso.
      destruct (Window.run_in limit rest _) as [oks ts'']. discriminate.
    + rewrite <- app_assoc in *.
      specialize (IH (filter (Window.young t1) ts0) (Y ++ [t1]) Hrest).
      destruct (Window.run_in limit rest
                  (filter (Window.young t1) ts0 ++ Y ++ [t1])) as [oks ts'']
        eqn:Hrun.
      cbn [fst snd] in *.
      assert (HY' : Forall (fun y => t - 60000 < y) (Y ++ [t1])).
      { apply Forall_app. split; [exact HY |].
        constructor; [exact Hin | constructor]. }
      assert (Hoks : oks = repeat true (List.length rest)).
      { cbn in Hok. inversion Hok. reflexivity. }
      destruct (IH HY' Hoks) as (pre & Hts & Hlen).
      exists pre. split.
      * rewrite Hts, <- app_assoc. reflexivity.
      * intros _. destruct rest as [|t2 rest'].
        -- cbn in Hrun. inversion Hrun; subst ts''.
           apply Z.leb_gt in Hlim.
           rewrite !length_app in *. cbn [List.length] in *. lia.
        -- apply Hlen. discriminate.
Qed.

(** After as many successful calls as the limit allows, all within the
    minute before [t], the window holds exactly their moments. *)
Lemma run_in_full t times ts0 :
  Forall (fun ti => ti <= t /\ t - 60000 < ti) times ->
  Z.of_nat (List.length times) = limit ->
  fst (Window.run_in limit times ts0) = repeat true (List.length times) ->
  times <> [] ->
  snd (Window.run_in limit times ts0) = times.
Proof.
  intros Ht HN Hok Hne.
  destruct (run_in_accumulates t times ts0 [] Ht (Forall_nil _)) as
    (pre & Hts & Hlen).
  { rewrite app_nil_r. exact Hok. }
  rewrite app_nil_r in *. cbn [app] in Hts.
  specialize (Hlen Hne). rewrite Hts in Hlen |- *.
  rewrite length_app in Hlen.
  destruct pre as [|x pre']; [reflexivity |].
  cbn [List.length] in Hlen. lia.
Qed.

(** The next call within that minute is rejected and changes nothing. *)
Lemma record_in_full_rejected t times :
  Forall (fun ti => ti <= t /\ t - 60000 < ti) times ->
  Z.of_nat (List.length times) = limit ->
  Window.record_in limit t times = (false, times).
Proof.
  intros Ht HN. unfold Window.record_in. fold (Window.young t).
  rewrite filter_young_all.
  - destruct (Z.leb_spec limit (Z.of_nat (List.length times)));
      [reflexivity | lia].
  - eapply Forall_impl; [| exact Ht]. cbn. intros a [_ H]. exact H.
Qed.

(** Once the first of them is more than a minute old, a call succeeds. *)
Lemma record_in_after_minute first rest t' :
  Z.of_nat (List.length (first :: rest)) = limit ->
  first + 60000 < t' ->
  fst (Window.record_in limit t' (first :: rest)) = true.
Proof.
  intros HN Hlate. unfold Window.record_in. fold (Window.young t').
  cbn [filter]. unfold Window.young at 1.
  destruct (Z.ltb_spec (t' - 60000) first); [lia |].
  pose proof (filter_length_le (Window.young t') rest) as Hle.
  cbn [List.length] in HN.
  destruct (Z.leb_spec limit
              (Z.of_nat (List.length (filter (Window.young t') rest))));
    [lia | reflexivity].
Qed.

End SlidingWindow.

(** What the three parts of the claim say of one window: after the
    successful calls at [times], as many as the limit, all within the
    minute before [t], the call at [t] is rejected and leaves the pruned
    window; and a call later than a minute after the first succeeds. *)
Lemma window_limit limit t times ts0 :
  Forall (fun ti => ti <= t /\ t - 60000 < ti) times ->
  Z.of_nat (List.length times) = limit ->
  fst (Window.run_in limit times ts0) = repeat true (List.length times) ->
  let full := snd (Window.run_in limit times ts0) in
  fst (Window.record_in limit t full) = false
  /\ snd (Window.record_in limit t full) = filter (Window.young t) full
  /\ forall t',
       (exists first rest, times = first :: rest /\ first + 60000 < t') ->
       fst (Window.record_in limit t' (snd (Window.record_in limit t full)))
       = true.
Proof.
  intros Ht HN Hok full.
  destruct times as [|first rest].
  - assert (Hrej : fst (Window.record_in limit t full) = false).
    { unfold Window.record_in. cbn [List.length] in HN.
      destruct (Z.leb_spec limit
                  (Z.of_nat (List.length
                               (filter (fun t0 => t - 60000 <? t0) full))));
        [reflexivity | lia]. }
    split; [exact Hrej | split].
    + apply record_in_rejected. exact Hrej.
    + intros t' (f & r & H & _). discriminate.
  - assert (Hfull : full = first :: rest).
    { apply (run_in_full limit t); auto. discriminate. }
    rewrite Hfull.
    rewrite (record_in_full_rejected limit t (first :: rest) Ht HN).
    cbn [fst snd]. split; [reflexivity | split].
    + symmetry. apply filter_young_all.
      eapply Forall_impl; [| exact Ht]. cbn. intros a [_ H]. exact H.
    + intros t' (f & r & H & Hlate). inversion H; subst f r.
      apply record_in_after_minute; assumption.
Qed.

(** C7.  Take a limiter, in any state, and a run of calls of
    [recordAction] that all succeed, as many as the action limit, at
    moments that all lie within the minute before a moment [t].  Then
    the next call, at [t], returns false and appends nothing: the window
    it leaves is the pruned window.  After that, a call made more than
    60 seconds after the first of the recorded calls returns true.  The
    same holds for [recordNavigation] with the navigation limit.  Every
    call prunes the window it checks: no time stamp left in it is 60
    seconds old or older; and it leaves the other window alone. *)
Theorem rate_limit_window :
  forall (this : BrowserSecurity.ActionRateLimiter) (times : list Z) (t : Z),
    Forall (fun ti => ti <= t /\ t - 60000 < ti) times ->
    (Z.of_nat (List.length times)
     = BrowserSecurity.maxActionsPerMinute (BrowserSecurity.limits this) ->
     fst (BrowserSecurity.calls BrowserSecurity.recordAction times this)
     = repeat true (List.length times) ->
     let full :=
       snd (BrowserSecurity.calls BrowserSecurity.recordAction times this) in
     fst (BrowserSecurity.recordAction t full) = false
     /\ BrowserSecurity.actionTimestamps
          (snd (BrowserSecurity.recordAction t full))
        = filter (fun x => t - 60000 <? x)
            (BrowserSecurity.actionTimestamps full)
     /\ forall t',
          (exists first rest, times = first :: rest /\ first + 60000 < t') ->
          fst (BrowserSecurity.recordAction t'
                 (snd (BrowserSecurity.recordAction t full))) = true)
    /\ (Z.of_nat (List.length times)
        = BrowserSecurity.maxNavigationsPerMinute
            (BrowserSecurity.limits this) ->
        fst (BrowserSecurity.calls BrowserSecurity.recordNavigation times this)
        = repeat true (List.length times) ->
        let full :=
          snd (BrowserSecurity.calls BrowserSecurity.recordNavigation
                 times this) in
        fst (BrowserSecurity.recordNavigation t full) = false
        /\ BrowserSecurity.navigationTimestamps
             (snd (BrowserSecurity.recordNavigation t full))
           = filter (fun x => t - 60000 <? x)
               (BrowserSecurity.navigationTimestamps full)
        /\ forall t',
             (exists first rest,
                 times = first :: rest /\ first + 60000 < t') ->
             fst (BrowserSecurity.recordNavigation t'
                    (snd (BrowserSecurity.recordNavigation t full))) = true)
    /\ (Forall (fun x => t - 60000 < x)
          (BrowserSecurity.actionTimestamps
             (snd (BrowserSecurity.recordAction t this)))
        /\ BrowserSecurity.navigationTimestamps
             (snd (BrowserSecurity.recordAction t this))
           = BrowserSecurity.navigationTimestamps this)
    /\ (Forall (fun x => t - 60000 < x)
          (BrowserSecurity.navigationTimestamps
             (snd (BrowserSecurity.recordNavigation t this)))
        /\ BrowserSecurity.actionTimestamps
             (snd (BrowserSecurity.recordNavigation t this))
           = BrowserSecurity.actionTimestamps this).
Proof.
  intros this times t Ht. repeat apply conj.
  - intros HN Hok full. subst full.
    rewrite calls_recordAction_window in *. cbn [fst snd] in *.
    destruct (window_limit _ t times _ Ht HN Hok) as (A & B & C).
    rewrite !recordAction_window.
    cbn [fst snd BrowserSecurity.actionTimestamps
           BrowserSecurity.navigationTimestamps BrowserSecurity.limits].
    split; [exact A | split; [exact B |]].
    intros t' H. rewrite recordAction_window.
    cbn [fst snd BrowserSecurity.actionTimestamps
           BrowserSecurity.navigationTimestamps BrowserSecurity.limits].
    apply C. exact H.
  - intros HN Hok full. subst full.
    rewrite calls_recordNavigation_window in *. cbn [fst snd] in *.
    destruct (window_limit _ t times _ Ht HN Hok) as (A & B & C).
    rewrite !recordNavigation_window.
    cbn [fst snd BrowserSecurity.actionTimestamps
           BrowserSecurity.navigationTimestamps BrowserSecurity.limits].
    split; [exact A | split; [exact B |]].
    intros t' H. rewrite recordNavigation_window.
    cbn [fst snd BrowserSecurity.actionTimestamps
           BrowserSecurity.navigationTimestamps BrowserSecurity.limits].
    apply C. exact H.
  - rewrite recordAction_window. cbn. apply record_in_pruned.
  - rewrite recordAction_window. reflexivity.
  - rewrite recordNavigation_window. cbn. apply record_in_pruned.
  - rewrite recordNavigation_window. reflexivity.
Qed.

Lemma rate_limit_window_witness :
  fst (BrowserSecurity.recordAction 2
         (snd (BrowserSecurity.calls BrowserSecurity.recordAction [0; 1]
                 Examples.two_a_minute))) = false
  /\ fst (BrowserSecurity.recordAction 60001
            (snd (BrowserSecurity.recordAction 2
                    (snd (BrowserSecurity.calls BrowserSecurity.recordAction
                            [0; 1] Examples.two_a_minute))))) = true
  /\ fst (BrowserSecurity.recordNavigation 2
            (snd (BrowserSecurity.calls BrowserSecurity.recordNavigation [1]
                    Examples.two_a_minute))) = false.
Proof.
  assert (H2 : Forall (fun ti => ti <= 2 /\ 2 - 60000 < ti) [0; 1])
    by (repeat constructor; lia).
  assert (H1 : Forall (fun ti => ti <= 2 /\ 2 - 60000 < ti) [1])
    by (repeat constructor; lia).
  pose proof (proj1 (rate_limit_window Examples.two_a_minute [0; 1] 2 H2)
                eq_refl eq_refl) as (Ha & _ & Hb).
  pose proof (proj1 (proj2
                       (rate_limit_window Examples.two_a_minute [1] 2 H1))
                eq_refl eq_refl) as (Hc & _).
  split; [exact Ha | split; [| exact Hc]].
  apply Hb. exists 0, [1]. split; [reflexivity | lia].
Defined.

Local Close Scope Z_scope.

(** ** The browser action primitives *)

(** C8, the claim as stated fails.  When [page.goto] throws, [navigate]
    does not return a result that carries the error: the error leaves
    [navigate] as a thrown error. *)
Lemma navigate_raises_goto_failure :
  BrowserTools.navigate Z str Examples.offline (lit "https://example.com")
    (lit "about:blank")
  = Throw (lit "net::ERR_INTERNET_DISCONNECTED").
Proof. reflexivity. Qed.

Section InjectedFailures.

Variable num : Type.
Variable scale : num -> num -> num.
Variable negate : num -> num.
Variable zero : num.
Variable show : num -> str.
Variable Page : Type.
Variable driver : BrowserTools.Driver num Page.

(** *** A driver made to fail *)

Variable broken : Notions.DriverCall num -> Page -> bool.
Variable e0 : str.

Let hurt : BrowserTools.Driver num Page := Notions.failing broken e0 driver.

Lemma hurt_bind {A B : Type} (m' m : BrowserTools.Async Page A)
    (f' f : A -> BrowserTools.Async Page B) :
  Notions.unaffected_or_thrown e0 m' m ->
  (forall a, Notions.unaffected_or_thrown e0 (f' a) (f a)) ->
  Notions.unaffected_or_thrown e0
    (BrowserTools.bind Page m' f') (BrowserTools.bind Page m f).
Proof.
  intros Hm Hf p. unfold BrowserTools.bind.
  destruct (Hm p) as [-> | ->]; [| right; reflexivity].
  destruct (m p) as [[a p1] | e]; [apply Hf | left; reflexivity].
Qed.

Lemma hurt_ret {A : Type} (a : A) :
  Notions.unaffected_or_thrown e0
    (BrowserTools.ret Page a) (BrowserTools.ret Page a).
Proof. intros p. left. reflexivity. Qed.

Lemma hurt_await (op' op : Page -> completion Page) :
  (forall p, op' p = op p \/ op' p = Throw e0) ->
  Notions.unaffected_or_thrown e0
    (BrowserTools.await Page op') (BrowserTools.await Page op).
Proof.
  intros H p. unfold BrowserTools.await.
  destruct (H p) as [-> | ->]; [left | right]; reflexivity.
Qed.

Lemma hurt_evaluate (script : BrowserTools.Script num) :
  Notions.unaffected_or_thrown e0
    (BrowserTools.evaluate num Page hurt script)
    (BrowserTools.evaluate num Page driver script).
Proof.
  intros p. unfold hurt, Notions.failing. cbn [BrowserTools.evaluate].
  destruct (broken _ p); [right | left]; reflexivity.
Qed.

Lemma hurt_getViewportSize :
  Notions.unaffected_or_thrown e0
    (BrowserTools.getViewportSize num Page hurt)
    (BrowserTools.getViewportSize num Page driver).
Proof.
  intros p. unfold BrowserTools.getViewportSize. cbv zeta.
  change (BrowserTools.viewportSize num Page hurt p)
    with (BrowserTools.viewportSize num Page driver p).
  change (BrowserTools.truthy_value num Page hurt)
    with (BrowserTools.truthy_value num Page driver).
  destruct (BrowserTools.truthy_value num Page driver _);
    [left; reflexivity | apply hurt_evaluate].
Qed.

Lemma hurt_current_url :
  Notions.unaffected_or_thrown e0
    (BrowserTools.current_url num Page hurt)
    (BrowserTools.current_url num Page driver).
Proof. intros p. left. reflexivity. Qed.

Ltac hurt_call :=
  intros ?; unfold hurt, Notions.failing;
  cbn [BrowserTools.getPage BrowserTools.goto BrowserTools.mouse_click
         BrowserTools.mouse_move BrowserTools.mouse_down
         BrowserTools.mouse_up BrowserTools.mouse_wheel
         BrowserTools.keyboard_press BrowserTools.keyboard_type];
  match goal with
  | |- (if ?b then _ else _) = _ \/ _ => destruct b
  end; [right | left]; reflexivity.

Ltac hurt_step :=
  first
    [ apply hurt_ret
    | apply hurt_current_url
    | apply hurt_getViewportSize
    | apply hurt_evaluate
    | apply hurt_await; hurt_call
    | apply hurt_bind; [| intros ?]
    | match goal with
      | |- Notions.unaffected_or_thrown _
             (if ?b then _ else _) (if ?b then _ else _) => destruct b
      end ].

Ltac hurt_all :=
  unfold BrowserTools.navigate, BrowserTools.clickAt, BrowserTools.typeTextAt,
    BrowserTools.scrollDocument, BrowserTools.dragAndDrop,
    BrowserTools.pagedown, BrowserTools.pageup, BrowserTools.keyCombination,
    BrowserTools.openWebBrowser, BrowserTools.showOverlay,
    BrowserTools.moveMouse, BrowserTools.showScrollIndicator,
    BrowserTools.animateClick, BrowserTools.getElementLabel,
    BrowserTools.ok, BrowserTools.viewport_not_available;
  cbv zeta;
  change (BrowserTools.truthy_value num Page hurt)
    with (BrowserTools.truthy_value num Page driver);
  change (BrowserTools.text_of num Page hurt)
    with (BrowserTools.text_of num Page driver);
  change (BrowserTools.width_of num Page hurt)
    with (BrowserTools.width_of num Page driver);
  change (BrowserTools.height_of num Page hurt)
    with (BrowserTools.height_of num Page driver);
  repeat hurt_step.

Lemma hurt_navigate target :
  Notions.unaffected_or_thrown e0
    (BrowserTools.navigate num Page hurt target)
    (BrowserTools.navigate num Page driver target).
Proof. hurt_all. Qed.

Lemma hurt_clickAt x y :
  Notions.unaffected_or_thrown e0
    (BrowserTools.clickAt num scale show Page hurt x y)
    (BrowserTools.clickAt num scale show Page driver x y).
Proof. hurt_all. Qed.

Lemma hurt_typeTextAt x y text pressEnter clearBeforeTyping :
  Notions.unaffected_or_thrown e0
    (BrowserTools.typeTextAt num scale show Page hurt x y text
       pressEnter clearBeforeTyping)
    (BrowserTools.typeTextAt num scale show Page driver x y text
       pressEnter clearBeforeTyping).
Proof. hurt_all. Qed.

Lemma hurt_scrollDocument direction amount :
  Notions.unaffected_or_thrown e0
    (BrowserTools.scrollDocument num negate zero show Page hurt
       direction amount)
    (BrowserTools.scrollDocument num negate zero show Page driver
       direction amount).
Proof. hurt_all. Qed.

Lemma hurt_dragAndDrop x y destX destY :
  Notions.unaffected_or_thrown e0
    (BrowserTools.dragAndDrop num scale show Page hurt x y destX destY)
    (BrowserTools.dragAndDrop num scale show Page driver x y destX destY).
Proof. hurt_all. Qed.

Lemma hurt_keys keys :
  Notions.unaffected_or_thrown e0
    (BrowserTools.pagedown num Page hurt)
    (BrowserTools.pagedown num Page driver)
  /\ Notions.unaffected_or_thrown e0
       (BrowserTools.pageup num Page hurt)
       (BrowserTools.pageup num Page driver)
  /\ Notions.unaffected_or_thrown e0
       (BrowserTools.keyCombination num Page hurt keys)
       (BrowserTools.keyCombination num Page driver keys)
  /\ Notions.unaffected_or_thrown e0
       (BrowserTools.openWebBrowser num Page hurt)
       (BrowserTools.openWebBrowser num Page driver).
Proof. repeat apply conj; hurt_all. Qed.

End InjectedFailures.

Section ActionPrimitives.

Variable num : Type.
Variable scale : num -> num -> num.
Variable negate : num -> num.
Variable zero : num.
Variable show : num -> str.
Variable Page : Type.
Variable driver : BrowserTools.Driver num Page.

Let unavailable (p : Page) : completion (BrowserTools.ToolResult * Page) :=
  Return (BrowserTools.mkResult None (Some (lit "Viewport not available"))
            (Some (BrowserTools.page_url num Page driver p)),
          p).

Lemma getViewportSize_unavailable p v p' :
  BrowserTools.truthy_value num Page driver
    (BrowserTools.viewportSize num Page driver p) = false ->
  BrowserTools.evaluate num Page driver (BrowserTools.WindowSize num) p
  = Return (v, p') ->
  BrowserTools.getViewportSize num Page driver p = Return (v, p').
Proof.
  intros Hv He. unfold BrowserTools.getViewportSize. cbv zeta.
  rewrite Hv. exact He.
Qed.

(** *** Results without an error *)

Lemma no_error_bind {A : Type} (m : BrowserTools.Async Page A)
    (f : A -> BrowserTools.Async Page BrowserTools.ToolResult) :
  (forall a, Notions.returns_no_error (f a)) ->
  Notions.returns_no_error (BrowserTools.bind Page m f).
Proof.
  intros Hf p result p' H. unfold BrowserTools.bind in H.
  destruct (m p) as [[a p1] | e]; [| discriminate].
  exact (Hf a p1 result p' H).
Qed.

Lemma no_error_ok (out : str) :
  Notions.returns_no_error (BrowserTools.ok num Page driver out).
Proof.
  intros p result p' H. cbv in H. injection H as <- <-. reflexivity.
Qed.

Lemma no_error_is_no_viewport_error
    (action : BrowserTools.Async Page BrowserTools.ToolResult) :
  Notions.returns_no_error action ->
  Notions.errs_only_without_viewport driver action.
Proof. intros H p result p' Hr. left. exact (H p result p' Hr). Qed.

Lemma viewport_error_bind {A : Type} (m : BrowserTools.Async Page A)
    (f : A -> BrowserTools.Async Page BrowserTools.ToolResult) :
  (forall a, Notions.errs_only_without_viewport driver (f a)) ->
  Notions.errs_only_without_viewport driver (BrowserTools.bind Page m f).
Proof.
  intros Hf p result p' H. unfold BrowserTools.bind in H.
  destruct (m p) as [[a p1] | e]; [| discriminate].
  exact (Hf a p1 result p' H).
Qed.

(** The test of the viewport: the error is returned on the falsy value
    that [getViewportSize] answered. *)
Lemma viewport_guard
    (f : BrowserTools.Value num Page driver
         -> BrowserTools.Async Page BrowserTools.ToolResult) :
  (forall v, Notions.returns_no_error (f v)) ->
  Notions.errs_only_without_viewport driver
    (BrowserTools.bind Page (BrowserTools.getViewportSize num Page driver)
       (fun viewport =>
          if BrowserTools.truthy_value num Page driver viewport
          then f viewport
          else BrowserTools.viewport_not_available num Page driver)).
Proof.
  intros Hf p result p' H. unfold BrowserTools.bind in H.
  destruct (BrowserTools.getViewportSize num Page driver p)
    as [[v p1] | e] eqn:E; [| discriminate].
  destruct (BrowserTools.truthy_value num Page driver v) eqn:T.
  - left. exact (Hf v p1 result p' H).
  - right. cbv in H. injection H as <- <-.
    split; [reflexivity |]. exists p, v. split; assumption.
Qed.

Ltac no_error :=
  cbv zeta;
  repeat first
    [ apply no_error_ok
    | apply no_error_bind; intros ? ].

(** C8, amended.  The primitives do not catch what the driver throws.
    An error thrown by [browserManager.getPage] leaves each of the nine
    primitives as a thrown error, and so does an error thrown by
    [page.goto] in [navigate].  More generally, whichever calls of the
    driver are made to throw an error, on whichever pages, each primitive
    ends as it does without those failures or throws that error: a
    failure of the driver never becomes a result.  The one failure that
    is returned as a result is a viewport that is not available:
    [clickAt], [typeTextAt] and [dragAndDrop] then return the error
    [Viewport not available] with the URL of the page; no other result of
    these three carries an error, and no result of the six other
    primitives does. *)
Theorem driver_failures_propagate :
  (forall p e,
      BrowserTools.getPage num Page driver p = Throw e ->
      (forall target, BrowserTools.navigate num Page driver target p = Throw e)
      /\ (forall x y,
             BrowserTools.clickAt num scale show Page driver x y p = Throw e)
      /\ (forall x y text enter clear,
             BrowserTools.typeTextAt num scale show Page driver x y text
               enter clear p = Throw e)
      /\ (forall direction amount,
             BrowserTools.scrollDocument num negate zero show Page driver
               direction amount p = Throw e)
      /\ (forall x y destX destY,
             BrowserTools.dragAndDrop num scale show Page driver x y
               destX destY p = Throw e)
      /\ BrowserTools.pagedown num Page driver p = Throw e
      /\ BrowserTools.pageup num Page driver p = Throw e
      /\ (forall keys,
             BrowserTools.keyCombination num Page driver keys p = Throw e)
      /\ BrowserTools.openWebBrowser num Page driver p = Throw e)
  /\ (forall target p p1 v p2 e,
         BrowserTools.getPage num Page driver p = Return p1 ->
         BrowserTools.evaluate num Page driver
           (BrowserTools.ShowOverlay num (lit "Navigating to " ++ target)) p1
         = Return (v, p2) ->
         BrowserTools.goto num Page driver target p2 = Throw e ->
         BrowserTools.navigate num Page driver target p = Throw e)
  /\ (forall broken e,
         let hurt := Notions.failing broken e driver in
         (forall target,
             Notions.unaffected_or_thrown e
               (BrowserTools.navigate num Page hurt target)
               (BrowserTools.navigate num Page driver target))
         /\ (forall x y,
                Notions.unaffected_or_thrown e
                  (BrowserTools.clickAt num scale show Page hurt x y)
                  (BrowserTools.clickAt num scale show Page driver x y))
         /\ (forall x y text enter clear,
                Notions.unaffected_or_thrown e
                  (BrowserTools.typeTextAt num scale show Page hurt x y
                     text enter clear)
                  (BrowserTools.typeTextAt num scale show Page driver x y
                     text enter clear))
         /\ (forall direction amount,
                Notions.unaffected_or_thrown e
                  (BrowserTools.scrollDocument num negate zero show Page
                     hurt direction amount)
                  (BrowserTools.scrollDocument num negate zero show Page
                     driver direction amount))
         /\ (forall x y destX destY,
                Notions.unaffected_or_thrown e
                  (BrowserTools.dragAndDrop num scale show Page hurt x y
                     destX destY)
                  (BrowserTools.dragAndDrop num scale show Page driver x y
                     destX destY))
         /\ Notions.unaffected_or_thrown e
              (BrowserTools.pagedown num Page hurt)
              (BrowserTools.pagedown num Page driver)
         /\ Notions.unaffected_or_thrown e
              (BrowserTools.pageup num Page hurt)
              (BrowserTools.pageup num Page driver)
         /\ (forall keys,
                Notions.unaffected_or_thrown e
                  (BrowserTools.keyCombination num Page hurt keys)
                  (BrowserTools.keyCombination num Page driver keys))
         /\ Notions.unaffected_or_thrown e
              (BrowserTools.openWebBrowser num Page hurt)
              (BrowserTools.openWebBrowser num Page driver))
  /\ ((forall target,
          Notions.returns_no_error
            (BrowserTools.navigate num Page driver target))
      /\ (forall direction amount,
             Notions.returns_no_error
               (BrowserTools.scrollDocument num negate zero show Page driver
                  direction amount))
      /\ Notions.returns_no_error (BrowserTools.pagedown num Page driver)
      /\ Notions.returns_no_error (BrowserTools.pageup num Page driver)
      /\ (forall keys,
             Notions.returns_no_error
               (BrowserTools.keyCombination num Page driver keys))
      /\ Notions.returns_no_error (BrowserTools.openWebBrowser num Page driver)
      /\ (forall x y,
             Notions.errs_only_without_viewport driver
               (BrowserTools.clickAt num scale show Page driver x y))
      /\ (forall x y text enter clear,
             Notions.errs_only_without_viewport driver
               (BrowserTools.typeTextAt num scale show Page driver x y text
                  enter clear))
      /\ (forall x y destX destY,
             Notions.errs_only_without_viewport driver
               (BrowserTools.dragAndDrop num scale show Page driver x y
                  destX destY)))
  /\ (forall p p1 v p2,
         BrowserTools.getPage num Page driver p = Return p1 ->
         BrowserTools.truthy_value num Page driver
           (BrowserTools.viewportSize num Page driver p1) = false ->
         BrowserTools.evaluate num Page driver (BrowserTools.WindowSize num) p1
         = Return (v, p2) ->
         BrowserTools.truthy_value num Page driver v = false ->
         (forall x y,
             BrowserTools.clickAt num scale show Page driver x y p
             = unavailable p2)
         /\ (forall x y text enter clear,
                BrowserTools.typeTextAt num scale show Page driver x y text
                  enter clear p = unavailable p2))
  /\ (forall x y destX destY p p1 v0 p2 v p3,
         BrowserTools.getPage num Page driver p = Return p1 ->
         BrowserTools.evaluate num Page driver
           (BrowserTools.ShowOverlay num
              (lit "Dragging from "
               ++ show x ++ lit "," ++ show y ++ lit " to "
               ++ show destX ++ lit "," ++ show destY)) p1
         = Return (v0, p2) ->
         BrowserTools.truthy_value num Page driver
           (BrowserTools.viewportSize num Page driver p2) = false ->
         BrowserTools.evaluate num Page driver (BrowserTools.WindowSize num) p2
         = Return (v, p3) ->
         BrowserTools.truthy_value num Page driver v = false ->
         BrowserTools.dragAndDrop num scale show Page driver x y destX destY p
         = unavailable p3).
Proof.
  repeat apply conj.
  - intros p e H. unfold BrowserTools.navigate, BrowserTools.clickAt,
      BrowserTools.typeTextAt, BrowserTools.scrollDocument,
      BrowserTools.dragAndDrop, BrowserTools.pagedown, BrowserTools.pageup,
      BrowserTools.keyCombination, BrowserTools.openWebBrowser,
      BrowserTools.bind, BrowserTools.await.
    rewrite H. repeat split.
  - intros target p p1 v p2 e Hg Hs Ht.
    unfold BrowserTools.navigate, BrowserTools.showOverlay,
      BrowserTools.bind, BrowserTools.await, BrowserTools.ret.
    rewrite Hg, Hs, Ht. reflexivity.
  - intros broken e hurt. subst hurt.
    pose proof (hurt_keys num Page driver broken e) as Hk.
    repeat apply conj; intros.
    + apply hurt_navigate.
    + apply hurt_clickAt.
    + apply hurt_typeTextAt.
    + apply hurt_scrollDocument.
    + apply hurt_dragAndDrop.
    + apply (Hk []).
    + apply (Hk []).
    + apply (Hk keys).
    + apply (Hk []).
  - intros target. unfold BrowserTools.navigate. no_error.
  - intros direction amount. unfold BrowserTools.scrollDocument. no_error.
  - unfold BrowserTools.pagedown. no_error.
  - unfold BrowserTools.pageup. no_error.
  - intros keys. unfold BrowserTools.keyCombination. no_error.
  - unfold BrowserTools.openWebBrowser. no_error.
  - intros x y. unfold BrowserTools.clickAt. cbv zeta.
    apply viewport_error_bind. intros _. apply viewport_guard.
    intros v. no_error.
  - intros x y text enter clear. unfold BrowserTools.typeTextAt. cbv zeta.
    apply viewport_error_bind. intros _. apply viewport_guard.
    intros v. no_error.
  - intros x y destX destY. unfold BrowserTools.dragAndDrop. cbv zeta.
    apply viewport_error_bind. intros _.
    apply viewport_error_bind. intros _. apply viewport_guard.
    intros v. no_error.
  - intros p p1 v p2 Hg Hv He Hf.
    pose proof (getViewportSize_unavailable p1 v p2 Hv He) as Hvp.
    split; intros;
      unfold BrowserTools.clickAt, BrowserTools.typeTextAt,
        BrowserTools.bind, BrowserTools.await;
      rewrite Hg, Hvp, Hf; reflexivity.
  - intros x y destX destY p p1 v0 p2 v p3 Hg Hs Hv He Hf.
    pose proof (getViewportSize_unavailable p2 v p3 Hv He) as Hvp.
    unfold BrowserTools.dragAndDrop, BrowserTools.showOverlay,
      BrowserTools.bind, BrowserTools.await, BrowserTools.ret.
    rewrite Hg, Hs, Hvp, Hf. reflexivity.
Qed.

End ActionPrimitives.

Lemma driver_failures_propagate_witness :
  BrowserTools.pagedown Z str Examples.unreachable (lit "about:blank")
  = Throw (lit "browser has been closed")
  /\ BrowserTools.navigate Z str Examples.offline (lit "https://example.com")
       (lit "about:blank")
     = Throw (lit "net::ERR_INTERNET_DISCONNECTED")
  /\ BrowserTools.error
       (BrowserTools.mkResult (Some (lit "Pressed PageDown")) None
          (Some (lit "about:blank")))
     = None
  /\ BrowserTools.clickAt Z Examples.scaleZ Examples.showZ str
       Examples.no_viewport 500%Z 500%Z (lit "about:blank")
     = Return (BrowserTools.mkResult None
                 (Some (lit "Viewport not available"))
                 (Some (lit "about:blank")),
               lit "about:blank")
  /\ BrowserTools.dragAndDrop Z Examples.scaleZ Examples.showZ str
       Examples.no_viewport 0%Z 0%Z 500%Z 500%Z (lit "about:blank")
     = Return (BrowserTools.mkResult None
                 (Some (lit "Viewport not available"))
                 (Some (lit "about:blank")),
               lit "about:blank").
Proof.
  split; [| split; [| split; [| split]]].
  - apply (proj1 (driver_failures_propagate Z Examples.scaleZ Z.opp 0%Z
                    Examples.showZ str Examples.unreachable)
             (lit "about:blank") (lit "browser has been closed")).
    reflexivity.
  - apply (proj1 (proj2 (driver_failures_propagate Z Examples.scaleZ Z.opp
                           0%Z Examples.showZ str Examples.offline))
             (lit "https://example.com") (lit "about:blank")
             (lit "about:blank") Examples.undefined (lit "about:blank")).
    + reflexivity.
    + reflexivity.
    + reflexivity.
  - apply (proj1 (proj2 (proj2 (proj1 (proj2 (proj2 (proj2
             (driver_failures_propagate Z Examples.scaleZ Z.opp 0%Z
                Examples.showZ str Examples.quiet)))))))
             (lit "about:blank") _ (lit "about:blank")).
    reflexivity.
  - apply (proj1 (proj2 (proj2 (proj2 (proj2
             (driver_failures_propagate Z Examples.scaleZ Z.opp 0%Z
                Examples.showZ str Examples.no_viewport)))))
             (lit "about:blank") (lit "about:blank") Examples.null
             (lit "about:blank")); reflexivity.
  - apply (proj2 (proj2 (proj2 (proj2 (proj2
             (driver_failures_propagate Z Examples.scaleZ Z.opp 0%Z
                Examples.showZ str Examples.no_viewport)))))
             0%Z 0%Z 500%Z 500%Z (lit "about:blank") (lit "about:blank")
             Examples.null (lit "about:blank") Examples.null
             (lit "about:blank")); reflexivity.
Defined.



(** ** Construction of the patterns *)

Ltac each_unit c :=
  destruct c as [[] [] [] [] [] [] [] []].

(** An escaped unit of a path comes out of the tokenizer as itself. *)
Lemma tokenize_escaped_unit (c : ascii) (rest : str) :
  RegExp.tokenize
    ((if PlanMode.needs_escape c then [bslash; c] else [c]) ++ rest)
  = option_map (cons (Compiled.literal_token c)) (RegExp.tokenize rest).
Proof.
  each_unit c; cbn; destruct (RegExp.tokenize rest); reflexivity.
Qed.

Lemma tokenize_escapeRegex (p rest : str) :
  RegExp.tokenize (PlanMode.escapeRegex p ++ rest)
  = option_map (app (map Compiled.literal_token p)) (RegExp.tokenize rest).
Proof.
  induction p as [|c p IH]; cbn [PlanMode.escapeRegex flat_map map app].
  - destruct (RegExp.tokenize rest); reflexivity.
  - rewrite <- app_assoc.
    change (flat_map (fun c0 => if PlanMode.needs_escape c0
                                then [bslash; c0] else [c0]) p)
      with (PlanMode.escapeRegex p).
    rewrite tokenize_escaped_unit, IH.
    destruct (RegExp.tokenize rest); reflexivity.
Qed.

(** A unit of a URL pattern, escaped and with its star expanded, comes
    out as its tokens. *)
Lemma tokenize_pattern_unit (c : ascii) (rest : str) :
  RegExp.tokenize
    (BrowserSecurity.expandStars
       (if BrowserSecurity.needs_escape c then [bslash; c] else [c]) ++ rest)
  = option_map (app (Compiled.url_tokens c)) (RegExp.tokenize rest).
Proof.
  each_unit c; cbn; destruct (RegExp.tokenize rest); reflexivity.
Qed.

Lemma expandStars_app (a b : str) :
  BrowserSecurity.expandStars (a ++ b)
  = BrowserSecurity.expandStars a ++ BrowserSecurity.expandStars b.
Proof. apply flat_map_app. Qed.

Lemma tokenize_pattern (p rest : str) :
  RegExp.tokenize
    (BrowserSecurity.expandStars (BrowserSecurity.escapePattern p) ++ rest)
  = option_map (app (flat_map Compiled.url_tokens p)) (RegExp.tokenize rest).
Proof.
  induction p as [|c p IH];
    cbn [BrowserSecurity.escapePattern flat_map app].
  - cbn. destruct (RegExp.tokenize rest); reflexivity.
  - change (flat_map (fun c0 => if BrowserSecurity.needs_escape c0
                                then [bslash; c0] else [c0]) p)
      with (BrowserSecurity.escapePattern p).
    rewrite expandStars_app, <- app_assoc, tokenize_pattern_unit, IH.
    destruct (RegExp.tokenize rest); cbn; [rewrite app_assoc |]; reflexivity.
Qed.

Lemma frame_eta (f : RegExp.frame) :
  RegExp.mkFrame (RegExp.alts f) (RegExp.cur f) (RegExp.quantifiable f) = f.
Proof. destruct f; reflexivity. Qed.

(** A run of literal tokens adds its units, newest first, to the terms
    of the current alternative. *)
Lemma parse_literals (L : str) :
  forall f, exists q, forall ts stack,
    RegExp.parse (map Compiled.literal_token L ++ ts) f stack
    = RegExp.parse ts
        (RegExp.mkFrame (RegExp.alts f)
           (rev (map RegExp.Chr L) ++ RegExp.cur f) q)
        stack.
Proof.
  induction L as [|c L IH]; intros f.
  - exists (RegExp.quantifiable f). intros ts stack.
    cbn [map rev app]. rewrite frame_eta. reflexivity.
  - destruct (IH (RegExp.push_term true (RegExp.Chr c) f)) as [q Hq].
    exists q. intros ts stack.
    cbn [map app RegExp.parse Compiled.literal_token].
    rewrite Hq. cbn [RegExp.push_term RegExp.alts RegExp.cur rev].
    rewrite <- app_assoc. reflexivity.
Qed.

(** So does the run of tokens of a URL pattern, a term for each unit. *)
Lemma parse_url_tokens (p : str) :
  forall f, exists q, forall ts stack,
    RegExp.parse (flat_map Compiled.url_tokens p ++ ts) f stack
    = RegExp.parse ts
        (RegExp.mkFrame (RegExp.alts f)
           (rev (map Compiled.url_term p) ++ RegExp.cur f) q)
        stack.
Proof.
  induction p as [|c p IH]; intros f.
  - exists (RegExp.quantifiable f). intros ts stack.
    cbn [flat_map map rev app]. rewrite frame_eta. reflexivity.
  - unfold Compiled.url_tokens, Compiled.url_term in *.
    cbn [flat_map map rev].
    destruct (Ascii.eqb c "*").
    + destruct (IH (RegExp.mkFrame (RegExp.alts f)
                      (RegExp.Star RegExp.Dot :: RegExp.cur f) false))
        as [q Hq].
      exists q. intros ts stack.
      cbn [app RegExp.parse RegExp.push_term RegExp.quantify
             RegExp.quantifiable RegExp.cur RegExp.alts].
      rewrite Hq. cbn [RegExp.alts RegExp.cur].
      rewrite <- app_assoc. reflexivity.
    + destruct (IH (RegExp.push_term true (RegExp.Chr c) f)) as [q Hq].
      exists q. intros ts stack.
      cbn [app RegExp.parse Compiled.literal_token].
      rewrite Hq. cbn [RegExp.push_term RegExp.alts RegExp.cur].
      rewrite <- app_assoc. reflexivity.
Qed.

(** [patternToRegex] never throws: every pattern compiles, to the
    anchored sequence of its terms. *)
Lemma patternToRegex_compiles (pattern : str) :
  BrowserSecurity.patternToRegex pattern
  = Return (RegExp.mkRegExp
              ("^"%char
               :: BrowserSecurity.expandStars
                    (BrowserSecurity.escapePattern pattern))
              true (Compiled.url_regex pattern)).
Proof.
  unfold BrowserSecurity.patternToRegex, RegExp.create.
  cbn [RegExp.tokenize].
  change (Ascii.eqb "^" bslash) with false.
  change (Ascii.eqb "^" "(") with false.
  cbv iota.
  rewrite <- (app_nil_r (BrowserSecurity.expandStars _)).
  rewrite tokenize_pattern.
  cbn [RegExp.tokenize option_map].
  change (Ascii.eqb "^" ")") with false.
  change (Ascii.eqb "^" "|") with false.
  change (Ascii.eqb "^" "*") with false.
  change (Ascii.eqb "^" "?") with false.
  change (Ascii.eqb "^" ".") with false.
  change (Ascii.eqb "^" "^") with true.
  cbv iota.
  cbn [RegExp.parse RegExp.push_term RegExp.empty_frame RegExp.alts
         RegExp.cur].
  destruct (parse_url_tokens pattern
              (RegExp.mkFrame [] [RegExp.Bol] false)) as [q Hq].
  rewrite Hq. cbn [RegExp.parse].
  unfold RegExp.close_frame.
  cbn [RegExp.alts RegExp.cur rev app RegExp.mkalt].
  rewrite rev_app_distr, rev_involutive. reflexivity.
Qed.

Lemma escapeRegex_key :
  PlanMode.escapeRegex Compiled.file_path_key = Compiled.file_path_key.
Proof. reflexivity. Qed.

(** The constructor never throws on the pattern of a grant: the text
    compiles to the key, the path unit by unit, the optional group and
    the closing quote. *)
Lemma grant_compiles (absolutePath : str) :
  RegExp.create
    (PlanMode.argsPatternSource (PlanMode.escapeRegex absolutePath)) false
  = Return (RegExp.mkRegExp
              (PlanMode.argsPatternSource (PlanMode.escapeRegex absolutePath))
              false (Compiled.grant_regex absolutePath)).
Proof.
  unfold RegExp.create.
  assert (Hsrc :
    PlanMode.argsPatternSource (PlanMode.escapeRegex absolutePath)
    = PlanMode.escapeRegex (Compiled.file_path_key ++ absolutePath)
      ++ lit "(?:/.*)?" ++ [dquote]).
  { unfold PlanMode.escapeRegex at 2. rewrite flat_map_app.
    fold (PlanMode.escapeRegex Compiled.file_path_key).
    fold (PlanMode.escapeRegex absolutePath).
    rewrite escapeRegex_key. reflexivity. }
  rewrite Hsrc at 1. rewrite tokenize_escapeRegex.
  change (RegExp.tokenize (lit "(?:/.*)?" ++ [dquote]))
    with (Some [RegExp.TOpen; Compiled.literal_token "/";
                RegExp.TAtom RegExp.Dot; RegExp.TStar; RegExp.TClose;
                RegExp.TQuest; Compiled.literal_token dquote]).
  cbn [option_map].
  destruct (parse_literals (Compiled.file_path_key ++ absolutePath)
              RegExp.empty_frame) as [q Hq].
  rewrite Hq.
  cbn [RegExp.parse RegExp.push_term RegExp.quantify RegExp.quantifiable
         RegExp.empty_frame RegExp.alts RegExp.cur
         Compiled.literal_token].
  unfold RegExp.close_frame.
  cbn [RegExp.push_term RegExp.alts RegExp.cur rev app RegExp.mkalt].
  rewrite app_nil_r, rev_involutive.
  unfold Compiled.grant_regex, Compiled.below.
  rewrite <- app_assoc. reflexivity.
Qed.

(** ** Matching a URL pattern *)

Lemma lower_of_canon (a : ascii) : lower_char (canon a) = lower_char a.
Proof. each_unit a; reflexivity. Qed.

Lemma canon_of_lower (a : ascii) : canon (lower_char a) = canon a.
Proof. each_unit a; reflexivity. Qed.

(** The case folding of the matcher and the one of the specification
    identify the same units. *)
Lemma chr_eq_same_letter (c x : ascii) :
  RegExp.chr_eq true c x = Spec.same_letter c x.
Proof.
  unfold RegExp.chr_eq, Spec.same_letter.
  destruct (Ascii.eqb_spec (canon c) (canon x)) as [H | H];
    destruct (Ascii.eqb_spec (lower_char c) (lower_char x)) as [H' | H'];
    try reflexivity; exfalso.
  - apply H'. rewrite <- (lower_of_canon c), <- (lower_of_canon x), H.
    reflexivity.
  - apply H. rewrite <- (canon_of_lower c), <- (canon_of_lower x), H'.
    reflexivity.
Qed.

Lemma matched_orelse {A : Type} (o : option A) (o' : option A) :
  Compiled.matched (match o with Some x => Some x | None => o' end)
  = (Compiled.matched o || Compiled.matched o')%bool.
Proof. destruct o; reflexivity. Qed.

(** A greedy star over the dot, followed by [k], matches exactly when
    some run of units that are not line terminators is followed by a
    match of [k]. *)
Lemma star_dot_any_run {A : Type} (ic : bool)
    (k : option ascii -> str -> option A) (next : str -> bool) :
  (forall p s, Compiled.matched (k p s) = next s) ->
  forall n t p,
    List.length t <= n ->
    Compiled.matched
      (RegExp.repeat_match (RegExp.mt ic RegExp.Dot) k n p t)
    = Spec.any_run (fun x => negb (is_line_terminator x)) next t.
Proof.
  intros Hk. induction n as [|n IH]; intros t p Hlen.
  - destruct t; [| cbn in Hlen; lia].
    cbn. rewrite Hk, orb_false_r. reflexivity.
  - cbn [RegExp.repeat_match]. rewrite matched_orelse, Hk.
    destruct t as [|x t'].
    + cbn. rewrite orb_false_r. reflexivity.
    + cbn [RegExp.mt Spec.any_run].
      destruct (is_line_terminator x).
      * cbn. rewrite orb_false_r. reflexivity.
      * assert (Hlt : (List.length t' <? List.length (x :: t')) = true)
          by (apply Nat.ltb_lt; cbn; lia).
        rewrite Hlt, IH by (cbn in Hlen; lia).
        cbn. apply orb_comm.
Qed.

(** The terms of a URL pattern match a prefix of the URL exactly when the
    pattern, read as the specification reads it but with a star that
    stops at line terminators, matches. *)
Lemma url_terms_glob (pattern : str) :
  forall prev url,
    Compiled.matched
      (RegExp.mt true (RegExp.mkseq (map Compiled.url_term pattern))
         prev url Compiled.accept)
    = Spec.glob_line pattern url.
Proof.
  unfold Spec.glob_line.
  induction pattern as [|c pattern IH]; intros prev url.
  - reflexivity.
  - unfold RegExp.mkseq in *. cbn [map fold_right RegExp.mt Spec.glob].
    unfold Compiled.url_term at 1.
    destruct (Ascii.eqb c "*").
    + cbn [RegExp.mt].
      apply (star_dot_any_run true); [| lia].
      intros p s. apply IH.
    + cbn [RegExp.mt]. destruct url as [|x url']; [reflexivity |].
      rewrite chr_eq_same_letter.
      destruct (Spec.same_letter c x); [apply IH | reflexivity].
Qed.

(** An anchored pattern matches at the start of the input or nowhere. *)
Lemma search_anchored_later (ic : bool) (r : RegExp.regex) (s : str) :
  forall x, RegExp.search ic (RegExp.Seq RegExp.Bol r) (Some x) s = None.
Proof.
  induction s as [|y s IH]; intros x; cbn; [reflexivity | apply IH].
Qed.

Lemma test_anchored (src : str) (ic : bool) (r : RegExp.regex) (s : str) :
  RegExp.test (RegExp.mkRegExp src ic (RegExp.Seq RegExp.Bol r)) s
  = Compiled.matched (RegExp.mt ic r None s Compiled.accept).
Proof.
  unfold RegExp.test, RegExp.exec.
  cbn [RegExp.ignoreCase RegExp.pattern].
  destruct s as [|x s']; cbn [RegExp.search RegExp.mt];
    fold Compiled.accept;
    destruct (RegExp.mt ic r None _ Compiled.accept); try reflexivity.
  rewrite search_anchored_later. reflexivity.
Qed.

(** [patterns.some] never throws, and answers whether some pattern
    matches as the specification reads it, with the star that stops at
    line terminators. *)
Lemma matchesAnyPattern_glob (url : str) (patterns : list str) :
  BrowserSecurity.matchesAnyPattern url patterns
  = Return (existsb (fun pattern => Spec.glob_line pattern url) patterns).
Proof.
  induction patterns as [|pattern rest IH];
    cbn [BrowserSecurity.matchesAnyPattern existsb]; [reflexivity |].
  rewrite patternToRegex_compiles.
  unfold Compiled.url_regex. unfold RegExp.mkseq at 1. cbn [fold_right map].
  fold (RegExp.mkseq (map Compiled.url_term pattern)).
  rewrite test_anchored, url_terms_glob.
  destruct (Spec.glob_line pattern url); [reflexivity | exact IH].
Qed.

(** ** The URL guard: allowed patterns *)

(** C6, the claim as stated fails.  With the user pattern
    [https://*.test.org], the URL made of [https://sub], a line feed and
    [.test.org] starts with no blocked prefix and matches that pattern
    when the star stands for any characters; [isUrlAllowed] refuses
    it. *)
Lemma star_stops_at_line_terminators :
  BrowserSecurity.isBlockedUrl Examples.broken_line_url = false
  /\ BrowserSecurity.allowedDomains Examples.test_org
     = Some [lit "https://*.test.org"]
  /\ Spec.glob_any (lit "https://*.test.org") Examples.broken_line_url = true
  /\ BrowserSecurity.isUrlAllowed Examples.broken_line_url Examples.test_org
     = Return false.
Proof. repeat split; vm_compute; reflexivity. Qed.

(** C6, amended.  For a URL that starts with no blocked prefix:
    without user patterns, absent or empty, [isUrlAllowed] returns true;
    with user patterns it returns, without throwing, whether the URL
    matches some pattern among the defaults followed by the user
    patterns, where a pattern is matched case-insensitively as a prefix
    of the URL and a star stands for any run of units that are not line
    terminators.  With the user pattern [https://*.test.org],
    [https://sub.test.org/path] is accepted and [https://blocked.com] is
    refused. *)
Theorem allowed_iff_some_pattern :
  (forall url config,
      ~ (exists prefix,
            In prefix BrowserSecurity.BLOCKED_PATTERNS
            /\ Spec.starts_with_ci url prefix) ->
      ((BrowserSecurity.allowedDomains config = None
        \/ BrowserSecurity.allowedDomains config = Some []) ->
       BrowserSecurity.isUrlAllowed url config = Return true)
      /\ (forall user,
             BrowserSecurity.allowedDomains config = Some user ->
             user <> [] ->
             exists answer,
               BrowserSecurity.isUrlAllowed url config = Return answer
               /\ (answer = true
                   <-> exists pattern,
                         In pattern
                           (BrowserSecurity.DEFAULT_ALLOWED_PATTERNS ++ user)
                         /\ Spec.glob_line pattern url = true)))
  /\ BrowserSecurity.isUrlAllowed (lit "https://sub.test.org/path")
       Examples.test_org = Return true
  /\ BrowserSecurity.isUrlAllowed (lit "https://blocked.com")
       Examples.test_org = Return false.
Proof.
  split; [| split; reflexivity].
  intros url config Hfree.
  assert (Hb : BrowserSecurity.isBlockedUrl url = false).
  { destruct (BrowserSecurity.isBlockedUrl url) eqn:E; [| reflexivity].
    exfalso. apply Hfree. apply isBlockedUrl_iff. exact E. }
  unfold BrowserSecurity.isUrlAllowed. rewrite Hb. split.
  - intros [H | H]; rewrite H; reflexivity.
  - intros user Hu Hne. rewrite Hu.
    destruct user as [|u0 user']; [contradiction Hne; reflexivity |].
    rewrite matchesAnyPattern_glob.
    eexists. split; [reflexivity |].
    rewrite existsb_exists. reflexivity.
Qed.

Lemma allowed_iff_some_pattern_witness :
  exists answer,
    BrowserSecurity.isUrlAllowed (lit "https://docs.github.com/en")
      Examples.test_org = Return answer
    /\ (answer = true
        <-> exists pattern,
              In pattern
                (BrowserSecurity.DEFAULT_ALLOWED_PATTERNS
                 ++ [lit "https://*.test.org"])
              /\ Spec.glob_line pattern (lit "https://docs.github.com/en")
                 = true).
Proof.
  apply (proj1 allowed_iff_some_pattern (lit "https://docs.github.com/en")
           Examples.test_org).
  - intros (prefix & Hin & Hci). apply lower_prefix_iff in Hci.
    simpl in Hin.
    repeat (destruct Hin as [<- | Hin]; [vm_compute in Hci; discriminate |]).
    exact Hin.
  - reflexivity.
  - discriminate.
Defined.

(** ** Matching the pattern of a grant *)

(** A run of literal terms, without the [i] flag, consumes exactly its
    units. *)
Lemma mt_literals {A : Type} (L : str) (R : list RegExp.regex)
    (k : option ascii -> str -> option A) (x : A) :
  forall prev s,
    RegExp.mt false (RegExp.mkseq (map RegExp.Chr L ++ R)) prev s k = Some x ->
    exists s' prev',
      s = L ++ s' /\ RegExp.mt false (RegExp.mkseq R) prev' s' k = Some x.
Proof.
  unfold RegExp.mkseq.
  induction L as [|c L IH]; intros prev s H.
  - exists s, prev. split; [reflexivity | exact H].
  - cbn [map app fold_right RegExp.mt] in H.
    destruct s as [|y s0]; [discriminate |].
    unfold RegExp.chr_eq in H.
    destruct (Ascii.eqb_spec c y) as [-> | _]; [| discriminate].
    destruct (IH _ _ H) as (s' & prev' & -> & H').
    exists s', prev'. split; [reflexivity | exact H'].
Qed.

(** What follows the path in a match is a slash or the closing quote. *)
Lemma mt_below_next {A : Type} (k : option ascii -> str -> option A)
    (x : A) prev s :
  RegExp.mt false
    (RegExp.mkseq [Compiled.below; RegExp.Chr dquote]) prev s k = Some x ->
  exists c s', s = c :: s' /\ (c = "/"%char \/ c = dquote).
Proof.
  destruct s as [|c s']; [cbn; discriminate |].
  intros H. exists c, s'. split; [reflexivity |].
  unfold Compiled.below, RegExp.mkseq in H.
  cbn [fold_right RegExp.mt] in H.
  unfold RegExp.chr_eq in H.
  destruct (Ascii.eqb_spec "/" c) as [<- | _]; [left; reflexivity |].
  destruct (Ascii.eqb_spec dquote c) as [<- | _]; [right; reflexivity |].
  discriminate.
Qed.

(** A match found by the search is a match at some position. *)
Lemma search_finds (ic : bool) (r : RegExp.regex) (s : str) :
  forall prev m,
    RegExp.search ic r prev s = Some m ->
    exists i prev' rest,
      RegExp.mt ic r prev' (skipn i s) Compiled.accept = Some rest.
Proof.
  induction s as [|x s IH]; intros prev m H; cbn [RegExp.search] in H;
    fold Compiled.accept in H.
  - destruct (RegExp.mt ic r prev [] Compiled.accept) as [rest |] eqn:E;
      [| discriminate].
    exists 0, prev, rest. exact E.
  - destruct (RegExp.mt ic r prev (x :: s) Compiled.accept) as [rest |] eqn:E.
    + exists 0, prev, rest. exact E.
    + destruct (IH _ _ H) as (i & prev' & rest & H').
      exists (S i), prev', rest. exact H'.
Qed.

(** *** Quotes in serialized text *)

Lemma no_bare_quote_weaken (b : bool) (t : str) :
  Compiled.no_bare_quote false t = true -> Compiled.no_bare_quote b t = true.
Proof.
  destruct t as [|c t]; cbn; [reflexivity |].
  destruct (Ascii.eqb c dquote); [discriminate | tauto].
Qed.

Lemma no_bare_quote_app (X Y : str) :
  forall b,
    Compiled.no_bare_quote b X = true ->
    Compiled.no_bare_quote false Y = true ->
    Compiled.no_bare_quote b (X ++ Y) = true.
Proof.
  induction X as [|c X IH]; intros b HX HY; cbn in *.
  - apply no_bare_quote_weaken. exact HY.
  - destruct (Ascii.eqb c dquote).
    + apply andb_true_iff in HX. destruct HX as [-> HX].
      cbn. apply IH; assumption.
    + apply IH; assumption.
Qed.

Lemma escape_char_no_bare_quote (c : ascii) :
  Compiled.no_bare_quote false (Json.escape_char c) = true.
Proof. each_unit c; reflexivity. Qed.

Lemma escape_no_bare_quote (s : str) :
  Compiled.no_bare_quote false (Json.escape s) = true.
Proof.
  induction s as [|c s IH]; cbn [Json.escape flat_map]; [reflexivity |].
  apply no_bare_quote_app; [apply escape_char_no_bare_quote | exact IH].
Qed.

(** In such a text every quote has a backslash before it. *)
Lemma no_bare_quote_split (A B : str) :
  forall b E,
    Compiled.no_bare_quote b E = true ->
    E = A ++ dquote :: B ->
    (A = [] /\ b = true) \/ exists A', A = A' ++ [bslash].
Proof.
  induction A as [|a A IH]; intros b E H ->; cbn in H.
  - left. split; [reflexivity |].
    apply andb_true_iff in H. tauto.
  - right. destruct (Ascii.eqb a dquote).
    + apply andb_true_iff in H. destruct H as [_ H].
      destruct (IH _ _ H eq_refl) as [[_ Hf] | [A' ->]]; [discriminate |].
      exists (a :: A'). reflexivity.
    + destruct (IH _ _ H eq_refl) as [[-> Hb] | [A' ->]].
      * apply Ascii.eqb_eq in Hb. subst a. exists []. reflexivity.
      * exists (a :: A'). reflexivity.
Qed.

(** So the key cannot end inside it: the quote that closes the key has
    the letter h before it. *)
Lemma key_not_inside (E A X : str) (y : ascii) :
  Compiled.no_bare_quote false E = true ->
  E ++ [dquote] = A ++ lit "file_path" ++ dquote :: y :: X ->
  False.
Proof.
  intros HE H.
  destruct (exists_last (l := y :: X)) as (X' & l & HX); [discriminate |].
  rewrite HX in H.
  assert (H' : E ++ [dquote]
               = ((A ++ lit "file_pat") ++ ["h"%char] ++ dquote :: X') ++ [l]).
  { rewrite H. repeat rewrite <- app_assoc. reflexivity. }
  apply app_inj_tail in H'. destruct H' as [HEq _].
  rewrite app_assoc in HEq.
  destruct (no_bare_quote_split _ _ _ _ HE HEq) as [[_ Hf] | [A' HA]];
    [discriminate |].
  apply app_inj_tail in HA. destruct HA as [_ Hh]. discriminate.
Qed.

(** The key, with its quotes, is found in a serialized member only at
    its start. *)
Lemma key_only_at_start (E X : str) (i : nat) :
  Compiled.no_bare_quote false E = true ->
  skipn i (Compiled.file_path_key ++ E ++ [dquote])
  = Compiled.file_path_key ++ X ->
  i = 0.
Proof.
  intros HE H.
  destruct i as [|i]; [reflexivity | exfalso].
  do 12 (destruct i as [|i];
         [cbn in H;
          first [ discriminate
                | injection H as H;
                  exact (key_not_inside E [] (dquote :: X) ":"%char HE H) ]
         |]).
  cbn in H.
  pose proof (firstn_skipn i (E ++ [dquote])) as Hsplit.
  rewrite H in Hsplit.
  apply (key_not_inside E (firstn i (E ++ [dquote]) ++ [dquote])
           (dquote :: X) ":"%char HE).
    rewrite <- Hsplit at 1. rewrite <- app_assoc. reflexivity.
Qed.

(** How a unit is serialized: as itself, or behind a backslash. *)
Lemma escape_char_cases (y : ascii) :
  (Json.escape_char y = [y] /\ y <> dquote /\ y <> bslash)
  \/ (y = bslash /\ Json.escape_char y = [bslash; bslash])
  \/ (y <> bslash /\ exists t, Json.escape_char y = bslash :: t).
Proof.
  unfold dquote, bslash.
  each_unit y;
    first [ left; split; [reflexivity | split; discriminate]
          | right; left; split; reflexivity
          | right; right; split; [discriminate | eexists; reflexivity] ].
Qed.

Lemma repeat_shift {A : Type} (x : A) (n : nat) (l : list A) :
  repeat x n ++ x :: l = x :: repeat x n ++ l.
Proof.
  induction n as [|n IH]; cbn; [reflexivity | rewrite IH; reflexivity].
Qed.

(** The serialized text of a path that goes on after [P] with a unit
    other than a slash does not read as [P] followed by a slash or by a
    quote; [n] counts backslashes of the text already read as units of
    the path. *)
Lemma escape_continues (c0 : ascii) (rest : str) (d : ascii) :
  c0 <> "/"%char ->
  d = "/"%char \/ d = dquote ->
  forall P n tail,
    repeat bslash n ++ Json.escape (P ++ c0 :: rest) ++ [dquote]
    = P ++ d :: tail ->
    False.
Proof.
  intros Hc0 Hd.
  assert (Hdb : d <> bslash) by (destruct Hd; subst d; discriminate).
  induction P as [|y P IH]; intros n tail H.
  - destruct n as [|n]; cbn [repeat app] in H.
    + cbn [Json.escape flat_map] in H.
      destruct (escape_char_cases c0)
        as [(E & Hq & _) | [(-> & E) | (_ & t & E)]];
        rewrite E in H; injection H as H _.
      * subst d. destruct Hd; contradiction.
      * apply Hdb. symmetry. exact H.
      * apply Hdb. symmetry. exact H.
    + injection H as H _. apply Hdb. symmetry. exact H.
  - destruct n as [|n]; cbn [repeat app] in H.
    + cbn [Json.escape flat_map app] in H.
      fold (Json.escape (P ++ c0 :: rest)) in H.
      destruct (escape_char_cases y)
        as [(E & _ & _) | [(-> & E) | (Hy & t & E)]];
        rewrite E in H.
      * injection H as H. exact (IH 0 tail H).
      * injection H as H. exact (IH 1 tail H).
      * injection H as H _. apply Hy. symmetry. exact H.
    + injection H as Hy H. subst y.
      cbn [Json.escape flat_map app] in H.
      fold (Json.escape (P ++ c0 :: rest)) in H.
      change (Json.escape_char bslash) with [bslash; bslash] in H.
      cbn [app] in H.
      rewrite repeat_shift in H.
      rewrite (repeat_shift bslash n
                 (Json.escape (P ++ c0 :: rest) ++ [dquote])) in H.
      exact (IH (S (S n)) tail H).
Qed.

Lemma member_file_path (value : str) :
  Json.member (lit "file_path") value
  = Compiled.file_path_key ++ Json.escape value ++ [dquote].
Proof. reflexivity. Qed.

(** When the pattern of the grant of [P] matches a serialized member,
    the serialized value reads as [P] followed by a slash or by the
    closing quote. *)
Lemma grant_match_shape (src P value : str) :
  RegExp.test (RegExp.mkRegExp src false (Compiled.grant_regex P))
    (Json.member (lit "file_path") value) = true ->
  exists d tail,
    Json.escape value ++ [dquote] = P ++ d :: tail
    /\ (d = "/"%char \/ d = dquote).
Proof.
  unfold RegExp.test, RegExp.exec.
  cbn [RegExp.ignoreCase RegExp.pattern].
  destruct (RegExp.search false _ None _) as [m |] eqn:Hs; [| discriminate].
  intros _.
  destruct (search_finds _ _ _ _ _ Hs) as (i & prev & out & Hm).
  unfold Compiled.grant_regex in Hm.
  destruct (mt_literals _ _ _ _ _ _ Hm) as (s' & prev' & Hskip & Hm').
  destruct (mt_below_next _ _ _ _ Hm') as (d & tail & -> & Hd).
  rewrite member_file_path in Hskip.
  rewrite <- app_assoc in Hskip.
  pose proof (key_only_at_start _ _ _ (escape_no_bare_quote _) Hskip) as ->.
  cbn [skipn] in Hskip.
  apply app_inv_head in Hskip.
  exists d, tail. split; assumption.
Qed.

(** So it matches no serialized member whose path goes on after [P]
    with a unit other than a slash. *)
Lemma grant_rejects_sibling (src P : str) (c0 : ascii) (rest : str) :
  c0 <> "/"%char ->
  RegExp.test (RegExp.mkRegExp src false (Compiled.grant_regex P))
    (Json.member (lit "file_path") (P ++ c0 :: rest))
  = false.
Proof.
  intros Hc0.
  destruct (RegExp.test _ _) eqn:Ht; [exfalso | reflexivity].
  destruct (grant_match_shape _ _ _ Ht) as (d & tail & Heq & Hd).
  exact (escape_continues c0 rest d Hc0 Hd P 0 tail Heq).
Qed.

(** ** The rules that [execute] adds *)

(** The rule of a grant for one tool. *)
Lemma for_of_rules (re : RegExp.t) (tools : list str) :
  PlanMode.for_of tools
    (fun toolName =>
       PlanMode.bind (PlanMode.lift (Return re))
         (fun re0 =>
            PlanMode.call
              (PlanMode.addPolicyRule
                 (PlanMode.mkRule toolName re0 PlanMode.ALLOW 80
                    [PlanMode.PLAN] (lit "PlanMode")))))
  = (Return tt,
     map (fun toolName =>
            PlanMode.addPolicyRule
              (PlanMode.mkRule toolName re PlanMode.ALLOW 80
                 [PlanMode.PLAN] (lit "PlanMode")))
       tools).
Proof.
  induction tools as [|t tools IH]; [reflexivity |].
  cbn [PlanMode.for_of map]. rewrite IH. reflexivity.
Qed.

Lemma snd_bind {A B : Type} (m : PlanMode.Eff A) (f : A -> PlanMode.Eff B) :
  snd (PlanMode.bind m f)
  = match fst m with
    | Return a => snd m ++ snd (f a)
    | Throw _ => snd m
    end.
Proof.
  destruct m as [[a | e] l]; cbn; [| reflexivity].
  destruct (f a); reflexivity.
Qed.

(** When the validation accepts the resolved path, the block of the path
    adds one rule for each tool of the allow-list, in order, and falls
    through. *)
Lemma grant_calls cwd config (this : PlanMode.EnterPlanModeInvocation) p :
  truthy_opt
    (PlanMode.validatePathAccess config
       (NodePath.resolve cwd [PlanMode.getTargetDir config; p])) = false ->
  PlanMode.grant cwd config this p
  = (Return None,
     map (fun toolName =>
            PlanMode.addPolicyRule
              (PlanMode.mkRule toolName
                 (RegExp.mkRegExp
                    (PlanMode.argsPatternSource
                       (PlanMode.escapeRegex
                          (NodePath.resolve cwd
                             [PlanMode.getTargetDir config; p])))
                    false
                    (Compiled.grant_regex
                       (NodePath.resolve cwd
                          [PlanMode.getTargetDir config; p])))
                 PlanMode.ALLOW 80 [PlanMode.PLAN] (lit "PlanMode")))
       match PlanMode.allowed_tools (PlanMode.params this) with
       | Some l => l
       | None => [lit "write_file"; lit "replace"]
       end).
Proof.
  intros Hv. unfold PlanMode.grant. rewrite Hv, grant_compiles.
  rewrite for_of_rules. cbn [PlanMode.bind PlanMode.ret].
  rewrite app_nil_r. reflexivity.
Qed.

(** Every rule that [execute] adds is the rule of the grant of the
    resolved path: ALLOW, priority 80, PLAN mode only. *)
Lemma execute_rules cwd config (this : PlanMode.EnterPlanModeInvocation) rule :
  In (PlanMode.addPolicyRule rule) (snd (PlanMode.execute cwd config this)) ->
  exists p,
    PlanMode.path (PlanMode.params this) = Some p
    /\ PlanMode.argsPattern rule
       = RegExp.mkRegExp
           (PlanMode.argsPatternSource
              (PlanMode.escapeRegex
                 (NodePath.resolve cwd [PlanMode.getTargetDir config; p])))
           false
           (Compiled.grant_regex
              (NodePath.resolve cwd [PlanMode.getTargetDir config; p]))
    /\ PlanMode.decision rule = PlanMode.ALLOW
    /\ PlanMode.priority rule = 80%Z
    /\ PlanMode.modes rule = [PlanMode.PLAN]
    /\ PlanMode.source rule = lit "PlanMode".
Proof.
  unfold PlanMode.execute.
  assert (Hplain :
    forall cs : list PlanMode.ConfigCall,
      cs = [] \/ cs = [PlanMode.setApprovalMode PlanMode.PLAN] ->
      ~ In (PlanMode.addPolicyRule rule) cs).
  { intros cs [-> | ->] Hin; cbn in Hin;
      [exact Hin | destruct Hin as [Hin | []]; discriminate]. }
  destruct (PlanMode.path (PlanMode.params this)) as [p |] eqn:Hp.
  2: { intros Hin. exfalso.
       destruct (PlanMode.confirmationOutcome this) as [[| |] |];
         refine (Hplain _ _ Hin);
         first [left; reflexivity | right; reflexivity]. }
  destruct (truthy p) eqn:Htp.
  2: { intros Hin. exfalso.
       destruct (PlanMode.confirmationOutcome this) as [[| |] |];
         refine (Hplain _ _ Hin);
         first [left; reflexivity | right; reflexivity]. }
  destruct (truthy_opt
              (PlanMode.validatePathAccess config
                 (NodePath.resolve cwd [PlanMode.getTargetDir config; p])))
    eqn:Hv.
  - intros Hin. exfalso.
    assert (Hg : snd (PlanMode.grant cwd config this p) = []
                 /\ exists r, fst (PlanMode.grant cwd config this p)
                              = Return (Some r)).
    { unfold PlanMode.grant. rewrite Hv. split; [reflexivity |].
      eexists. reflexivity. }
    destruct (PlanMode.grant cwd config this p) as [g cs].
    destruct Hg as [Hcs [r Hr]]. cbn in Hcs, Hr. subst g cs.
    destruct (PlanMode.confirmationOutcome this) as [[| |] |];
      refine (Hplain _ _ Hin);
      first [left; reflexivity | right; reflexivity].
  - rewrite (grant_calls _ _ _ _ Hv).
    intros Hin. exists p. split; [reflexivity |].
    assert (Hin' :
      In (PlanMode.addPolicyRule rule)
        (map (fun toolName =>
                PlanMode.addPolicyRule
                  (PlanMode.mkRule toolName
                     (RegExp.mkRegExp
                        (PlanMode.argsPatternSource
                           (PlanMode.escapeRegex
                              (NodePath.resolve cwd
                                 [PlanMode.getTargetDir config; p])))
                        false
                        (Compiled.grant_regex
                           (NodePath.resolve cwd
                              [PlanMode.getTargetDir config; p])))
                     PlanMode.ALLOW 80 [PlanMode.PLAN] (lit "PlanMode")))
           match PlanMode.allowed_tools (PlanMode.params this) with
           | Some l => l
           | None => [lit "write_file"; lit "replace"]
           end)).
    { destruct (PlanMode.confirmationOutcome this) as [[| |] |];
        try (exfalso; exact Hin);
        rewrite snd_bind in Hin; cbn [fst snd] in Hin;
        apply in_app_or in Hin;
        (destruct Hin as [Hin | Hin];
         [exact Hin
         | exfalso; refine (Hplain _ _ Hin); right; reflexivity]). }
    apply in_map_iff in Hin'. destruct Hin' as (t & Heq & _).
    injection Heq as <-. repeat split.
Qed.

(** ** What a grant does match *)

Lemma search_at_start (ic : bool) (r : RegExp.regex) prev (s rest : str) :
  RegExp.mt ic r prev s Compiled.accept = Some rest ->
  RegExp.search ic r prev s
  = Some (firstn (List.length s - List.length rest) s).
Proof.
  intros H. destruct s; cbn [RegExp.search]; fold Compiled.accept;
    rewrite H; reflexivity.
Qed.

Lemma mt_literals_consume {A : Type} (L : str) (R : list RegExp.regex)
    (k : option ascii -> str -> option A) :
  forall prev s',
  exists prev',
    RegExp.mt false (RegExp.mkseq (map RegExp.Chr L ++ R)) prev (L ++ s') k
    = RegExp.mt false (RegExp.mkseq R) prev' s' k.
Proof.
  unfold RegExp.mkseq.
  induction L as [|c L IH]; intros prev s'.
  - exists prev. reflexivity.
  - cbn [map app fold_right RegExp.mt]. unfold RegExp.chr_eq.
    rewrite Ascii.eqb_refl. apply IH.
Qed.

(** A unit that is serialized as itself is no line terminator. *)
Lemma plain_not_line_terminator (c : ascii) :
  Json.escape_char c = [c] -> is_line_terminator c = false.
Proof. each_unit c; intros H; first [reflexivity | discriminate H]. Qed.

Lemma escape_plain (v : str) :
  Forall (fun c => Json.escape_char c = [c]) v -> Json.escape v = v.
Proof.
  induction 1 as [|c v Hc _ IH]; cbn [Json.escape flat_map];
    [reflexivity |].
  fold (Json.escape v). rewrite Hc, IH. reflexivity.
Qed.

(** A run of plain units up to the closing quote. *)
Lemma any_run_to_quote (n : nat) (rest : str) :
  Forall (fun c => Json.escape_char c = [c]) rest ->
  1 < n ->
  Spec.any_run (fun x => negb (is_line_terminator x))
    (fun t =>
       Compiled.matched
         (if List.length t <? n
          then RegExp.mt false (RegExp.mkseq [RegExp.Chr dquote]) None t
                 Compiled.accept
          else None))
    (rest ++ [dquote])
  = true.
Proof.
  intros Hrest Hn.
  induction Hrest as [|c rest Hc _ IH]; cbn [app Spec.any_run].
  - cbn [List.length]. destruct (Nat.ltb_spec 1 n); [reflexivity | lia].
  - rewrite (plain_not_line_terminator c Hc), IH.
    cbn. apply orb_true_r.
Qed.

(** After a slash, the end of the pattern is the greedy star over the
    dot, followed by the closing quote. *)
Lemma mt_below_slash {A : Type} (k : option ascii -> str -> option A)
    prev (t : str) :
  RegExp.mt false (RegExp.mkseq [Compiled.below; RegExp.Chr dquote]) prev
    ("/"%char :: t) k
  = match
      RegExp.repeat_match (RegExp.mt false RegExp.Dot)
        (fun p' s' =>
           if List.length s' <? List.length ("/"%char :: t)
           then RegExp.mt false (RegExp.mkseq [RegExp.Chr dquote]) p' s' k
           else None)
        (List.length t) (Some "/"%char) t
    with
    | Some x => Some x
    | None => None
    end.
Proof. reflexivity. Qed.

(** The pattern of the grant of [P] matches the serialized member
    [file_path] of [P] itself and of every path beneath [P], as long as
    the units of the path are serialized as themselves. *)
Lemma grant_matches_beneath (src P v : str) :
  Forall (fun c => Json.escape_char c = [c]) v ->
  v = P \/ (exists rest, v = P ++ "/"%char :: rest) ->
  RegExp.test (RegExp.mkRegExp src false (Compiled.grant_regex P))
    (Json.member (lit "file_path") v) = true.
Proof.
  intros Hplain Hv.
  assert (Hm :
    Compiled.matched
      (RegExp.mt false (Compiled.grant_regex P) None
         (Json.member (lit "file_path") v) Compiled.accept) = true).
  { rewrite member_file_path, (escape_plain v Hplain).
    unfold Compiled.grant_regex.
    destruct Hv as [-> | [rest ->]].
    - rewrite app_assoc.
      destruct (mt_literals_consume (Compiled.file_path_key ++ P)
                  [Compiled.below; RegExp.Chr dquote] Compiled.accept
                  None [dquote]) as [prev' ->].
      reflexivity.
    - rewrite <- app_assoc. rewrite app_assoc.
      destruct (mt_literals_consume (Compiled.file_path_key ++ P)
                  [Compiled.below; RegExp.Chr dquote] Compiled.accept
                  None (("/"%char :: rest) ++ [dquote])) as [prev' ->].
      apply Forall_app in Hplain. destruct Hplain as [_ Hrest].
      inversion Hrest as [|? ? _ Hrest']; subst.
      cbn [app]. rewrite mt_below_slash.
      rewrite matched_orelse, orb_false_r.
      rewrite (star_dot_any_run false _
                 (fun t =>
                    Compiled.matched
                      (if List.length t
                          <? List.length ("/"%char :: rest ++ [dquote])
                       then RegExp.mt false
                              (RegExp.mkseq [RegExp.Chr dquote]) None t
                              Compiled.accept
                       else None))).
      + apply any_run_to_quote; [exact Hrest' |].
        cbn [List.length]. rewrite length_app. cbn. lia.
      + intros p s. destruct (_ <? _); [| reflexivity].
        destruct s as [|x s0]; reflexivity.
      + lia. }
  destruct (RegExp.mt false _ None _ Compiled.accept) as [out |] eqn:E;
    [| discriminate Hm].
  unfold RegExp.test, RegExp.exec. cbn [RegExp.ignoreCase RegExp.pattern].
  rewrite (search_at_start _ _ _ _ _ E). reflexivity.
Qed.

(** ** Where the pattern of a grant matches *)

Lemma any_run_split span (next : str -> bool) (u : str) :
  Spec.any_run span next u = true ->
  exists run rest,
    u = run ++ rest /\ forallb span run = true /\ next rest = true.
Proof.
  induction u as [|x u IH]; cbn [Spec.any_run]; intros H.
  - rewrite orb_false_r in H. exists [], []. repeat split. exact H.
  - apply orb_true_iff in H. destruct H as [H | H].
    + exists [], (x :: u). repeat split. exact H.
    + apply andb_true_iff in H. destruct H as [Hx H].
      destruct (IH H) as (run & rest & -> & Hrun & Hnext).
      exists (x :: run), rest. repeat split; [| exact Hnext].
      cbn [forallb]. rewrite Hx, Hrun. reflexivity.
Qed.

Lemma any_run_intro span (next : str -> bool) (run rest : str) :
  forallb span run = true -> next rest = true ->
  Spec.any_run span next (run ++ rest) = true.
Proof.
  intros Hrun Hnext. induction run as [|x run IH]; cbn [app].
  - destruct rest; cbn [Spec.any_run]; rewrite Hnext; reflexivity.
  - cbn [forallb] in Hrun. apply andb_true_iff in Hrun.
    destruct Hrun as [Hx Hrun]. cbn [Spec.any_run].
    rewrite Hx, (IH Hrun). apply orb_true_r.
Qed.

(** The closing quote, as the continuation of the star sees it. *)
Lemma quote_next (n : nat) (p : option ascii) (s : str) :
  Compiled.matched
    (if List.length s <? n
     then RegExp.mt false (RegExp.mkseq [RegExp.Chr dquote]) p s
            Compiled.accept
     else None)
  = ((List.length s <? n)
     && match s with c :: _ => Ascii.eqb dquote c | [] => false end)%bool.
Proof.
  destruct (List.length s <? n); [| reflexivity].
  destruct s as [|c s']; [reflexivity |].
  unfold RegExp.mkseq. cbn [fold_right RegExp.mt andb].
  unfold RegExp.chr_eq. destruct (Ascii.eqb dquote c); reflexivity.
Qed.

(** The end of the pattern of a grant matches exactly the texts that
    close the path. *)
Lemma below_closes prev (s : str) :
  Compiled.matched
    (RegExp.mt false (RegExp.mkseq [Compiled.below; RegExp.Chr dquote])
       prev s Compiled.accept) = true
  <-> Notions.closes_path s.
Proof.
  unfold Notions.closes_path.
  destruct s as [|c t].
  - split; [discriminate |].
    intros [(after & H) | (run & after & H & _)]; discriminate.
  - destruct (Ascii.eqb_spec "/" c) as [<- | Hslash].
    + rewrite mt_below_slash, matched_orelse, orb_false_r.
      rewrite (star_dot_any_run false _
                 (fun s =>
                    ((List.length s <? List.length ("/"%char :: t))
                     && match s with
                        | c :: _ => Ascii.eqb dquote c
                        | [] => false
                        end)%bool))
        by (first [intros p s; apply quote_next | lia]).
      split.
      * intros H. right.
        destruct (any_run_split _ _ _ H) as (run & rest & -> & Hrun & Hn).
        apply andb_true_iff in Hn. destruct Hn as [_ Hn].
        destruct rest as [|d after]; [discriminate |].
        apply Ascii.eqb_eq in Hn. subst d.
        exists run, after. split; [reflexivity | exact Hrun].
      * intros [(after & H) | (run & after & H & Hrun)]; [discriminate |].
        injection H as ->.
        apply any_run_intro; [exact Hrun |].
        apply andb_true_iff. split; [| apply Ascii.eqb_refl].
        apply Nat.ltb_lt. cbn [List.length]. rewrite length_app.
        cbn [List.length]. lia.
    + destruct (Ascii.eqb_spec dquote c) as [<- | Hquote].
      * split; [intros _ | reflexivity]. left. exists t. reflexivity.
      * split.
        -- unfold Compiled.below, RegExp.mkseq.
           cbn [fold_right RegExp.mt]. unfold RegExp.chr_eq.
           destruct (Ascii.eqb_spec "/" c) as [E | _]; [contradiction |].
           destruct (Ascii.eqb_spec dquote c) as [E | _]; [contradiction |].
           discriminate.
        -- intros [(after & H) | (run & after & H & _)];
             injection H as Hc _; exfalso;
             [apply Hquote | apply Hslash]; symmetry; exact Hc.
Qed.

(** A match at some place of the text is found by the search. *)
Lemma search_at_place (ic : bool) (r : RegExp.regex) (s : str) :
  (forall prev,
      Compiled.matched (RegExp.mt ic r prev s Compiled.accept) = true) ->
  forall before prev,
    Compiled.matched (RegExp.search ic r prev (before ++ s)) = true.
Proof.
  intros H. induction before as [|x before IH]; intros prev; cbn [app].
  - specialize (H prev).
    destruct s; cbn [RegExp.search]; fold Compiled.accept;
      destruct (RegExp.mt ic r prev _ Compiled.accept);
      first [reflexivity | discriminate].
  - cbn [RegExp.search]. fold Compiled.accept.
    destruct (RegExp.mt ic r prev _ Compiled.accept); [reflexivity |].
    apply IH.
Qed.

(** The pattern of the grant of [P] matches a text exactly where the
    text holds the key, [P], and what closes the path. *)
Lemma grant_matches_iff (src P text : str) :
  RegExp.test (RegExp.mkRegExp src false (Compiled.grant_regex P)) text = true
  <-> exists before tail,
        text = before ++ Compiled.file_path_key ++ P ++ tail
        /\ Notions.closes_path tail.
Proof.
  unfold RegExp.test, RegExp.exec.
  cbn [RegExp.ignoreCase RegExp.pattern]. split.
  - destruct (RegExp.search false _ None text) as [m |] eqn:Hs;
      [| discriminate].
    intros _.
    destruct (search_finds _ _ _ _ _ Hs) as (i & prev & out & Hm).
    unfold Compiled.grant_regex in Hm.
    destruct (mt_literals _ _ _ _ _ _ Hm) as (s' & prev' & Hskip & Hm').
    exists (firstn i text), s'. split.
    + rewrite <- (firstn_skipn i text) at 1. rewrite Hskip.
      rewrite <- app_assoc. reflexivity.
    + apply (below_closes prev'). rewrite Hm'. reflexivity.
  - intros (before & tail & -> & Hclose).
    assert (Hm :
      Compiled.matched
        (RegExp.search false (Compiled.grant_regex P) None
           (before ++ (Compiled.file_path_key ++ P) ++ tail)) = true).
    { apply search_at_place. intros prev. unfold Compiled.grant_regex.
      destruct (mt_literals_consume (Compiled.file_path_key ++ P)
                  [Compiled.below; RegExp.Chr dquote] Compiled.accept
                  prev tail) as [prev' ->].
      apply below_closes. exact Hclose. }
    rewrite <- app_assoc in Hm.
    destruct (RegExp.search false _ None _); [reflexivity | discriminate].
Qed.

(** C10, the claim as stated fails.  The pattern is searched for in the
    whole text of the serialized arguments.  Both rules that [execute]
    adds for [/app/conductor] match arguments whose [file_path] is the
    sibling [/app/conductor2], when a nested object of the arguments has
    a member [file_path] that names [/app/conductor]. *)
Lemma sibling_granted_through_nested_member :
  map (fun re => RegExp.test re Notions.nested_arguments)
    (Examples.patterns_of
       (PlanMode.execute Examples.root Examples.accept_all
          Examples.conductor))
  = [true; true]
  /\ exists before after,
       Notions.nested_arguments
       = before
         ++ Json.member (lit "file_path") (lit "/app/conductor2") ++ after.
Proof.
  split; [vm_compute; reflexivity |].
  exists (lit "{"). eexists. unfold Notions.nested_arguments.
  reflexivity.
Qed.

(** C10, amended.  Take any rule that [execute] adds for a path
    parameter, and let [P] be the absolute path the parameter resolves
    to.  The pattern of the rule matches a text exactly where the text
    holds the key [file_path] in quotes, a colon, a quote and [P],
    followed by the closing quote or by a slash, a run of units other
    than line terminators and a quote: what follows [P] at a match is the
    closing quote or a slash.  The serialized arguments hold a path as
    [JSON.stringify] writes it: the key and the escaped value, both in
    quotes.  When the pattern matches such a member, the serialized value
    reads as [P] followed at once by a slash or by the closing quote.  So
    for every path [Q] that goes on after [P] with a unit other than a
    slash, as [P2] or [P-secrets] do, the pattern does not match the
    member that names [Q]. *)
Theorem sibling_paths_not_granted :
  forall cwd config this rule p,
    In (PlanMode.addPolicyRule rule)
      (snd (PlanMode.execute cwd config this)) ->
    PlanMode.path (PlanMode.params this) = Some p ->
    (forall text,
        RegExp.test (PlanMode.argsPattern rule) text = true
        <-> exists before tail,
              text
              = before ++ Compiled.file_path_key
                ++ NodePath.resolve cwd [PlanMode.getTargetDir config; p]
                ++ tail
              /\ Notions.closes_path tail)
    /\ (forall value,
           RegExp.test (PlanMode.argsPattern rule)
             (Json.member (lit "file_path") value) = true ->
           exists d tail,
             Json.escape value ++ [dquote]
             = NodePath.resolve cwd [PlanMode.getTargetDir config; p]
               ++ d :: tail
             /\ (d = "/"%char \/ d = dquote))
    /\ (forall c rest,
           c <> "/"%char ->
           RegExp.test (PlanMode.argsPattern rule)
             (Json.member (lit "file_path")
                (NodePath.resolve cwd [PlanMode.getTargetDir config; p]
                 ++ c :: rest))
           = false).
Proof.
  intros cwd config this rule p Hin Hp.
  destruct (execute_rules _ _ _ _ Hin) as (p' & Hp' & Hre & _).
  rewrite Hp in Hp'. injection Hp' as <-.
  rewrite Hre. split; [| split].
  - intros text. apply grant_matches_iff.
  - intros value. apply grant_match_shape.
  - intros c rest. apply grant_rejects_sibling.
Qed.

Lemma sibling_paths_not_granted_witness :
  RegExp.test (PlanMode.argsPattern Examples.conductor_write_rule)
    (Json.member (lit "file_path") (lit "/app/conductor-secrets"))
  = false
  /\ RegExp.test (PlanMode.argsPattern Examples.conductor_write_rule)
       Notions.nested_arguments
     = true.
Proof.
  pose proof (sibling_paths_not_granted Examples.root Examples.accept_all
                Examples.conductor Examples.conductor_write_rule
                (lit "conductor") (or_introl eq_refl) eq_refl)
    as (Hiff & _ & Hsibling).
  split.
  - apply (Hsibling "-"%char (lit "secrets")). discriminate.
  - apply (proj2 (Hiff Notions.nested_arguments)).
    exists (lit "{" ++ Json.member (lit "file_path") (lit "/app/conductor2")
            ++ lit "," ++ dquote :: lit "meta" ++ dquote :: lit ":{"),
      (dquote :: lit "}}").
    split; [reflexivity |].
    left. exists (lit "}}"). reflexivity.
Defined.

(** ** The scoped write grant: what [execute] adds *)

(** When the confirmation was not cancelled, the path is a non-empty
    string and the validation accepts the resolved path, [execute] adds
    one rule for each tool of the allow-list, in order, and then switches
    to PLAN mode; the pattern of each rule matches the serialized member
    [file_path] of the resolved path and of every path beneath it whose
    units are serialized as themselves. *)
Lemma execute_grants cwd config (this : PlanMode.EnterPlanModeInvocation) p :
  PlanMode.confirmationOutcome this <> Some PlanMode.Cancel ->
  PlanMode.path (PlanMode.params this) = Some p ->
  p <> [] ->
  truthy_opt
    (PlanMode.validatePathAccess config
       (NodePath.resolve cwd [PlanMode.getTargetDir config; p])) = false ->
  exists re,
    snd (PlanMode.execute cwd config this)
    = map (fun toolName =>
             PlanMode.addPolicyRule
               (PlanMode.mkRule toolName re PlanMode.ALLOW 80
                  [PlanMode.PLAN] (lit "PlanMode")))
        match PlanMode.allowed_tools (PlanMode.params this) with
        | Some l => l
        | None => [lit "write_file"; lit "replace"]
        end
      ++ [PlanMode.setApprovalMode PlanMode.PLAN]
    /\ forall v,
         Forall (fun c => Json.escape_char c = [c]) v ->
         v = NodePath.resolve cwd [PlanMode.getTargetDir config; p]
         \/ (exists rest,
                v = NodePath.resolve cwd [PlanMode.getTargetDir config; p]
                    ++ "/"%char :: rest) ->
         RegExp.test re (Json.member (lit "file_path") v) = true.
Proof.
  intros Hc Hp Hne Hv.
  eexists. split.
  - unfold PlanMode.execute. rewrite Hp.
    destruct p as [|c p']; [contradiction Hne; reflexivity |].
    cbn [truthy]. rewrite (grant_calls _ _ _ _ Hv).
    destruct (PlanMode.confirmationOutcome this) as [[| |] |];
      try reflexivity.
    contradiction Hc; reflexivity.
  - intros v Hplain Hshape. apply grant_matches_beneath; assumption.
Qed.

(** A path resolved in a process whose working directory is absolute is
    absolute. *)
Lemma gather_absolute (paths : list str) :
  forall acc,
    (exists p, In ("/"%char :: p) paths) ->
    snd (NodePath.gather paths acc) = true.
Proof.
  induction paths as [|q paths IH]; intros acc (p & Hin).
  - destruct Hin.
  - cbn [NodePath.gather]. destruct q as [|c q'].
    + destruct Hin as [Hq | Hin]; [discriminate |].
      apply IH. eauto.
    + destruct (Ascii.eqb_spec c NodePath.slash) as [-> | Hc];
        [reflexivity |].
      destruct Hin as [Hq | Hin].
      * injection Hq as Hq _. contradiction.
      * apply IH. eauto.
Qed.

Lemma resolve_absolute (cwd : str) (args : list str) :
  (exists d, cwd = "/"%char :: d) ->
  exists tail, NodePath.resolve cwd args = "/"%char :: tail.
Proof.
  intros [d ->]. unfold NodePath.resolve.
  pose proof (gather_absolute (rev args ++ ["/"%char :: d]) []) as H.
  destruct (NodePath.gather _ _) as [rp abs]. cbn [snd] in H.
  rewrite H.
  - eexists. reflexivity.
  - exists d. apply in_or_app. right. left. reflexivity.
Qed.

(** The first unit of a serialized text is a slash only if the first
    unit of the text is. *)
Lemma escape_starts_with_slash (v tail : str) :
  Json.escape v ++ [dquote] = "/"%char :: tail ->
  exists v', v = "/"%char :: v'.
Proof.
  destruct v as [|c v']; [discriminate |].
  cbn [Json.escape flat_map]. intros H.
  destruct (escape_char_cases c) as [(E & _) | [(-> & E) | (_ & t & E)]];
    rewrite E in H; injection H as H _.
  - subst c. eauto.
  - discriminate.
  - discriminate.
Qed.

(** In a process whose working directory is absolute, no rule that
    [execute] adds matches the serialized member [file_path] of a
    relative path. *)
Lemma relative_arguments_never_matched cwd config
    (this : PlanMode.EnterPlanModeInvocation) rule (relative : str) :
  (exists d, cwd = "/"%char :: d) ->
  In (PlanMode.addPolicyRule rule) (snd (PlanMode.execute cwd config this)) ->
  (forall v', relative <> "/"%char :: v') ->
  RegExp.test (PlanMode.argsPattern rule)
    (Json.member (lit "file_path") relative) = false.
Proof.
  intros Hcwd Hin Hrel.
  destruct (execute_rules _ _ _ _ Hin) as (p & _ & Hre & _).
  rewrite Hre.
  destruct (RegExp.test _ _) eqn:Ht; [exfalso | reflexivity].
  destruct (grant_match_shape _ _ _ Ht) as (d & tail & Heq & _).
  destruct (resolve_absolute cwd [PlanMode.getTargetDir config; p] Hcwd)
    as [t Habs].
  rewrite Habs in Heq. cbn [app] in Heq.
  destruct (escape_starts_with_slash _ _ Heq) as [v' Hv'].
  exact (Hrel v' Hv').
Qed.

(** ** The scoped write grant: relative arguments *)

(** C3, at the input of the test of the repository.  With the target
    directory [/app] and the path [conductor], [execute] adds the rule
    for [write_file] and the rule for [replace] and then switches the
    mode.  The pattern of both rules is built from the resolved path
    [/app/conductor]: it matches the serialized argument that names
    [/app/conductor/product.md], and it does not match the one that names
    the relative [conductor/product.md], which the test expects it to
    match. *)
Theorem relative_argument_not_matched :
  exists write_rule replace_rule,
    PlanMode.execute Examples.root Examples.accept_all Examples.conductor
    = (Return (PlanMode.mkResult
                 (lit "Switching to Plan mode. Write access enabled for: conductor")
                 (lit "Switching to Plan mode (Allowed path: conductor)")),
       [PlanMode.addPolicyRule write_rule;
        PlanMode.addPolicyRule replace_rule;
        PlanMode.setApprovalMode PlanMode.PLAN])
    /\ PlanMode.toolName write_rule = lit "write_file"
    /\ PlanMode.toolName replace_rule = lit "replace"
    /\ PlanMode.argsPattern write_rule = PlanMode.argsPattern replace_rule
    /\ RegExp.pattern (PlanMode.argsPattern write_rule)
       = Compiled.grant_regex (lit "/app/conductor")
    /\ RegExp.test (PlanMode.argsPattern write_rule)
         (Json.member (lit "file_path") (lit "/app/conductor/product.md"))
       = true
    /\ RegExp.test (PlanMode.argsPattern write_rule)
         (Json.member (lit "file_path") (lit "conductor/product.md"))
       = false.
Proof.
  eexists. eexists.
  split; [vm_compute; reflexivity |].
  repeat split; vm_compute; reflexivity.
Qed.

(** * The cases of the test suites of the repository

    The model, run on the inputs of the tests that come with the
    sources. *)

(** Every pattern written as a literal in the overlay module
    compiles. *)
Lemma overlay_patterns_compile :
  Forall (fun src => exists re, RegExp.create src true = Return re)
    OverlayDetection.OVERLAY_PATTERN_SOURCES
  /\ Forall (fun src => exists re, RegExp.create (lit src) true = Return re)
       ["\bclose\b"; "\bdismiss\b"; "\bcancel\b"; "\bgot\s*it\b";
        "\bno\s*thanks\b"; "\baccept\b"; "\bI\s*agree\b";
        "\bcontinue\b"]%string.
Proof.
  split; repeat constructor; eexists; vm_compute; reflexivity.
Qed.

Example execute_without_params :
  PlanMode.execute Examples.root Examples.accept_all Examples.no_params
  = (Return (PlanMode.mkResult (lit "Switching to Plan mode.")
               (lit "Switching to Plan mode")),
     [PlanMode.setApprovalMode PlanMode.PLAN]).
Proof. reflexivity. Qed.

Example execute_with_reason :
  PlanMode.execute Examples.root Examples.accept_all Examples.with_reason
  = (Return (PlanMode.mkResult (lit "Switching to Plan mode.")
               (lit "Switching to Plan mode: Design new database schema")),
     [PlanMode.setApprovalMode PlanMode.PLAN]).
Proof. reflexivity. Qed.

Example execute_directory_grant :
  map (fun re =>
         (RegExp.test re
            (Json.member (lit "file_path")
               (lit "/app/conductor/tracks/feature-1/plan.md")),
          RegExp.test re
            (Json.member (lit "file_path")
               (lit "/app/conductor/tracks/feature-1"))))
    (Examples.patterns_of
       (PlanMode.execute Examples.root Examples.accept_all
          Examples.feature_1))
  = [(true, true); (true, true)].
Proof. vm_compute. reflexivity. Qed.

Example execute_refused_path :
  PlanMode.execute Examples.root Examples.deny_all Examples.forbidden
  = (Return (PlanMode.mkResult (lit "Error: Access denied")
               (lit "Error: Invalid path")),
     []).
Proof. reflexivity. Qed.

Example url_guard_cases :
  map (fun url => BrowserSecurity.isUrlAllowed (lit url) Examples.unrestricted)
    ["https://example.com"; "https://random-site.org/page";
     "file:///etc/passwd"; "javascript:alert(1)";
     "chrome://settings/passwords"; "about:blank"]%string
  = [Return true; Return true; Return false; Return false; Return false;
     Return true]
  /\ map (fun url =>
            BrowserSecurity.isUrlAllowed (lit url) Examples.restricted)
       ["https://example.com/page"; "https://sub.test.org/path";
        "https://blocked.com"]%string
     = [Return true; Return true; Return false].
Proof. split; vm_compute; reflexivity. Qed.

Example sensitive_action_cases :
  map (fun name => BrowserSecurity.isSensitiveAction (lit name))
    ["fill"; "fill_form"; "submit"; "upload_file"; "click"; "navigate";
     "take_snapshot"]%string
  = [true; true; true; true; false; false; false].
Proof. reflexivity. Qed.

Example rate_limiter_cases :
  fst (BrowserSecurity.calls BrowserSecurity.recordAction [0; 0; 0; 60001]%Z
         Examples.two_a_minute)
  = [true; true; false; true]
  /\ fst (BrowserSecurity.recordNavigation 0%Z
            (snd (BrowserSecurity.recordAction 0%Z
                    (BrowserSecurity.newLimiter
                       (BrowserSecurity.mkLimits 1 1))))) = true
  /\ fst (BrowserSecurity.recordAction 0%Z
            (BrowserSecurity.reset
               (snd (BrowserSecurity.calls BrowserSecurity.recordAction
                       [0; 0]%Z Examples.two_a_minute)))) = true.
Proof. repeat split; reflexivity. Qed.

Example overlay_cases :
  OverlayDetection.hasOverlay
    (OverlayDetection.detectBlockingOverlays Examples.dialog_snapshot) = true
  /\ OverlayDetection.overlayInfo
       (OverlayDetection.detectBlockingOverlays Examples.dialog_snapshot)
     = lit "Detected overlay patterns: role=" ++ OverlayDetection.quoted "dialog"
  /\ OverlayDetection.suggestedAction
       (OverlayDetection.detectBlockingOverlays Examples.dialog_snapshot)
     = lit "Found potential close buttons: Close. Click one to dismiss the overlay."
  /\ OverlayDetection.detectBlockingOverlays Examples.clean_snapshot
     = OverlayDetection.mkDetection false [] []
  /\ OverlayDetection.wasActionBlockedByOverlay Examples.dialog_snapshot
       Examples.dialog_snapshot = true.
Proof. repeat split; vm_compute; reflexivity. Qed.

Example navigate_and_click :
  BrowserTools.navigate Z str Examples.quiet (lit "https://google.com")
    (lit "about:blank")
  = Return (BrowserTools.mkResult
              (Some (lit "Navigated to https://google.com")) None
              (Some (lit "https://google.com")),
            lit "https://google.com")
  /\ BrowserTools.clickAt Z Examples.scaleZ Examples.showZ str Examples.quiet
       500%Z 500%Z (lit "https://example.com")
     = Return (BrowserTools.mkResult (Some (lit "Clicked")) None
                 (Some (lit "https://example.com")),
               lit "https://example.com").
Proof. split; reflexivity. Qed.

(** A click that the driver refuses leaves [clickAt] as a thrown
    error. *)
Example refused_click_is_thrown :
  BrowserTools.clickAt Z Examples.scaleZ Examples.showZ str
    (Notions.failing
       (fun call _ =>
          match call with Notions.MouseClick _ _ => true | _ => false end)
       (lit "Target closed") Examples.quiet)
    500%Z 500%Z (lit "https://example.com")
  = Throw (lit "Target closed").
Proof. reflexivity. Qed.

(** The comment in [execute] speaks of escaping backslashes twice, for
    the match against JSON; the path is escaped once.  The rules added
    for a path with a backslash therefore do not match the serialized
    member that names that very path. *)
Example backslash_in_path_not_matched :
  map (fun re =>
         RegExp.test re
           (Json.member (lit "file_path") (lit "/app/notes\plan.md")))
    (Examples.patterns_of
       (PlanMode.execute Examples.root Examples.accept_all
          Examples.backslash_name))
  = [false; false].
Proof. vm_compute. reflexivity. Qed.

(** * Further properties of the code *)

(** ** The rate limiter: what a session can do *)

Local Open Scope Z_scope.

Lemma filter_young_later (now later : Z) (ts : list Z) :
  now <= later ->
  filter (Window.young later) (filter (Window.young now) ts)
  = filter (Window.young later) ts.
Proof.
  intros Hle. induction ts as [|x ts IH]; cbn [filter]; [reflexivity |].
  destruct (Window.young now x) eqn:En;
    destruct (Window.young later x) eqn:El; cbn [filter];
    rewrite ?El, IH; try reflexivity.
  unfold Window.young in En, El.
  apply Z.ltb_ge in En. apply Z.ltb_lt in El. lia.
Qed.

Lemma record_in_young limit now (ts : list Z) :
  Window.record_in limit now ts
  = if limit <=? Z.of_nat (List.length (filter (Window.young now) ts))
    then (false, filter (Window.young now) ts)
    else (true, filter (Window.young now) ts ++ [now]).
Proof. reflexivity. Qed.

Lemma sorted_snoc (times : list Z) (x : Z) :
  StronglySorted Z.le (times ++ [x]) ->
  StronglySorted Z.le times /\ Forall (fun y => y <= x) times.
Proof.
  induction times as [|y times IH]; cbn; intros Hs.
  - split; constructor.
  - inversion Hs as [|? ? Hs1 Hy]; subst.
    destruct (IH Hs1) as [H1 H2].
    apply Forall_app in Hy. destruct Hy as [Hy Hyx].
    inversion Hyx; subst.
    split; constructor; assumption.
Qed.

Lemma filter_length_mono {A : Type} (f g : A -> bool) (l : list A) :
  (forall a, In a l -> f a = true -> g a = true) ->
  (List.length (filter f l) <= List.length (filter g l))%nat.
Proof.
  induction l as [|x l IH]; intros H; cbn [filter]; [lia |].
  assert (IH' := IH (fun a Ha => H a (or_intror Ha))).
  destruct (f x) eqn:Ef.
  - rewrite (H x (or_introl eq_refl) Ef). cbn [List.length]. lia.
  - destruct (g x); cbn [List.length]; lia.
Qed.

Lemma run_in_app limit (a b : list Z) :
  forall ts,
    Window.run_in limit (a ++ b) ts
    = (fst (Window.run_in limit a ts)
       ++ fst (Window.run_in limit b (snd (Window.run_in limit a ts))),
       snd (Window.run_in limit b (snd (Window.run_in limit a ts)))).
Proof.
  induction a as [|x a IH]; intros ts.
  - cbn. destruct (Window.run_in limit b ts); reflexivity.
  - cbn [app Window.run_in].
    destruct (Window.record_in limit x ts) as [ok ts'].
    rewrite IH.
    destruct (Window.run_in limit a ts') as [oks ts''].
    reflexivity.
Qed.

Lemma run_in_length limit (times : list Z) :
  forall ts,
    List.length (fst (Window.run_in limit times ts)) = List.length times.
Proof.
  induction times as [|x times IH]; intros ts; [reflexivity |].
  cbn [Window.run_in].
  destruct (Window.record_in limit x ts) as [ok ts'].
  specialize (IH ts').
  destruct (Window.run_in limit times ts') as [oks ts''].
  cbn in *. rewrite IH. reflexivity.
Qed.

Lemma combine_append {A B : Type} (a b : list A) :
  forall (oa ob : list B),
    List.length a = List.length oa ->
    combine (a ++ b) (oa ++ ob) = combine a oa ++ combine b ob.
Proof.
  induction a as [|x a IH]; intros [|o oa] ob Hlen; cbn in *;
    try discriminate; [reflexivity |].
  rewrite IH by lia. reflexivity.
Qed.

Lemma accepted_app (a b : list Z) (oa ob : list bool) :
  List.length a = List.length oa ->
  Notions.accepted (a ++ b) (oa ++ ob)
  = Notions.accepted a oa ++ Notions.accepted b ob.
Proof.
  intros Hlen. unfold Notions.accepted.
  rewrite combine_append by exact Hlen.
  rewrite filter_app, map_app. reflexivity.
Qed.

(** Under a clock that does not run backwards, what a later call keeps
    of the window is what is young then among the window the run started
    from and the moments it accepted. *)
Lemma run_in_keeps_accepted limit (times : list Z) :
  forall ts0 later,
    Forall (fun x => x <= later) times ->
    StronglySorted Z.le times ->
    filter (Window.young later) (snd (Window.run_in limit times ts0))
    = filter (Window.young later)
        (ts0 ++ Notions.accepted times (fst (Window.run_in limit times ts0))).
Proof.
  induction times as [|x times IH] using rev_ind; intros ts0 later Hle Hs.
  - cbn. rewrite app_nil_r. reflexivity.
  - apply Forall_app in Hle. destruct Hle as [Hle Hx].
    inversion Hx as [|? ? Hxl _]; subst.
    destruct (sorted_snoc times x Hs) as [Hs' Hbelow].
    rewrite run_in_app. cbn [fst snd].
    rewrite accepted_app by (symmetry; apply run_in_length).
    specialize (IH ts0 x Hbelow Hs').
    set (S' := snd (Window.run_in limit times ts0)) in *.
    set (A' := Notions.accepted times (fst (Window.run_in limit times ts0)))
      in *.
    cbn [Window.run_in]. rewrite record_in_young.
    destruct (limit <=? _); cbn [fst snd Notions.accepted combine filter map].
    + rewrite app_nil_r.
      rewrite <- (filter_young_later x later (ts0 ++ A')) by exact Hxl.
      rewrite <- IH. reflexivity.
    + rewrite app_assoc.
      rewrite (filter_app (Window.young later) (ts0 ++ A')).
      rewrite (filter_app (Window.young later) (filter (Window.young x) S')).
      rewrite <- (filter_young_later x later (ts0 ++ A')) by exact Hxl.
      rewrite <- IH. reflexivity.
Qed.

(** The guarantee of one window: under such a clock, whatever the window
    held at the start, the calls accepted within any one minute are at
    most as many as the limit. *)
Lemma window_rate limit (times : list Z) :
  forall ts0 t,
    StronglySorted Z.le times ->
    Z.of_nat
      (List.length
         (filter (Notions.within t)
            (Notions.accepted times (fst (Window.run_in limit times ts0)))))
    <= Z.max 0 limit.
Proof.
  induction times as [|x times IH] using rev_ind; intros ts0 t Hs.
  - cbn. lia.
  - destruct (sorted_snoc times x Hs) as [Hs' Hbelow].
    rewrite run_in_app. cbn [fst snd].
    rewrite accepted_app by (symmetry; apply run_in_length).
    rewrite filter_app, length_app.
    pose proof (IH ts0 t Hs') as Hold.
    pose proof (run_in_keeps_accepted limit times ts0 x Hbelow Hs') as Hkeep.
    set (S' := snd (Window.run_in limit times ts0)) in *.
    set (A' := Notions.accepted times (fst (Window.run_in limit times ts0)))
      in *.
    cbn [Window.run_in]. rewrite record_in_young.
    destruct (Z.leb_spec limit
                (Z.of_nat (List.length (filter (Window.young x) S'))))
      as [Hfull | Hroom];
      cbn [fst snd Notions.accepted combine filter map List.length].
    + lia.
    + destruct (Notions.within t x) eqn:Hw; cbn [List.length]; [| lia].
      unfold Notions.within in Hw. apply andb_true_iff in Hw.
      destruct Hw as [Hw1 Hw2].
      apply Z.ltb_lt in Hw1. apply Z.leb_le in Hw2.
      assert (Hcount :
        (List.length (filter (Notions.within t) A')
         <= List.length (filter (Window.young x) S'))%nat).
      { rewrite Hkeep, filter_app, length_app.
        pose proof (filter_length_mono (Notions.within t) (Window.young x) A')
          as Hm.
        assert (Hm' : (List.length (filter (Notions.within t) A')
                       <= List.length (filter (Window.young x) A'))%nat).
        { apply Hm. intros a _ Ha. unfold Notions.within in Ha.
          apply andb_true_iff in Ha. destruct Ha as [Ha _].
          apply Z.ltb_lt in Ha. unfold Window.young.
          apply Z.ltb_lt. lia. }
        lia. }
      lia.
Qed.

(** X1.  The guarantee a caller relies on.  When the clock does not run
    backwards, then from any state of the limiter and for any moment
    [t], fewer or as many actions are accepted within the minute that
    ends at [t] as [maxActionsPerMinute] allows, and likewise for
    navigations and [maxNavigationsPerMinute]. *)
Theorem accepted_calls_within_limits
    (times : list Z) (this : BrowserSecurity.ActionRateLimiter) (t : Z) :
  StronglySorted Z.le times ->
  Z.of_nat
    (List.length
       (filter (Notions.within t)
          (Notions.accepted times
             (fst (BrowserSecurity.calls BrowserSecurity.recordAction
                     times this)))))
  <= Z.max 0 (BrowserSecurity.maxActionsPerMinute
                (BrowserSecurity.limits this))
  /\ Z.of_nat
       (List.length
          (filter (Notions.within t)
             (Notions.accepted times
                (fst (BrowserSecurity.calls BrowserSecurity.recordNavigation
                        times this)))))
     <= Z.max 0 (BrowserSecurity.maxNavigationsPerMinute
                   (BrowserSecurity.limits this)).
Proof.
  intros Hs. rewrite calls_recordAction_window, calls_recordNavigation_window.
  cbn [fst]. split; apply window_rate; exact Hs.
Qed.

Lemma accepted_calls_within_limits_witness :
  StronglySorted Z.le [0; 10; 20; 70000]
  /\ Z.of_nat
       (List.length
          (filter (Notions.within 60000)
             (Notions.accepted [0; 10; 20; 70000]
                (fst (BrowserSecurity.calls BrowserSecurity.recordAction
                        [0; 10; 20; 70000]
                        (BrowserSecurity.newLimiter
                           (BrowserSecurity.mkLimits 2 1)))))))
     <= 2.
Proof.
  assert (Hs : StronglySorted Z.le [0; 10; 20; 70000]).
  { repeat (constructor; [| repeat (constructor; try lia)]). constructor. }
  split; [exact Hs |].
  exact (proj1 (accepted_calls_within_limits [0; 10; 20; 70000]
                  (BrowserSecurity.newLimiter (BrowserSecurity.mkLimits 2 1))
                  60000 Hs)).
Defined.

(** The condition on the clock is needed: with a clock that jumps back,
    three actions are accepted within one minute under a limit of two. *)
Example clock_running_backwards :
  Notions.accepted [0; 1; 70000; 2]
    (fst (BrowserSecurity.calls BrowserSecurity.recordAction [0; 1; 70000; 2]
            (BrowserSecurity.newLimiter (BrowserSecurity.mkLimits 2 1))))
  = [0; 1; 70000; 2].
Proof. reflexivity. Qed.

Lemma window_bound limit now (ts : list Z) :
  Z.of_nat (List.length ts) <= Z.max 0 limit ->
  Z.of_nat (List.length (snd (Window.record_in limit now ts)))
  <= Z.max 0 limit.
Proof.
  intros H. rewrite record_in_young.
  pose proof (filter_length_le (Window.young now) ts) as Hf.
  destruct (Z.leb_spec limit
              (Z.of_nat (List.length (filter (Window.young now) ts))));
    cbn [snd]; [lia |].
  rewrite length_app. cbn [List.length]. lia.
Qed.

(** X2.  For limits that are integers, as the embedding takes them:
    whatever a session does with a new limiter (actions, navigations and
    resets at any moments, in any order), the list of time stamps of the
    actions never holds more entries than the greater of zero and
    [maxActionsPerMinute], the list of the navigations never more than
    the greater of zero and [maxNavigationsPerMinute], and the limits stay
    those the limiter was made with. *)
Theorem session_windows_bounded
    (l : BrowserSecurity.RateLimitConfig)
    (cs : list BrowserSecurity.LimiterCall) :
  let this := BrowserSecurity.session cs (BrowserSecurity.newLimiter l) in
  Z.of_nat (List.length (BrowserSecurity.actionTimestamps this))
  <= Z.max 0 (BrowserSecurity.maxActionsPerMinute l)
  /\ Z.of_nat (List.length (BrowserSecurity.navigationTimestamps this))
     <= Z.max 0 (BrowserSecurity.maxNavigationsPerMinute l)
  /\ BrowserSecurity.limits this = l.
Proof.
  cbv zeta. unfold BrowserSecurity.session.
  assert (Hinit :
    Z.of_nat (List.length (BrowserSecurity.actionTimestamps
                             (BrowserSecurity.newLimiter l)))
    <= Z.max 0 (BrowserSecurity.maxActionsPerMinute l)
    /\ Z.of_nat (List.length (BrowserSecurity.navigationTimestamps
                                (BrowserSecurity.newLimiter l)))
       <= Z.max 0 (BrowserSecurity.maxNavigationsPerMinute l)
    /\ BrowserSecurity.limits (BrowserSecurity.newLimiter l) = l)
    by (repeat split; apply Z.le_max_l).
  revert Hinit. generalize (BrowserSecurity.newLimiter l) as this.
  induction cs as [|c cs IH]; intros this Hinit; [exact Hinit |].
  cbn [fold_left]. apply IH. destruct Hinit as (Ha & Hn & Hl).
  destruct c as [now | now |]; cbn [BrowserSecurity.perform].
  - rewrite recordAction_window. cbn [snd BrowserSecurity.actionTimestamps
      BrowserSecurity.navigationTimestamps BrowserSecurity.limits].
    rewrite Hl. repeat split; try assumption.
    apply window_bound. exact Ha.
  - rewrite recordNavigation_window. cbn [snd BrowserSecurity.actionTimestamps
      BrowserSecurity.navigationTimestamps BrowserSecurity.limits].
    rewrite Hl. repeat split; try assumption.
    apply window_bound. exact Hn.
  - repeat split; try apply Z.le_max_l. exact Hl.
Qed.


Lemma session_actions (cs : list BrowserSecurity.LimiterCall) :
  forall a b : BrowserSecurity.ActionRateLimiter,
    BrowserSecurity.actionTimestamps a = BrowserSecurity.actionTimestamps b ->
    BrowserSecurity.limits a = BrowserSecurity.limits b ->
    BrowserSecurity.actionTimestamps (BrowserSecurity.session cs a)
    = BrowserSecurity.actionTimestamps
        (BrowserSecurity.session (filter Notions.on_actions cs) b)
    /\ BrowserSecurity.limits (BrowserSecurity.session cs a)
       = BrowserSecurity.limits
           (BrowserSecurity.session (filter Notions.on_actions cs) b).
Proof.
  unfold BrowserSecurity.session.
  induction cs as [|c cs IH]; intros a b Ha Hl; [split; assumption |].
  destruct c as [now | now |];
    cbn [filter Notions.on_actions fold_left BrowserSecurity.perform];
    apply IH;
    rewrite ?recordAction_window, ?recordNavigation_window;
    cbn [snd BrowserSecurity.actionTimestamps BrowserSecurity.limits
           BrowserSecurity.reset];
    rewrite ?Ha, ?Hl; try reflexivity; try assumption.
Qed.

Lemma session_navigations (cs : list BrowserSecurity.LimiterCall) :
  forall a b : BrowserSecurity.ActionRateLimiter,
    BrowserSecurity.navigationTimestamps a
    = BrowserSecurity.navigationTimestamps b ->
    BrowserSecurity.limits a = BrowserSecurity.limits b ->
    BrowserSecurity.navigationTimestamps (BrowserSecurity.session cs a)
    = BrowserSecurity.navigationTimestamps
        (BrowserSecurity.session (filter Notions.on_navigations cs) b)
    /\ BrowserSecurity.limits (BrowserSecurity.session cs a)
       = BrowserSecurity.limits
           (BrowserSecurity.session (filter Notions.on_navigations cs) b).
Proof.
  unfold BrowserSecurity.session.
  induction cs as [|c cs IH]; intros a b Ha Hl; [split; assumption |].
  destruct c as [now | now |];
    cbn [filter Notions.on_navigations fold_left BrowserSecurity.perform];
    apply IH;
    rewrite ?recordAction_window, ?recordNavigation_window;
    cbn [snd BrowserSecurity.navigationTimestamps BrowserSecurity.limits
           BrowserSecurity.reset];
    rewrite ?Ha, ?Hl; try reflexivity; try assumption.
Qed.

(** X3.  The two budgets are separate: the answer to an action after a
    session is the answer after the same session with its navigations
    left out, and the answer to a navigation is the answer after the
    session with its actions left out. *)
Theorem budgets_are_separate
    (cs : list BrowserSecurity.LimiterCall)
    (this : BrowserSecurity.ActionRateLimiter) (now : Z) :
  fst (BrowserSecurity.recordAction now (BrowserSecurity.session cs this))
  = fst (BrowserSecurity.recordAction now
           (BrowserSecurity.session (filter Notions.on_actions cs) this))
  /\ fst (BrowserSecurity.recordNavigation now
            (BrowserSecurity.session cs this))
     = fst (BrowserSecurity.recordNavigation now
              (BrowserSecurity.session (filter Notions.on_navigations cs)
                 this)).
Proof.
  destruct (session_actions cs this this eq_refl eq_refl) as [Ha Hl].
  destruct (session_navigations cs this this eq_refl eq_refl) as [Hn Hl'].
  rewrite !recordAction_window, !recordNavigation_window. cbn [fst].
  split; [rewrite Ha, Hl | rewrite Hn, Hl']; reflexivity.
Qed.

Lemma run_in_room limit (times : list Z) :
  forall ts,
    Z.of_nat (List.length ts + List.length times) <= limit ->
    fst (Window.run_in limit times ts)
    = repeat true (List.length times).
Proof.
  induction times as [|now times IH]; intros ts H; [reflexivity |].
  cbn [Window.run_in]. rewrite record_in_young.
  pose proof (filter_length_le (Window.young now) ts) as Hf.
  cbn [List.length] in H.
  destruct (Z.leb_spec limit
              (Z.of_nat (List.length (filter (Window.young now) ts))));
    [lia |].
  specialize (IH (filter (Window.young now) ts ++ [now])).
  destruct (Window.run_in limit times _) as [oks ts''].
  cbn [fst] in *. cbn [List.length repeat]. f_equal. apply IH.
  rewrite length_app. cbn [List.length]. lia.
Qed.

(** X4.  [reset] gives the whole budget back: after it, from any state,
    as many actions as [maxActionsPerMinute] are accepted and as many
    navigations as [maxNavigationsPerMinute], at whatever moments they
    come. *)
Theorem reset_restores_budget
    (this : BrowserSecurity.ActionRateLimiter) (actions navigations : list Z) :
  Z.of_nat (List.length actions)
  <= BrowserSecurity.maxActionsPerMinute (BrowserSecurity.limits this) ->
  Z.of_nat (List.length navigations)
  <= BrowserSecurity.maxNavigationsPerMinute (BrowserSecurity.limits this) ->
  fst (BrowserSecurity.calls BrowserSecurity.recordAction actions
         (BrowserSecurity.reset this))
  = repeat true (List.length actions)
  /\ fst (BrowserSecurity.calls BrowserSecurity.recordNavigation navigations
            (BrowserSecurity.reset this))
     = repeat true (List.length navigations).
Proof.
  intros Ha Hn.
  rewrite calls_recordAction_window, calls_recordNavigation_window.
  cbn [fst BrowserSecurity.reset BrowserSecurity.actionTimestamps
         BrowserSecurity.navigationTimestamps BrowserSecurity.limits].
  split; apply run_in_room; cbn [List.length Nat.add]; assumption.
Qed.

Lemma reset_restores_budget_witness :
  fst (BrowserSecurity.calls BrowserSecurity.recordAction [5; 3]
         (BrowserSecurity.reset
            (BrowserSecurity.mkLimiter [1; 2] [2]
               (BrowserSecurity.mkLimits 2 1))))
  = [true; true]
  /\ fst (BrowserSecurity.calls BrowserSecurity.recordNavigation [4]
            (BrowserSecurity.reset
               (BrowserSecurity.mkLimiter [1; 2] [2]
                  (BrowserSecurity.mkLimits 2 1))))
     = [true].
Proof.
  apply (reset_restores_budget
           (BrowserSecurity.mkLimiter [1; 2] [2]
              (BrowserSecurity.mkLimits 2 1)) [5; 3] [4]);
    cbn; lia.
Defined.

(** X5.  A refused call costs nothing: when the clock does not run
    backwards, a call that follows a refused call of the same kind is
    answered, and leaves the limiter, as if the refused call had not been
    made. *)
Theorem refused_call_costs_nothing
    (this : BrowserSecurity.ActionRateLimiter) (t t' : Z) :
  t <= t' ->
  (fst (BrowserSecurity.recordAction t this) = false ->
   BrowserSecurity.recordAction t' (snd (BrowserSecurity.recordAction t this))
   = BrowserSecurity.recordAction t' this)
  /\ (fst (BrowserSecurity.recordNavigation t this) = false ->
      BrowserSecurity.recordNavigation t'
        (snd (BrowserSecurity.recordNavigation t this))
      = BrowserSecurity.recordNavigation t' this).
Proof.
  intros Hle.
  split; intros Hno;
    [ rewrite (recordAction_window t) in *
    | rewrite (recordNavigation_window t) in * ];
    cbn [fst snd] in *;
    [ rewrite !(recordAction_window t')
    | rewrite !(recordNavigation_window t') ];
    cbn [BrowserSecurity.actionTimestamps BrowserSecurity.navigationTimestamps
           BrowserSecurity.limits];
    rewrite (record_in_young _ t) in *;
    destruct (_ <=? Z.of_nat (List.length (filter (Window.young t) _)));
    try discriminate; cbn [snd];
    rewrite !(record_in_young _ t'), filter_young_later by exact Hle;
    reflexivity.
Qed.

Lemma refused_call_costs_nothing_witness :
  let this :=
    BrowserSecurity.mkLimiter [10] [20] (BrowserSecurity.mkLimits 1 1) in
  BrowserSecurity.recordAction 60005 (snd (BrowserSecurity.recordAction 30 this))
  = BrowserSecurity.recordAction 60005 this
  /\ BrowserSecurity.recordNavigation 60005
       (snd (BrowserSecurity.recordNavigation 30 this))
     = BrowserSecurity.recordNavigation 60005 this.
Proof.
  cbv zeta.
  pose proof (refused_call_costs_nothing
                (BrowserSecurity.mkLimiter [10] [20]
                   (BrowserSecurity.mkLimits 1 1)) 30 60005
                ltac:(lia)) as [Ha Hn].
  split; [apply Ha | apply Hn]; reflexivity.
Defined.

(** ** Sensitive actions *)

Local Close Scope Z_scope.

Lemma includes_iff (s p : str) :
  includes s p = true <-> Notions.occurs_in p s.
Proof.
  unfold Notions.occurs_in.
  induction s as [|x s IH]; cbn [includes]; rewrite orb_true_iff.
  - rewrite startsWith_iff. split.
    + intros [[rest H] | H]; [| discriminate].
      exists [], rest. exact H.
    + intros (before & after & H). left.
      destruct before; [| discriminate]. exists after. exact H.
  - rewrite startsWith_iff, IH. split.
    + intros [[rest H] | (before & after & H)].
      * exists [], rest. exact H.
      * exists (x :: before), after. rewrite H. reflexivity.
    + intros (before & after & H). destruct before as [|y before].
      * left. exists after. exact H.
      * right. exists before, after. cbn in H. congruence.
Qed.

Lemma lower_char_idempotent (c : ascii) :
  lower_char (lower_char c) = lower_char c.
Proof. each_unit c; reflexivity. Qed.

Lemma toLowerCase_idempotent (s : str) :
  toLowerCase (toLowerCase s) = toLowerCase s.
Proof.
  unfold toLowerCase. rewrite map_map. apply map_ext.
  intros c. apply lower_char_idempotent.
Qed.

Lemma map_fixed_iff {A : Type} (f : A -> A) (l : list A) :
  map f l = l <-> Forall (fun c => f c = c) l.
Proof.
  induction l as [|x l IH]; cbn [map].
  - split; [constructor | reflexivity].
  - split.
    + intros H. injection H as Hx Hl. constructor; [exact Hx |].
      apply IH. exact Hl.
    + intros H. inversion H as [|? ? Hx Hl]; subst.
      rewrite Hx. f_equal. apply IH. exact Hl.
Qed.

(** X6.  [isSensitiveAction] answers true exactly when, letter case of
    the name apart, one of the keywords occurs in the name or the name
    occurs in one of the keywords.  The second half makes every fragment
    of a keyword sensitive, the empty name among them. *)
Theorem isSensitiveAction_iff (actionName : str) :
  (BrowserSecurity.isSensitiveAction actionName = true
   <-> exists keyword,
         In keyword BrowserSecurity.SENSITIVE_ACTIONS
         /\ (Notions.occurs_in keyword (toLowerCase actionName)
             \/ Notions.occurs_in (toLowerCase actionName) keyword))
  /\ (forall keyword,
         In keyword BrowserSecurity.SENSITIVE_ACTIONS ->
         Notions.occurs_in actionName keyword ->
         BrowserSecurity.isSensitiveAction actionName = true).
Proof.
  assert (Hiff :
    BrowserSecurity.isSensitiveAction actionName = true
    <-> exists keyword,
          In keyword BrowserSecurity.SENSITIVE_ACTIONS
          /\ (Notions.occurs_in keyword (toLowerCase actionName)
              \/ Notions.occurs_in (toLowerCase actionName) keyword)).
  { unfold BrowserSecurity.isSensitiveAction. rewrite existsb_exists.
    split; intros (keyword & Hin & H); exists keyword; (split; [exact Hin |]).
    - apply orb_true_iff in H. rewrite !includes_iff in H. exact H.
    - apply orb_true_iff. rewrite !includes_iff. exact H. }
  split; [exact Hiff |].
  intros keyword Hin (before & after & H).
  apply Hiff. exists keyword. split; [exact Hin |]. right.
  assert (Hk : toLowerCase keyword = keyword).
  { cbn in Hin. destruct Hin as [<- | [<- | [<- | []]]]; reflexivity. }
  apply map_fixed_iff in Hk. rewrite H in Hk.
  apply Forall_app in Hk. destruct Hk as [_ Hk].
  apply Forall_app in Hk. destruct Hk as [Hk _].
  apply map_fixed_iff in Hk.
  exists before, after. unfold toLowerCase. rewrite Hk. exact H.
Qed.

Lemma isSensitiveAction_iff_witness :
  BrowserSecurity.isSensitiveAction (lit "Fill_Form") = true
  /\ BrowserSecurity.isSensitiveAction (lit "l") = true.
Proof.
  split.
  - apply (proj1 (isSensitiveAction_iff (lit "Fill_Form"))).
    exists (lit "fill"). split; [left; reflexivity |].
    left. exists [], (lit "_form"). reflexivity.
  - apply (proj2 (isSensitiveAction_iff (lit "l")) (lit "fill")).
    + left; reflexivity.
    + exists (lit "fi"), (lit "l"). reflexivity.
Defined.

(** ** The URL guard: what the anchoring and the flag of the patterns
    give *)

(** The verdict of [isUrlAllowed] in one expression. *)
Lemma isUrlAllowed_verdict (url : str) (config : BrowserSecurity.Config) :
  BrowserSecurity.isUrlAllowed url config
  = Return
      (negb (BrowserSecurity.isBlockedUrl url)
       && match BrowserSecurity.allowedDomains config with
          | None | Some [] => true
          | Some user =>
              existsb (fun pattern => Spec.glob_line pattern url)
                (BrowserSecurity.DEFAULT_ALLOWED_PATTERNS ++ user)
          end).
Proof.
  unfold BrowserSecurity.isUrlAllowed.
  destruct (BrowserSecurity.isBlockedUrl url); [reflexivity |].
  destruct (BrowserSecurity.allowedDomains config) as [[|u user] |];
    try reflexivity.
  apply matchesAnyPattern_glob.
Qed.

Lemma Return_inj {A : Type} (a b : A) : Return a = Return b -> a = b.
Proof. intros H. injection H as H. exact H. Qed.

Lemma existsb_pointwise {A : Type} (f g : A -> bool) (l : list A) :
  (forall a, f a = g a) -> existsb f l = existsb g l.
Proof.
  intros H. induction l as [|x l IH]; cbn; [reflexivity |].
  rewrite H, IH. reflexivity.
Qed.

Lemma any_run_extend span (next next' : str -> bool) (rest : str) :
  (forall v, next v = true -> next' (v ++ rest) = true) ->
  forall u,
    Spec.any_run span next u = true ->
    Spec.any_run span next' (u ++ rest) = true.
Proof.
  intros Hn. induction u as [|x u IH]; cbn [Spec.any_run app]; intros H.
  - rewrite orb_false_r in H. apply Hn in H. cbn [app] in H.
    destruct rest; cbn [Spec.any_run]; rewrite H; reflexivity.
  - apply orb_true_iff in H. destruct H as [H | H].
    + apply Hn in H. cbn [app] in H. rewrite H. reflexivity.
    + apply andb_true_iff in H. destruct H as [Hx H].
      rewrite Hx, (IH H). apply orb_true_r.
Qed.

Lemma glob_extend span (pattern : str) (rest : str) :
  forall url,
    Spec.glob span pattern url = true ->
    Spec.glob span pattern (url ++ rest) = true.
Proof.
  induction pattern as [|c pattern IH]; intros url H; [reflexivity |].
  cbn [Spec.glob] in *. destruct (Ascii.eqb c "*").
  - exact (any_run_extend span _ _ rest IH url H).
  - destruct url as [|x url]; [discriminate |]. cbn [app].
    apply andb_true_iff in H. destruct H as [Hx H].
    rewrite Hx, (IH url H). reflexivity.
Qed.

(** X7.  The patterns are anchored at the start of the URL only: once a
    URL is allowed, so is every URL that continues it, unless the longer
    URL starts with a blocked prefix.  A pattern that ends with a host
    name therefore also allows hosts that merely begin with that name. *)
Theorem allowed_url_allows_its_extensions
    (url rest : str) (config : BrowserSecurity.Config) :
  BrowserSecurity.isUrlAllowed url config = Return true ->
  BrowserSecurity.isUrlAllowed (url ++ rest) config
  = Return (negb (BrowserSecurity.isBlockedUrl (url ++ rest))).
Proof.
  rewrite !isUrlAllowed_verdict. intros H. apply Return_inj in H.
  apply andb_true_iff in H. destruct H as [_ H]. f_equal.
  destruct (BrowserSecurity.allowedDomains config) as [[|u user] |];
    try apply andb_true_r.
  apply existsb_exists in H. destruct H as (pattern & Hin & H).
  replace (existsb _ _) with true; [apply andb_true_r |].
  symmetry. apply existsb_exists. exists pattern. split; [exact Hin |].
  apply glob_extend. exact H.
Qed.

Lemma allowed_url_allows_its_extensions_witness :
  BrowserSecurity.isUrlAllowed (lit "https://github.com.example.net/login")
    Examples.test_org
  = Return true.
Proof.
  apply (allowed_url_allows_its_extensions (lit "https://github.com")
           (lit ".example.net/login") Examples.test_org).
  vm_compute. reflexivity.
Defined.

Lemma line_terminator_lower (c : ascii) :
  is_line_terminator (lower_char c) = is_line_terminator c.
Proof. each_unit c; reflexivity. Qed.

Lemma any_run_lower span (next next' : str -> bool) :
  (forall x, span (lower_char x) = span x) ->
  (forall v, next' (toLowerCase v) = next v) ->
  forall u,
    Spec.any_run span next' (toLowerCase u) = Spec.any_run span next u.
Proof.
  intros Hs Hn. induction u as [|x u IH].
  - cbn [Spec.any_run toLowerCase map]. rewrite <- (Hn []). reflexivity.
  - cbn [Spec.any_run toLowerCase map].
    change (map lower_char u) with (toLowerCase u).
    change (lower_char x :: toLowerCase u) with (toLowerCase (x :: u)).
    rewrite Hn, Hs, IH. reflexivity.
Qed.

Lemma glob_lower span (pattern : str) :
  (forall x, span (lower_char x) = span x) ->
  forall url,
    Spec.glob span pattern (toLowerCase url) = Spec.glob span pattern url.
Proof.
  intros Hs. induction pattern as [|c pattern IH]; intros url; [reflexivity |].
  cbn [Spec.glob]. destruct (Ascii.eqb c "*").
  - apply any_run_lower; assumption.
  - destruct url as [|x url]; [reflexivity |].
    cbn [toLowerCase map]. change (map lower_char url) with (toLowerCase url).
    rewrite IH. unfold Spec.same_letter.
    rewrite lower_char_idempotent. reflexivity.
Qed.

(** X8.  The verdict does not depend on the letter case of the URL: two
    URLs that differ in letter case only are both allowed or both
    refused, under every configuration. *)
Theorem verdict_ignores_letter_case
    (url url' : str) (config : BrowserSecurity.Config) :
  toLowerCase url = toLowerCase url' ->
  BrowserSecurity.isUrlAllowed url config
  = BrowserSecurity.isUrlAllowed url' config.
Proof.
  intros H. rewrite !isUrlAllowed_verdict.
  unfold BrowserSecurity.isBlockedUrl. rewrite H.
  assert (Hg : forall pattern,
             Spec.glob_line pattern url = Spec.glob_line pattern url').
  { intros pattern. unfold Spec.glob_line.
    rewrite <- (glob_lower _ pattern
                  (fun x => f_equal negb (line_terminator_lower x)) url).
    rewrite <- (glob_lower _ pattern
                  (fun x => f_equal negb (line_terminator_lower x)) url').
    rewrite H. reflexivity. }
  destruct (BrowserSecurity.allowedDomains config) as [[|u user] |];
    try reflexivity.
  rewrite (existsb_pointwise _
             (fun pattern => Spec.glob_line pattern url') _ Hg).
  reflexivity.
Qed.

Lemma verdict_ignores_letter_case_witness :
  BrowserSecurity.isUrlAllowed (lit "HTTPS://Docs.GitHub.com/en")
    Examples.restricted
  = BrowserSecurity.isUrlAllowed (lit "https://docs.github.com/EN")
      Examples.restricted.
Proof.
  apply (verdict_ignores_letter_case (lit "HTTPS://Docs.GitHub.com/en")
           (lit "https://docs.github.com/EN") Examples.restricted).
  reflexivity.
Defined.

Lemma same_letter_sym (a b : ascii) :
  Spec.same_letter a b = Spec.same_letter b a.
Proof. unfold Spec.same_letter. apply Ascii.eqb_sym. Qed.

Lemma glob_without_star span (pattern : str) :
  ~ In "*"%char pattern ->
  forall url,
    Spec.glob span pattern url = true <-> Spec.starts_with_ci url pattern.
Proof.
  unfold Spec.starts_with_ci.
  induction pattern as [|c pattern IH]; intros Hno url; cbn [Spec.glob].
  - split; [intros _ | reflexivity].
    exists [], url. split; [reflexivity | constructor].
  - assert (Hc : Ascii.eqb c "*" = false).
    { apply Ascii.eqb_neq. intros ->. apply Hno. left. reflexivity. }
    assert (Hno' : ~ In "*"%char pattern)
      by (intros Hin; apply Hno; right; exact Hin).
    rewrite Hc. destruct url as [|x url].
    + split; [discriminate |].
      intros (head & rest & Heq & HF). inversion HF; subst. discriminate.
    + rewrite andb_true_iff, (IH Hno' url). split.
      * intros [Hx (head & rest & -> & HF)].
        exists (x :: head), rest. split; [reflexivity |].
        constructor; [rewrite same_letter_sym; exact Hx | exact HF].
      * intros (head & rest & Heq & HF).
        inversion HF as [|a b head' pattern' Hab HF']; subst.
        cbn in Heq. injection Heq as -> ->.
        split; [rewrite same_letter_sym; exact Hab |].
        exists head', rest. split; [reflexivity | exact HF'].
Qed.

(** X9.  A pattern without a star is taken literally: it matches exactly
    the URLs that start with it, letter case apart.  A dot, a question
    mark, a bracket or any other unit with a meaning in a regular
    expression stands for itself. *)
Theorem pattern_without_star_is_literal (pattern url : str) :
  ~ In "*"%char pattern ->
  (BrowserSecurity.matchesAnyPattern url [pattern] = Return true
   <-> Spec.starts_with_ci url pattern).
Proof.
  intros Hno. rewrite matchesAnyPattern_glob. cbn [existsb].
  rewrite orb_false_r.
  rewrite <- (glob_without_star (fun x => negb (is_line_terminator x))
                pattern Hno url).
  unfold Spec.glob_line. split; [apply Return_inj |].
  intros ->. reflexivity.
Qed.

Lemma pattern_without_star_is_literal_witness :
  BrowserSecurity.matchesAnyPattern (lit "https://a.b/c?d=[1]&e")
    [lit "https://A.b/c?d=[1]"]
  = Return true
  /\ ~ Spec.starts_with_ci (lit "https://aXb/c") (lit "https://a.b/c").
Proof.
  split.
  - apply (pattern_without_star_is_literal (lit "https://A.b/c?d=[1]")
             (lit "https://a.b/c?d=[1]&e")).
    + cbn. intuition discriminate.
    + exists (lit "https://a.b/c?d=[1]"), (lit "&e").
      split; [reflexivity |]. repeat constructor.
  - intros H.
    apply (pattern_without_star_is_literal (lit "https://a.b/c")
             (lit "https://aXb/c")) in H.
    + vm_compute in H. discriminate.
    + cbn. intuition discriminate.
Defined.

Lemma glob_literal_head span (pattern : str) :
  forall url,
    Spec.glob span pattern url = true ->
    startsWith (toLowerCase url) (toLowerCase (Notions.literal_head pattern))
    = true.
Proof.
  induction pattern as [|c pattern IH]; intros url H; [reflexivity |].
  cbn [Spec.glob Notions.literal_head] in *.
  destruct (Ascii.eqb c "*"); [reflexivity |].
  destruct url as [|x url]; [discriminate |].
  apply andb_true_iff in H. destruct H as [Hx H].
  cbn [toLowerCase map startsWith]. unfold Spec.same_letter in Hx.
  rewrite Hx. exact (IH url H).
Qed.

Lemma diverge_excludes (a b : str) :
  forall s,
    startsWith s a = true -> Notions.diverge a b = true ->
    startsWith s b = false.
Proof.
  revert b. induction a as [|x a IH]; intros [|y b] s Ha Hd;
    cbn [Notions.diverge] in Hd; try discriminate.
  destruct s as [|z s]; [reflexivity |].
  cbn [startsWith] in *. apply andb_true_iff in Ha. destruct Ha as [Hx Ha].
  apply Ascii.eqb_eq in Hx. subst z.
  apply orb_true_iff in Hd. destruct Hd as [Hd | Hd].
  - apply negb_true_iff in Hd. rewrite Ascii.eqb_sym, Hd. reflexivity.
  - rewrite (IH b s Ha Hd). apply andb_false_r.
Qed.

(** X10.  The user never loses the built-in defaults: a URL that matches
    one of the default patterns is allowed under every configuration,
    whatever patterns the user adds, and no default is shadowed by the
    block list. *)
Theorem default_urls_always_allowed
    (url : str) (config : BrowserSecurity.Config) :
  (exists pattern,
      In pattern BrowserSecurity.DEFAULT_ALLOWED_PATTERNS
      /\ Spec.glob_line pattern url = true) ->
  BrowserSecurity.isUrlAllowed url config = Return true.
Proof.
  intros (pattern & Hin & Hm).
  assert (Hfree : BrowserSecurity.isBlockedUrl url = false).
  { pose proof (glob_literal_head _ pattern url Hm) as Hhead.
    unfold BrowserSecurity.isBlockedUrl.
    apply not_true_is_false. intros Hb.
    apply existsb_exists in Hb. destruct Hb as (blocked & Hbin & Hb).
    rewrite (diverge_excludes _ _ _ Hhead) in Hb; [discriminate |].
    cbn in Hin, Hbin.
    repeat (destruct Hin as [<- | Hin]);
      try (repeat (destruct Hbin as [<- | Hbin]); try reflexivity;
           destruct Hbin);
      destruct Hin. }
  rewrite isUrlAllowed_verdict, Hfree.
  destruct (BrowserSecurity.allowedDomains config) as [[|u user] |];
    try reflexivity.
  f_equal. apply existsb_exists. exists pattern.
  split; [apply in_or_app; left; exact Hin | exact Hm].
Qed.

Lemma default_urls_always_allowed_witness :
  BrowserSecurity.isUrlAllowed (lit "https://docs.github.com/en")
    Examples.restricted
  = Return true.
Proof.
  apply (default_urls_always_allowed (lit "https://docs.github.com/en")
           Examples.restricted).
  exists (lit "https://*.github.com"). split; [| reflexivity].
  right; right; left; reflexivity.
Defined.

(** ** The message about the restrictions *)

Lemma join_line_occurs (lines : list str) (line : str) :
  In line lines ->
  Notions.occurs_in ("010"%char :: line ++ ["010"%char])
    ("010"%char :: join ["010"%char] lines ++ ["010"%char]).
Proof.
  unfold Notions.occurs_in.
  induction lines as [|l lines IH]; intros Hin; [destruct Hin |].
  destruct Hin as [-> | Hin].
  - destruct lines as [|l' lines].
    + exists [], []. cbn [join app]. rewrite app_nil_r. reflexivity.
    + exists [], (join ["010"%char] (l' :: lines) ++ ["010"%char]).
      cbn [join app]. rewrite <- !app_assoc. reflexivity.
  - destruct lines as [|l' lines]; [destruct Hin |].
    destruct (IH Hin) as (before & after & H).
    exists ("010"%char :: l ++ before), after.
    change (join ["010"%char] (l :: l' :: lines))
      with (l ++ ["010"%char] ++ join ["010"%char] (l' :: lines)).
    cbn [app]. f_equal. rewrite <- !app_assoc. f_equal.
    cbn [app] in H. rewrite <- app_assoc in H. cbn [app] in *. exact H.
Qed.

Lemma occurs_in_context (part whole before after : str) :
  Notions.occurs_in part whole ->
  Notions.occurs_in part (before ++ whole ++ after).
Proof.
  intros (b & a & ->). exists (before ++ b), (a ++ after).
  rewrite <- !app_assoc. reflexivity.
Qed.

(** X11.  The message about the restrictions is empty exactly when the
    user configured no pattern, which is when the guard refuses nothing
    but the blocked prefixes; otherwise every pattern of the user stands
    on a line of its own, after a dash. *)
Theorem restrictions_message_follows_the_patterns
    (config : BrowserSecurity.Config) :
  (BrowserSecurity.getNavigationRestrictionsMessage config = []
   <-> BrowserSecurity.allowedDomains config = None
       \/ BrowserSecurity.allowedDomains config = Some [])
  /\ (BrowserSecurity.getNavigationRestrictionsMessage config = [] ->
      forall url,
        BrowserSecurity.isUrlAllowed url config
        = Return (negb (BrowserSecurity.isBlockedUrl url)))
  /\ (forall user pattern,
         BrowserSecurity.allowedDomains config = Some user ->
         In pattern user ->
         Notions.occurs_in
           ("010"%char :: (lit "- " ++ pattern) ++ ["010"%char])
           (BrowserSecurity.getNavigationRestrictionsMessage config)).
Proof.
  assert (Hempty :
    BrowserSecurity.getNavigationRestrictionsMessage config = []
    <-> BrowserSecurity.allowedDomains config = None
        \/ BrowserSecurity.allowedDomains config = Some []).
  { unfold BrowserSecurity.getNavigationRestrictionsMessage.
    destruct (BrowserSecurity.allowedDomains config) as [[|u user] |].
    - split; [right | ]; reflexivity.
    - split; [discriminate | intros [H | H]; discriminate].
    - split; [left | ]; reflexivity. }
  split; [exact Hempty |]. split.
  - intros H url. apply Hempty in H. rewrite isUrlAllowed_verdict.
    destruct H as [-> | ->]; rewrite andb_true_r; reflexivity.
  - intros user pattern Hu Hin.
    unfold BrowserSecurity.getNavigationRestrictionsMessage. rewrite Hu.
    destruct user as [|u user]; [destruct Hin |].
    assert (Hline :
      In (lit "- " ++ pattern) (map (fun u => lit "- " ++ u) (u :: user))).
    { apply in_map_iff. exists pattern. split; [reflexivity | exact Hin]. }
    pose proof
      (occurs_in_context _ _
         ("010"%char :: lit "NAVIGATION RESTRICTIONS:"
          ++ "010"%char
             :: lit "You may only navigate to URLs matching these patterns:")
         (lit "Attempts to navigate elsewhere will be blocked.")
         (join_line_occurs _ _ Hline)) as H.
    match goal with
    | H : Notions.occurs_in ?p ?w |- Notions.occurs_in ?p ?w' =>
        replace w' with w; [exact H |]
    end.
    cbn [app]. f_equal. rewrite <- !app_assoc. f_equal.
Qed.

Lemma restrictions_message_follows_the_patterns_witness :
  Notions.occurs_in
    ("010"%char :: (lit "- " ++ lit "https://*.test.org") ++ ["010"%char])
    (BrowserSecurity.getNavigationRestrictionsMessage Examples.restricted)
  /\ forall url,
       BrowserSecurity.isUrlAllowed url Examples.unrestricted
       = Return (negb (BrowserSecurity.isBlockedUrl url)).
Proof.
  destruct (restrictions_message_follows_the_patterns Examples.restricted)
    as (_ & _ & Hlines).
  destruct (restrictions_message_follows_the_patterns Examples.unrestricted)
    as (_ & Hopen & _).
  split.
  - apply (Hlines [lit "https://example.com/*"; lit "https://*.test.org"]);
      [reflexivity | right; left; reflexivity].
  - apply Hopen. reflexivity.
Defined.

(** ** [execute]: all or nothing *)


Lemma fold_onConfirm_params
    (outcomes : list PlanMode.ToolConfirmationOutcome) :
  forall this,
    PlanMode.params (fold_left PlanMode.onConfirm outcomes this)
    = PlanMode.params this.
Proof.
  induction outcomes as [|x l IH]; intros this; cbn [fold_left];
    [reflexivity |].
  rewrite IH. reflexivity.
Qed.

(** X14.  A cancellation is not final: [execute] reads the last outcome
    only.  After any outcomes of which the last is not Cancel, it does
    exactly what it does on an invocation that was never confirmed. *)
Theorem execute_reads_last_outcome
    cwd config (p : PlanMode.EnterPlanModeParams) (name display : str)
    (outcomes : list PlanMode.ToolConfirmationOutcome)
    (o : PlanMode.ToolConfirmationOutcome) :
  o <> PlanMode.Cancel ->
  PlanMode.execute cwd config
    (fold_left PlanMode.onConfirm (outcomes ++ [o])
       (PlanMode.createInvocation p name display))
  = PlanMode.execute cwd config (PlanMode.createInvocation p name display).
Proof.
  intros Ho. unfold PlanMode.execute, PlanMode.grant.
  rewrite fold_onConfirm_last, fold_onConfirm_params.
  destruct o; [reflexivity | reflexivity | contradiction Ho; reflexivity].
Qed.

Lemma execute_reads_last_outcome_witness :
  PlanMode.execute Examples.root Examples.accept_all
    (PlanMode.onConfirm
       (PlanMode.onConfirm Examples.conductor PlanMode.Cancel)
       PlanMode.Proceed)
  = PlanMode.execute Examples.root Examples.accept_all Examples.conductor.
Proof.
  apply (execute_reads_last_outcome Examples.root Examples.accept_all
           (Examples.with_path "conductor")
           (lit "enter_plan_mode") (lit "Enter Plan Mode")
           [PlanMode.Cancel] PlanMode.Proceed).
  discriminate.
Defined.

(** X13.  What a grant reaches.  When the confirmation was not
    cancelled, the path is a non-empty string and the validation accepts
    the path [P] it resolves to, [execute] adds one rule for each tool of
    the allow-list, in order, and then switches to PLAN mode.  The
    pattern of each rule matches the serialized member [file_path] of [P]
    itself and of every text that is [P], a slash and more, as long as
    the units are serialized as themselves.  With a grant that resolves
    to the root that is the root and the texts that start with two
    slashes: its rule matches no path that goes on after the first slash
    with another unit. *)
Theorem grant_reaches_the_path_and_below
    cwd config (this : PlanMode.EnterPlanModeInvocation) p :
  PlanMode.confirmationOutcome this <> Some PlanMode.Cancel ->
  PlanMode.path (PlanMode.params this) = Some p ->
  p <> [] ->
  truthy_opt
    (PlanMode.validatePathAccess config
       (NodePath.resolve cwd [PlanMode.getTargetDir config; p])) = false ->
  exists re,
    snd (PlanMode.execute cwd config this)
    = map (fun toolName =>
             PlanMode.addPolicyRule
               (PlanMode.mkRule toolName re PlanMode.ALLOW 80
                  [PlanMode.PLAN] (lit "PlanMode")))
        match PlanMode.allowed_tools (PlanMode.params this) with
        | Some l => l
        | None => [lit "write_file"; lit "replace"]
        end
      ++ [PlanMode.setApprovalMode PlanMode.PLAN]
    /\ (forall v,
           Forall (fun c => Json.escape_char c = [c]) v ->
           v = NodePath.resolve cwd [PlanMode.getTargetDir config; p]
           \/ (exists rest,
                  v = NodePath.resolve cwd [PlanMode.getTargetDir config; p]
                      ++ "/"%char :: rest) ->
           RegExp.test re (Json.member (lit "file_path") v) = true)
    /\ (NodePath.resolve cwd [PlanMode.getTargetDir config; p] = lit "/" ->
        forall c rest,
          c <> "/"%char ->
          RegExp.test re (Json.member (lit "file_path") ("/"%char :: c :: rest))
          = false).
Proof.
  intros Hc Hp Hne Hv.
  eexists. split; [| split].
  - unfold PlanMode.execute. rewrite Hp.
    destruct p as [|c p']; [contradiction Hne; reflexivity |].
    cbn [truthy]. rewrite (grant_calls _ _ _ _ Hv).
    destruct (PlanMode.confirmationOutcome this) as [[| |] |];
      try reflexivity.
    contradiction Hc; reflexivity.
  - intros v Hplain Hshape. apply grant_matches_beneath; assumption.
  - intros Hroot c rest Hslash. rewrite Hroot.
    exact (grant_rejects_sibling _ (lit "/") c rest Hslash).
Qed.

Lemma grant_reaches_the_path_and_below_witness :
  (exists re,
      snd (PlanMode.execute Examples.root Examples.accept_all
             Examples.feature_1)
      = [PlanMode.addPolicyRule
           (PlanMode.mkRule (lit "write_file") re PlanMode.ALLOW 80
              [PlanMode.PLAN] (lit "PlanMode"));
         PlanMode.addPolicyRule
           (PlanMode.mkRule (lit "replace") re PlanMode.ALLOW 80
              [PlanMode.PLAN] (lit "PlanMode"));
         PlanMode.setApprovalMode PlanMode.PLAN]
      /\ RegExp.test re
           (Json.member (lit "file_path")
              (lit "/app/conductor/tracks/feature-1/plan.md")) = true)
  /\ (exists re,
         snd (PlanMode.execute Examples.root Examples.accept_all
                (Examples.enter (Examples.with_path "/")))
         = [PlanMode.addPolicyRule
              (PlanMode.mkRule (lit "write_file") re PlanMode.ALLOW 80
                 [PlanMode.PLAN] (lit "PlanMode"));
            PlanMode.addPolicyRule
              (PlanMode.mkRule (lit "replace") re PlanMode.ALLOW 80
                 [PlanMode.PLAN] (lit "PlanMode"));
            PlanMode.setApprovalMode PlanMode.PLAN]
         /\ RegExp.test re
              (Json.member (lit "file_path") (lit "/etc/passwd")) = false
         /\ RegExp.test re
              (Json.member (lit "file_path") (lit "//etc/passwd")) = true).
Proof.
  split.
  - destruct (grant_reaches_the_path_and_below Examples.root
                Examples.accept_all Examples.feature_1
                (lit "conductor/tracks/feature-1"))
      as (re & Hcalls & Hmatch & _);
      [discriminate | reflexivity | discriminate | reflexivity |].
    exists re. split; [exact Hcalls |].
    apply Hmatch.
    + repeat constructor.
    + right. exists (lit "plan.md"). reflexivity.
  - destruct (grant_reaches_the_path_and_below Examples.root
                Examples.accept_all (Examples.enter (Examples.with_path "/"))
                (lit "/"))
      as (re & Hcalls & Hmatch & Hroot);
      [discriminate | reflexivity | discriminate | reflexivity |].
    exists re. split; [exact Hcalls |]. split.
    + apply (Hroot eq_refl "e"%char (lit "tc/passwd")). discriminate.
    + apply Hmatch.
      * repeat constructor.
      * right. exists (lit "etc/passwd"). reflexivity.
Defined.

(** ** Overlay detection: letter case and context *)

Lemma canon_lower (c : ascii) : canon (lower_char c) = canon c.
Proof. each_unit c; reflexivity. Qed.

Lemma chr_eq_lower (c x : ascii) :
  RegExp.chr_eq true c (lower_char x) = RegExp.chr_eq true c x.
Proof. unfold RegExp.chr_eq. rewrite canon_lower. reflexivity. Qed.

Lemma code_lower_255 (x : ascii) :
  N.eqb (code (lower_char x)) 255 = N.eqb (code x) 255.
Proof. each_unit x; reflexivity. Qed.

Lemma code_lower_181 (x : ascii) :
  N.eqb (code (lower_char x)) 181 = N.eqb (code x) 181.
Proof. each_unit x; reflexivity. Qed.

Lemma wide_eq_lower (n : N) (x : ascii) :
  RegExp.wide_eq true n (lower_char x) = RegExp.wide_eq true n x.
Proof.
  unfold RegExp.wide_eq. rewrite code_lower_255, code_lower_181.
  reflexivity.
Qed.

Lemma space_lower (x : ascii) : is_space (lower_char x) = is_space x.
Proof. each_unit x; reflexivity. Qed.

Lemma word_lower (x : ascii) : is_word (lower_char x) = is_word x.
Proof. each_unit x; reflexivity. Qed.

Lemma word_at_lower (o : option ascii) :
  RegExp.word_at (option_map lower_char o) = RegExp.word_at o.
Proof. destruct o; [apply word_lower | reflexivity]. Qed.

Lemma succeeds_orelse {R : Type} (a b : option R) :
  Notions.succeeds (match a with Some x => Some x | None => b end)
  = (Notions.succeeds a || Notions.succeeds b)%bool.
Proof. destruct a; reflexivity. Qed.

Section LetterCase.

Context {R : Type}.

Lemma repeat_match_lower
    (step : option ascii -> str -> (option ascii -> str -> option R)
            -> option R)
    (k k' : option ascii -> str -> option R) :
  (forall prev s (j j' : option ascii -> str -> option R),
      (forall p t,
          Notions.succeeds (j' (option_map lower_char p) (toLowerCase t))
          = Notions.succeeds (j p t)) ->
      Notions.succeeds (step (option_map lower_char prev) (toLowerCase s) j')
      = Notions.succeeds (step prev s j)) ->
  (forall p t,
      Notions.succeeds (k' (option_map lower_char p) (toLowerCase t))
      = Notions.succeeds (k p t)) ->
  forall n p t,
    Notions.succeeds
      (RegExp.repeat_match step k' n (option_map lower_char p) (toLowerCase t))
    = Notions.succeeds (RegExp.repeat_match step k n p t).
Proof.
  intros Hstep Hk. induction n as [|n IH]; intros p t;
    cbn [RegExp.repeat_match]; [apply Hk |].
  rewrite !succeeds_orelse, Hk. f_equal.
  apply Hstep. intros p1 t1.
  unfold toLowerCase. rewrite !length_map.
  destruct (List.length t1 <? List.length t); [apply IH | reflexivity].
Qed.

End LetterCase.

(** With the flag [i], a match attempt succeeds on a text exactly when it
    succeeds on the text in lower case. *)
Lemma mt_lower (r : RegExp.regex) :
  forall (R : Type) prev s (k k' : option ascii -> str -> option R),
    (forall p t,
        Notions.succeeds (k' (option_map lower_char p) (toLowerCase t))
        = Notions.succeeds (k p t)) ->
    Notions.succeeds
      (RegExp.mt true r (option_map lower_char prev) (toLowerCase s) k')
    = Notions.succeeds (RegExp.mt true r prev s k).
Proof.
  induction r as [| c | n | | | | | | r1 IH1 r2 IH2 | r1 IH1 r2 IH2
                 | r IH | r IH | r IH];
    intros R prev s k k' Hk; cbn [RegExp.mt].
  - apply Hk.
  - destruct s as [|x s]; [reflexivity |]. cbn [toLowerCase map].
    rewrite chr_eq_lower. destruct (RegExp.chr_eq true c x);
      [apply (Hk (Some x) s) | reflexivity].
  - destruct s as [|x s]; [reflexivity |]. cbn [toLowerCase map].
    rewrite wide_eq_lower. destruct (RegExp.wide_eq true n x);
      [apply (Hk (Some x) s) | reflexivity].
  - destruct s as [|x s]; [reflexivity |]. cbn [toLowerCase map].
    rewrite line_terminator_lower. destruct (is_line_terminator x);
      [reflexivity | apply (Hk (Some x) s)].
  - destruct s as [|x s]; [reflexivity |]. cbn [toLowerCase map].
    rewrite space_lower. destruct (is_space x);
      [apply (Hk (Some x) s) | reflexivity].
  - rewrite word_at_lower.
    replace (hd_error (toLowerCase s))
      with (option_map lower_char (hd_error s))
      by (destruct s; reflexivity).
    rewrite word_at_lower.
    destruct (xorb _ _); [apply Hk | reflexivity].
  - destruct prev; [reflexivity | apply (Hk None s)].
  - destruct s; [apply (Hk prev []) | reflexivity].
  - apply IH1. intros p t. apply IH2. exact Hk.
  - rewrite !succeeds_orelse, (IH1 R prev s k k' Hk), (IH2 R prev s k k' Hk).
    reflexivity.
  - unfold toLowerCase at 1. rewrite length_map.
    apply repeat_match_lower; [| exact Hk].
    intros prev0 s0 j j' Hj. apply IH. exact Hj.
  - rewrite !succeeds_orelse, Hk. f_equal.
    apply IH. intros p t. unfold toLowerCase. rewrite !length_map.
    destruct (List.length t <? List.length s); [apply Hk | reflexivity].
  - apply IH. exact Hk.
Qed.

Lemma search_lower (r : RegExp.regex) (s : str) :
  forall prev,
    Notions.succeeds
      (RegExp.search true r (option_map lower_char prev) (toLowerCase s))
    = Notions.succeeds (RegExp.search true r prev s).
Proof.
  induction s as [|x s IH]; intros prev; cbn [RegExp.search toLowerCase map].
  - pose proof (mt_lower r str prev []
                  (fun _ rest => Some rest) (fun _ rest => Some rest)
                  (fun _ _ => eq_refl)) as H.
    cbn [toLowerCase map] in H.
    destruct (RegExp.mt true r (option_map lower_char prev) [] _),
      (RegExp.mt true r prev [] _); cbn in H |- *; congruence.
  - pose proof (mt_lower r str prev (x :: s)
                  (fun _ rest => Some rest) (fun _ rest => Some rest)
                  (fun _ _ => eq_refl)) as H.
    cbn [toLowerCase map] in H.
    specialize (IH (Some x)). cbn [option_map] in IH.
    change (map lower_char s) with (toLowerCase s).
    change (map lower_char s) with (toLowerCase s) in H.
    destruct (RegExp.mt true r (option_map lower_char prev)
                (lower_char x :: toLowerCase s) _),
      (RegExp.mt true r prev (x :: s) _); cbn in H |- *;
      congruence.
Qed.

Lemma test_lower (re : RegExp.t) (s : str) :
  RegExp.ignoreCase re = true ->
  RegExp.test re (toLowerCase s) = RegExp.test re s.
Proof.
  intros Hi. unfold RegExp.test, RegExp.exec. rewrite Hi.
  exact (search_lower (RegExp.pattern re) s None).
Qed.

Lemma overlay_patterns_ignore_case :
  Forall (fun re => RegExp.ignoreCase re = true)
    OverlayDetection.OVERLAY_PATTERNS.
Proof.
  unfold OverlayDetection.OVERLAY_PATTERNS. apply Forall_map.
  apply Forall_forall. intros src _. unfold OverlayDetection.literal.
  unfold RegExp.create.
  destruct (RegExp.tokenize src) as [ts |]; [| reflexivity].
  destruct (RegExp.parse ts RegExp.empty_frame []); reflexivity.
Qed.

Lemma overlays_found_lower (s : str) :
  filter (fun pattern => RegExp.test pattern (toLowerCase s))
    OverlayDetection.OVERLAY_PATTERNS
  = filter (fun pattern => RegExp.test pattern s)
      OverlayDetection.OVERLAY_PATTERNS.
Proof.
  apply filter_ext_in. intros re Hin. apply test_lower.
  exact (proj1 (Forall_forall _ _) overlay_patterns_ignore_case re Hin).
Qed.

(** What of a detection depends on the matched overlay patterns only. *)
Lemma detection_by_patterns (s s' : str) :
  filter (fun pattern => RegExp.test pattern s)
    OverlayDetection.OVERLAY_PATTERNS
  = filter (fun pattern => RegExp.test pattern s')
      OverlayDetection.OVERLAY_PATTERNS ->
  OverlayDetection.hasOverlay (OverlayDetection.detectBlockingOverlays s)
  = OverlayDetection.hasOverlay (OverlayDetection.detectBlockingOverlays s')
  /\ OverlayDetection.overlayInfo (OverlayDetection.detectBlockingOverlays s)
     = OverlayDetection.overlayInfo
         (OverlayDetection.detectBlockingOverlays s').
Proof.
  intros H. unfold OverlayDetection.detectBlockingOverlays. rewrite H.
  destruct (map RegExp.source _); split; reflexivity.
Qed.

(** X15.  The detection of overlays does not read letter case: two
    snapshots that differ in letter case only give the same [hasOverlay]
    and the same [overlayInfo], and so the same answer of
    [wasActionBlockedByOverlay]. *)
Theorem overlay_detection_ignores_letter_case
    (beforeSnapshot beforeSnapshot' afterSnapshot afterSnapshot' : str) :
  toLowerCase beforeSnapshot = toLowerCase beforeSnapshot' ->
  toLowerCase afterSnapshot = toLowerCase afterSnapshot' ->
  OverlayDetection.hasOverlay
    (OverlayDetection.detectBlockingOverlays beforeSnapshot)
  = OverlayDetection.hasOverlay
      (OverlayDetection.detectBlockingOverlays beforeSnapshot')
  /\ OverlayDetection.overlayInfo
       (OverlayDetection.detectBlockingOverlays beforeSnapshot)
     = OverlayDetection.overlayInfo
         (OverlayDetection.detectBlockingOverlays beforeSnapshot')
  /\ OverlayDetection.wasActionBlockedByOverlay beforeSnapshot afterSnapshot
     = OverlayDetection.wasActionBlockedByOverlay beforeSnapshot'
         afterSnapshot'.
Proof.
  intros Hb Ha.
  assert (Hfb : filter (fun pattern => RegExp.test pattern beforeSnapshot)
                  OverlayDetection.OVERLAY_PATTERNS
                = filter (fun pattern => RegExp.test pattern beforeSnapshot')
                    OverlayDetection.OVERLAY_PATTERNS).
  { rewrite <- (overlays_found_lower beforeSnapshot), Hb.
    apply overlays_found_lower. }
  assert (Hfa : filter (fun pattern => RegExp.test pattern afterSnapshot)
                  OverlayDetection.OVERLAY_PATTERNS
                = filter (fun pattern => RegExp.test pattern afterSnapshot')
                    OverlayDetection.OVERLAY_PATTERNS).
  { rewrite <- (overlays_found_lower afterSnapshot), Ha.
    apply overlays_found_lower. }
  destruct (detection_by_patterns _ _ Hfb) as [Hb1 Hb2].
  destruct (detection_by_patterns _ _ Hfa) as [Ha1 Ha2].
  split; [exact Hb1 |]. split; [exact Hb2 |].
  unfold OverlayDetection.wasActionBlockedByOverlay.
  rewrite Hb1, Hb2, Ha1, Ha2. reflexivity.
Qed.

Lemma overlay_detection_ignores_letter_case_witness :
  OverlayDetection.hasOverlay
    (OverlayDetection.detectBlockingOverlays (lit "We Use COOKIES"))
  = OverlayDetection.hasOverlay
      (OverlayDetection.detectBlockingOverlays (lit "we use cookies"))
  /\ OverlayDetection.overlayInfo
       (OverlayDetection.detectBlockingOverlays (lit "We Use COOKIES"))
     = OverlayDetection.overlayInfo
         (OverlayDetection.detectBlockingOverlays (lit "we use cookies"))
  /\ OverlayDetection.wasActionBlockedByOverlay (lit "We Use COOKIES")
       (lit "A Popup")
     = OverlayDetection.wasActionBlockedByOverlay (lit "we use cookies")
         (lit "a POPUP").
Proof.
  apply (overlay_detection_ignores_letter_case
           (lit "We Use COOKIES") (lit "we use cookies")
           (lit "A Popup") (lit "a POPUP")); reflexivity.
Defined.

(** A match attempt whose continuation always fails, fails. *)
Lemma repeat_match_none {R : Type}
    (step : option ascii -> str -> (option ascii -> str -> option R)
            -> option R)
    (k : option ascii -> str -> option R) :
  (forall p t (j : option ascii -> str -> option R),
      (forall p' t', j p' t' = None) -> step p t j = None) ->
  (forall p t, k p t = None) ->
  forall n p t, RegExp.repeat_match step k n p t = None.
Proof.
  intros Hstep Hk. induction n as [|n IH]; intros p t;
    cbn [RegExp.repeat_match]; [apply Hk |].
  rewrite Hstep; [apply Hk |].
  intros p' t'. destruct (_ <? _); [apply IH | reflexivity].
Qed.

Lemma mt_none ic (r : RegExp.regex) :
  forall (R : Type) prev s (k : option ascii -> str -> option R),
    (forall p t, k p t = None) -> RegExp.mt ic r prev s k = None.
Proof.
  induction r as [| c | n | | | | | | r1 IH1 r2 IH2 | r1 IH1 r2 IH2
                 | r IH | r IH | r IH];
    intros R prev s k Hk; cbn [RegExp.mt];
    try (destruct s as [|x s]; [reflexivity |];
         match goal with |- (if ?b then _ else _) = _ => destruct b end;
         first [reflexivity | apply Hk]).
  - apply Hk.
  - destruct (xorb _ _); [apply Hk | reflexivity].
  - destruct prev; [reflexivity | apply Hk].
  - destruct s; [apply Hk | reflexivity].
  - apply IH1. intros p t. apply IH2. exact Hk.
  - rewrite (IH1 R prev s k Hk). apply IH2. exact Hk.
  - apply repeat_match_none; [| exact Hk].
    intros p t j Hj. apply IH. exact Hj.
  - rewrite IH; [apply Hk |].
    intros p t. destruct (_ <? _); [apply Hk | reflexivity].
  - apply IH. exact Hk.
Qed.

Lemma succeeds_orelse_true {R : Type} (a b : option R) :
  Notions.succeeds (match a with Some x => Some x | None => b end) = true
  <-> Notions.succeeds a = true \/ Notions.succeeds b = true.
Proof. rewrite succeeds_orelse. apply orb_true_iff. Qed.

Section Embedding.

Context {R : Type}.
Variable after : str.

(** The loop of a star on a text and on the text with more after it. *)
Lemma repeat_match_embed
    (step : option ascii -> str -> (option ascii -> str -> option R)
            -> option R)
    (k k' : option ascii -> str -> option R) :
  (forall p t (j : option ascii -> str -> option R),
      (forall p' t', j p' t' = None) -> step p t j = None) ->
  (forall prev prev' s (j j' : option ascii -> str -> option R),
      (forall p p' t,
          Notions.succeeds (j p t) = true ->
          Notions.succeeds (j' p' (t ++ after)) = true) ->
      Notions.succeeds (step prev s j) = true ->
      Notions.succeeds (step prev' (s ++ after) j') = true) ->
  (forall p p' t,
      Notions.succeeds (k p t) = true ->
      Notions.succeeds (k' p' (t ++ after)) = true) ->
  forall n m p p' t,
    (List.length t <= n)%nat ->
    (List.length (t ++ after) <= m)%nat ->
    Notions.succeeds (RegExp.repeat_match step k n p t) = true ->
    Notions.succeeds (RegExp.repeat_match step k' m p' (t ++ after)) = true.
Proof.
  intros Hnone Hstep Hk.
  assert (Hlast :
    forall m p p' t,
      Notions.succeeds (k p t) = true ->
      Notions.succeeds (RegExp.repeat_match step k' m p' (t ++ after))
      = true).
  { intros m p p' t H. destruct m as [|m]; cbn [RegExp.repeat_match].
    - exact (Hk p p' t H).
    - apply succeeds_orelse_true. right. exact (Hk p p' t H). }
  induction n as [|n IH]; intros m p p' t Hn Hm H;
    cbn [RegExp.repeat_match] in H.
  - exact (Hlast m p p' t H).
  - apply succeeds_orelse_true in H. destruct H as [H | H];
      [| exact (Hlast m p p' t H)].
    destruct m as [|m].
    + exfalso. rewrite length_app in Hm.
      assert (Ht : List.length t = 0%nat) by lia.
      rewrite Hnone in H; [discriminate |].
      intros p1 t1. rewrite Ht. destruct (List.length t1 <? 0) eqn:E;
        [apply Nat.ltb_lt in E; lia | reflexivity].
    + cbn [RegExp.repeat_match]. apply succeeds_orelse_true. left.
      refine (Hstep p p' t _ _ _ H).
      intros p1 p1' t1 H1.
      destruct (List.length t1 <? List.length t) eqn:E; [| discriminate].
      apply Nat.ltb_lt in E.
      assert (E' : (List.length (t1 ++ after) <? List.length (t ++ after))
                   = true).
      { apply Nat.ltb_lt. rewrite !length_app. lia. }
      rewrite E'. apply (IH m p1 p1' t1); [lia | | exact H1].
      apply Nat.ltb_lt in E'. lia.
Qed.

End Embedding.

(** A pattern without assertions that matches at the start of a text
    matches at the start of the text with more after it, whatever stands
    before. *)
Lemma mt_embed ic (after : str) (r : RegExp.regex) :
  Notions.assertion_free r = true ->
  forall (R : Type) prev prev' s (k k' : option ascii -> str -> option R),
    (forall p p' t,
        Notions.succeeds (k p t) = true ->
        Notions.succeeds (k' p' (t ++ after)) = true) ->
    Notions.succeeds (RegExp.mt ic r prev s k) = true ->
    Notions.succeeds (RegExp.mt ic r prev' (s ++ after) k') = true.
Proof.
  induction r as [| c | n | | | | | | r1 IH1 r2 IH2 | r1 IH1 r2 IH2
                 | r IH | r IH | r IH];
    intros Hfree R prev prev' s k k' Hk H;
    cbn [Notions.assertion_free] in Hfree; try discriminate;
    cbn [RegExp.mt] in H |- *;
    try (destruct s as [|x s]; [discriminate |]; cbn [app];
         match goal with
         | |- context [if ?b then _ else _] => destruct b
         end;
         first [discriminate | exact (Hk (Some x) (Some x) s H)]).
  - exact (Hk prev prev' s H).
  - apply andb_true_iff in Hfree. destruct Hfree as [H1 H2].
    refine (IH1 H1 R prev prev' s _ _ _ H).
    intros p p' t Ht. exact (IH2 H2 R p p' t k k' Hk Ht).
  - apply andb_true_iff in Hfree. destruct Hfree as [H1 H2].
    apply succeeds_orelse_true. apply succeeds_orelse_true in H.
    destruct H as [H | H].
    + left. exact (IH1 H1 R prev prev' s k k' Hk H).
    + right. exact (IH2 H2 R prev prev' s k k' Hk H).
  - refine (repeat_match_embed after (RegExp.mt ic r) k k' _ _ Hk
              _ _ prev prev' s (le_n _) (le_n _) H).
    + intros p t j Hj. apply mt_none. exact Hj.
    + intros p0 p0' s0 j j' Hj H0. exact (IH Hfree R p0 p0' s0 j j' Hj H0).
  - apply succeeds_orelse_true. apply succeeds_orelse_true in H.
    destruct H as [H | H]; [left | right; exact (Hk prev prev' s H)].
    refine (IH Hfree R prev prev' s _ _ _ H).
    intros p p' t Ht.
    destruct (List.length t <? List.length s) eqn:E; [| discriminate].
    apply Nat.ltb_lt in E.
    replace (List.length (t ++ after) <? List.length (s ++ after)) with true
      by (symmetry; apply Nat.ltb_lt; rewrite !length_app; lia).
    exact (Hk p p' t Ht).
  - exact (IH Hfree R prev prev' s k k' Hk H).
Qed.

Lemma search_succeeds_cons ic r prev x (s : str) :
  Notions.succeeds (RegExp.search ic r (Some x) s) = true ->
  Notions.succeeds (RegExp.search ic r prev (x :: s)) = true.
Proof.
  intros H. cbn [RegExp.search].
  destruct (RegExp.mt ic r prev (x :: s) _); [reflexivity | exact H].
Qed.

Lemma search_embed_after ic (after : str) (r : RegExp.regex) :
  Notions.assertion_free r = true ->
  forall s prev prev',
    Notions.succeeds (RegExp.search ic r prev s) = true ->
    Notions.succeeds (RegExp.search ic r prev' (s ++ after)) = true.
Proof.
  intros Hfree.
  assert (Hhere :
    forall s prev prev',
      Notions.succeeds
        (RegExp.mt ic r prev s (fun _ rest => Some rest)) = true ->
      Notions.succeeds (RegExp.search ic r prev' (s ++ after)) = true).
  { intros s prev prev' H.
    pose proof (mt_embed ic after r Hfree str prev prev' s
                  (fun _ rest => Some rest) (fun _ rest => Some rest)
                  (fun _ _ _ _ => eq_refl) H) as H'.
    destruct (s ++ after) as [|y u]; cbn [RegExp.search];
      destruct (RegExp.mt ic r prev' _ _); try reflexivity; discriminate. }
  induction s as [|x s IH]; intros prev prev' H.
  - apply (Hhere [] prev prev'). cbn [RegExp.search] in H.
    destruct (RegExp.mt ic r prev [] _); [reflexivity | discriminate].
  - cbn [RegExp.search] in H.
    destruct (RegExp.mt ic r prev (x :: s) (fun _ rest => Some rest)) eqn:E.
    + apply (Hhere (x :: s) prev prev'). rewrite E. reflexivity.
    + cbn [app]. apply search_succeeds_cons.
      exact (IH (Some x) (Some x) H).
Qed.

Lemma search_embed ic (before after : str) (r : RegExp.regex) :
  Notions.assertion_free r = true ->
  forall s prev prev',
    Notions.succeeds (RegExp.search ic r prev s) = true ->
    Notions.succeeds (RegExp.search ic r prev' (before ++ s ++ after)) = true.
Proof.
  intros Hfree s prev prev' H. revert prev'.
  induction before as [|y before IH]; intros prev'; cbn [app].
  - exact (search_embed_after ic after r Hfree s prev prev' H).
  - apply search_succeeds_cons. apply IH.
Qed.

Lemma test_embed (re : RegExp.t) (before s after : str) :
  Notions.assertion_free (RegExp.pattern re) = true ->
  RegExp.test re s = true ->
  RegExp.test re (before ++ s ++ after) = true.
Proof.
  intros Hfree H. unfold RegExp.test, RegExp.exec in *.
  pose proof (search_embed (RegExp.ignoreCase re) before after
                (RegExp.pattern re) Hfree s None None) as He.
  destruct (RegExp.search _ _ None s); [| discriminate].
  specialize (He eq_refl).
  destruct (RegExp.search _ _ None (before ++ s ++ after));
    [reflexivity | discriminate].
Qed.

Lemma overlay_patterns_assertion_free :
  Forall (fun re => Notions.assertion_free (RegExp.pattern re) = true)
    OverlayDetection.OVERLAY_PATTERNS.
Proof.
  apply Forall_forall. apply forallb_forall. vm_compute. reflexivity.
Qed.

Lemma hasOverlay_iff (s : str) :
  OverlayDetection.hasOverlay (OverlayDetection.detectBlockingOverlays s)
  = true
  <-> exists pattern,
        In pattern OverlayDetection.OVERLAY_PATTERNS
        /\ RegExp.test pattern s = true.
Proof.
  unfold OverlayDetection.detectBlockingOverlays.
  destruct (filter _ OverlayDetection.OVERLAY_PATTERNS) as [|re l] eqn:E;
    cbn [map OverlayDetection.hasOverlay].
  - split; [discriminate |]. intros (pattern & Hin & Ht).
    assert (Hf : In pattern
                   (filter (fun pattern => RegExp.test pattern s)
                      OverlayDetection.OVERLAY_PATTERNS))
      by (apply filter_In; split; assumption).
    rewrite E in Hf. destruct Hf.
  - split; [intros _ | reflexivity].
    assert (Hf : In re
                   (filter (fun pattern => RegExp.test pattern s)
                      OverlayDetection.OVERLAY_PATTERNS))
      by (rewrite E; left; reflexivity).
    apply filter_In in Hf. exists re. exact Hf.
Qed.

(** X16.  More content never hides an overlay: an overlay pattern that
    matches a text matches every snapshot that contains the text, so an
    overlay detected in a part of a snapshot is detected in the whole
    snapshot. *)
Theorem overlay_detected_in_every_context (before s after : str) :
  OverlayDetection.hasOverlay (OverlayDetection.detectBlockingOverlays s)
  = true ->
  OverlayDetection.hasOverlay
    (OverlayDetection.detectBlockingOverlays (before ++ s ++ after))
  = true.
Proof.
  rewrite !hasOverlay_iff. intros (pattern & Hin & H).
  exists pattern. split; [exact Hin |].
  apply test_embed; [| exact H].
  exact (proj1 (Forall_forall _ _) overlay_patterns_assertion_free
           pattern Hin).
Qed.

Lemma overlay_detected_in_every_context_witness :
  OverlayDetection.hasOverlay
    (OverlayDetection.detectBlockingOverlays
       (lit "uid=1 main " ++ Examples.dialog_snapshot ++ lit " uid=9 footer"))
  = true.
Proof.
  apply (overlay_detected_in_every_context (lit "uid=1 main ")
           Examples.dialog_snapshot (lit " uid=9 footer")).
  vm_compute. reflexivity.
Defined.

(** ** The results of the browser actions *)

Section ActionResults.

Variable num : Type.
Variable scale : num -> num -> num.
Variable negate : num -> num.
Variable zero : num.
Variable show : num -> str.
Variable Page : Type.
Variable driver : BrowserTools.Driver num Page.

Lemma reports_bind {A : Type} (m : BrowserTools.Async Page A)
    (f : A -> BrowserTools.Async Page BrowserTools.ToolResult) :
  (forall a, Notions.reports_page driver (f a)) ->
  Notions.reports_page driver (BrowserTools.bind Page m f).
Proof.
  intros Hf p result p' H. unfold BrowserTools.bind in H.
  destruct (m p) as [[a p1] | e]; [| discriminate].
  exact (Hf a p1 result p' H).
Qed.

Lemma reports_ok (out : str) :
  Notions.reports_page driver (BrowserTools.ok num Page driver out).
Proof.
  intros p result p' H. cbv in H. injection H as <- <-.
  split; [reflexivity |]. left. exists out. split; reflexivity.
Qed.

Lemma reports_viewport_not_available :
  Notions.reports_page driver
    (BrowserTools.viewport_not_available num Page driver).
Proof.
  intros p result p' H. cbv in H. injection H as <- <-.
  split; [reflexivity |]. right. split; reflexivity.
Qed.

Ltac reports :=
  cbv zeta;
  repeat first
    [ apply reports_ok
    | apply reports_viewport_not_available
    | apply reports_bind; intros ?
    | match goal with
      | |- Notions.reports_page _ (match ?v with _ => _ end) => destruct v
      end ].

(** X17.  Every browser action reports the page it leaves: whenever one
    of the nine primitives returns a result, the [url] of the result is
    the URL of the page after the action (after a redirect, not the
    target asked for), and the result carries either an output and no
    error, or the error of the missing viewport and no output. *)
Theorem actions_report_the_page_they_leave :
  (forall target,
      Notions.reports_page driver
        (BrowserTools.navigate num Page driver target))
  /\ (forall x y,
         Notions.reports_page driver
           (BrowserTools.clickAt num scale show Page driver x y))
  /\ (forall x y text pressEnter clearBeforeTyping,
         Notions.reports_page driver
           (BrowserTools.typeTextAt num scale show Page driver x y text
              pressEnter clearBeforeTyping))
  /\ (forall direction amount,
         Notions.reports_page driver
           (BrowserTools.scrollDocument num negate zero show Page driver
              direction amount))
  /\ (forall x y destX destY,
         Notions.reports_page driver
           (BrowserTools.dragAndDrop num scale show Page driver x y
              destX destY))
  /\ Notions.reports_page driver (BrowserTools.pagedown num Page driver)
  /\ Notions.reports_page driver (BrowserTools.pageup num Page driver)
  /\ (forall keys,
         Notions.reports_page driver
           (BrowserTools.keyCombination num Page driver keys))
  /\ Notions.reports_page driver (BrowserTools.openWebBrowser num Page driver).
Proof.
  repeat apply conj; intros.
  - unfold BrowserTools.navigate. reports.
  - unfold BrowserTools.clickAt. reports.
  - unfold BrowserTools.typeTextAt. reports.
  - unfold BrowserTools.scrollDocument. reports.
  - unfold BrowserTools.dragAndDrop. reports.
  - unfold BrowserTools.pagedown. reports.
  - unfold BrowserTools.pageup. reports.
  - unfold BrowserTools.keyCombination. reports.
  - unfold BrowserTools.openWebBrowser. reports.
Qed.

End ActionResults.

Lemma actions_report_the_page_they_leave_witness :
  let result :=
    BrowserTools.mkResult (Some (lit "Navigated to https://example.com"))
      None (Some (lit "https://example.com/login")) in
  BrowserTools.url result
  = Some (BrowserTools.page_url Z str Notions.redirecting
            (lit "https://example.com/login"))
  /\ ((exists out,
          BrowserTools.output result = Some out
          /\ BrowserTools.error result = None)
      \/ (BrowserTools.output result = None
          /\ BrowserTools.error result
             = Some (lit "Viewport not available"))).
Proof.
  cbv zeta.
  apply (proj1 (actions_report_the_page_they_leave Z Examples.scaleZ Z.opp
                  0%Z Examples.showZ str Notions.redirecting)
           (lit "https://example.com") (lit "about:blank")).
  reflexivity.
Defined.

(** ** The activity log: what reaches the file *)

Lemma mod_ten_next (a : nat) :
  (a mod 10 + 1 < 10)%nat -> ((a + 1) mod 10 = a mod 10 + 1)%nat.
Proof.
  intros H. rewrite Nat.Div0.add_mod.
  change (1 mod 10)%nat with 1%nat. apply Nat.mod_small. exact H.
Qed.

Lemma mod_ten_wrap (a : nat) :
  (a mod 10 = 9)%nat -> ((a + 1) mod 10 = 0)%nat.
Proof.
  intros H. rewrite Nat.Div0.add_mod, H. reflexivity.
Qed.

Section ActivityLog.

Variable Params : Type.
Variable num : Type.
Variable stringify : BrowserLogger.Logged Params num -> str.

Let State := BrowserLogger.State Params num.
Let run := BrowserLogger.run Params num stringify.
Let lines := BrowserLogger.lines Params num stringify.
Let Log := BrowserLogger.Log Params num.

Lemma run_app (evs evs' : list (BrowserLogger.Event Params num))
    (this : State) :
  run (evs ++ evs') this = run evs' (run evs this).
Proof. apply fold_left_app. Qed.

(** Entries that do not bring the buffer to a multiple of ten are
    buffered and nothing else happens. *)
Lemma run_logs_buffered (more : list (BrowserLogger.Logged Params num)) :
  forall this : State,
    (List.length (BrowserLogger.entries Params num this) mod 10
     + List.length more < 10)%nat ->
    run (map Log more) this
    = BrowserLogger.mkState Params num
        (BrowserLogger.entries Params num this ++ more)
        (BrowserLogger.file Params num this)
        (BrowserLogger.pending Params num this).
Proof.
  induction more as [|e more IH]; intros this H.
  - cbn. rewrite app_nil_r. destruct this; reflexivity.
  - cbn [map]. unfold run, BrowserLogger.run. cbn [fold_left].
    fold (BrowserLogger.run Params num stringify). fold run.
    cbn [List.length] in H.
    assert (Hlog :
      BrowserLogger.step Params num stringify this (Log e)
      = BrowserLogger.mkState Params num
          (BrowserLogger.entries Params num this ++ [e])
          (BrowserLogger.file Params num this)
          (BrowserLogger.pending Params num this)).
    { cbn [BrowserLogger.step Log]. unfold BrowserLogger.log.
      cbn [BrowserLogger.entries]. rewrite length_app. cbn [List.length].
      rewrite mod_ten_next by lia.
      rewrite Nat.add_1_r. reflexivity. }
    unfold Log in Hlog |- *. rewrite Hlog. fold Log.
    rewrite IH.
    + cbn [BrowserLogger.entries BrowserLogger.file BrowserLogger.pending].
      rewrite <- app_assoc. reflexivity.
    + cbn [BrowserLogger.entries]. rewrite length_app. cbn [List.length].
      rewrite mod_ten_next by lia. lia.
Qed.

(** The entry that brings the buffer to a multiple of ten starts a write
    of the whole buffer. *)
Lemma log_tenth (e : BrowserLogger.Logged Params num) (this : State) :
  (List.length (BrowserLogger.entries Params num this) mod 10 = 9)%nat ->
  BrowserLogger.log Params num stringify e this
  = BrowserLogger.mkState Params num
      (BrowserLogger.entries Params num this ++ [e])
      (BrowserLogger.file Params num this)
      (BrowserLogger.pending Params num this
       ++ [lines (BrowserLogger.entries Params num this ++ [e])]).
Proof.
  intros H. unfold BrowserLogger.log. cbn [BrowserLogger.entries].
  rewrite length_app. cbn [List.length]. rewrite (mod_ten_wrap _ H).
  cbn [Nat.eqb]. unfold BrowserLogger.flush.
  cbn [BrowserLogger.entries BrowserLogger.file BrowserLogger.pending].
  destruct (BrowserLogger.entries Params num this ++ [e]) eqn:E;
    [destruct (BrowserLogger.entries Params num this); discriminate |].
  reflexivity.
Qed.

(** X18.  Entries that are logged while a write is on its way are lost.
    When the tenth entry starts a flush, and up to nine more entries are
    logged before the write settles, the file receives the first batch
    only and the buffer is emptied: the later entries are in neither, and
    no later flush can write them. *)
Theorem entries_logged_during_a_flush_are_lost
    (this : State) (e : BrowserLogger.Logged Params num)
    (more : list (BrowserLogger.Logged Params num)) :
  BrowserLogger.pending Params num this = [] ->
  (List.length (BrowserLogger.entries Params num this) mod 10 = 9)%nat ->
  (List.length more < 10)%nat ->
  run (Log e :: map Log more
       ++ [BrowserLogger.Settle Params num 0 true]) this
  = BrowserLogger.mkState Params num
      []
      (BrowserLogger.file Params num this
       ++ [lines (BrowserLogger.entries Params num this ++ [e])])
      [].
Proof.
  intros Hp Hn Hm.
  change (Log e :: map Log more ++ [BrowserLogger.Settle Params num 0 true])
    with ([Log e] ++ map Log more
          ++ [BrowserLogger.Settle Params num 0 true]).
  rewrite !run_app.
  assert (H1 : run [Log e] this
               = BrowserLogger.log Params num stringify e this)
    by reflexivity.
  rewrite H1, (log_tenth e this Hn), Hp. cbn [app].
  rewrite run_logs_buffered.
  - reflexivity.
  - cbn [BrowserLogger.entries]. rewrite length_app. cbn [List.length].
    rewrite (mod_ten_wrap _ Hn). exact Hm.
Qed.

(** X19.  Flushes that overlap write twice.  When twenty entries are
    logged to a new logger before the first write settles, both writes
    carry the first ten entries: the file receives them twice. *)
Theorem overlapping_flushes_write_twice
    (first second : list (BrowserLogger.Logged Params num)) :
  List.length first = 10%nat ->
  List.length second = 10%nat ->
  run (map Log first ++ map Log second
       ++ [BrowserLogger.Settle Params num 0 true;
           BrowserLogger.Settle Params num 0 true])
    (BrowserLogger.newLogger Params num)
  = BrowserLogger.mkState Params num
      [] [lines first; lines (first ++ second)] [].
Proof.
  intros H1 H2.
  destruct (exists_last (l := first)) as (front & e & ->);
    [intros ->; discriminate |].
  destruct (exists_last (l := second)) as (front' & e' & ->);
    [intros ->; discriminate |].
  rewrite length_app in H1, H2. cbn [List.length] in H1, H2.
  assert (Hf : List.length front = 9%nat) by lia.
  assert (Hf' : List.length front' = 9%nat) by lia.
  assert (Hstep : forall x s, run [Log x] s
                              = BrowserLogger.log Params num stringify x s)
    by reflexivity.
  rewrite !map_app, !run_app. cbn [map].
  rewrite (run_logs_buffered front (BrowserLogger.newLogger Params num))
    by (cbn [BrowserLogger.entries BrowserLogger.newLogger List.length];
        rewrite Hf; apply Nat.ltb_lt; reflexivity).
  cbn [BrowserLogger.entries BrowserLogger.file BrowserLogger.pending
         BrowserLogger.newLogger app].
  rewrite (Hstep e), (log_tenth e)
    by (cbn [BrowserLogger.entries]; rewrite Hf; reflexivity).
  cbn [BrowserLogger.entries BrowserLogger.file BrowserLogger.pending app].
  rewrite (run_logs_buffered front')
    by (cbn [BrowserLogger.entries]; rewrite length_app; cbn [List.length];
        rewrite Hf, Hf'; apply Nat.ltb_lt; reflexivity).
  cbn [BrowserLogger.entries BrowserLogger.file BrowserLogger.pending].
  rewrite (Hstep e'), (log_tenth e')
    by (cbn [BrowserLogger.entries]; rewrite !length_app; cbn [List.length];
        rewrite Hf, Hf'; reflexivity).
  cbn [BrowserLogger.entries BrowserLogger.file BrowserLogger.pending app].
  rewrite <- !app_assoc. reflexivity.
Qed.

(** X20.  A flush that is waited for is exact.  Take a logger without a
    write on its way.  When [JSON.stringify] answers a text for the
    input and for the output, [logFullTurn] pushes the turn and starts a
    write of the whole buffer; when that write settles, the lines of the
    whole buffer with the turn have been appended once and the buffer is
    empty if the write succeeded, and the whole buffer is kept for the
    next flush if it failed.  When [JSON.stringify] answers [undefined]
    for the input or for the output, or throws, [logFullTurn] throws
    before it pushes anything: the logger stays as it was. *)
Theorem awaited_flush_is_exact
    (this : State) (now : str) (input output : completion (option str)) :
  BrowserLogger.pending Params num this = [] ->
  (forall input' output',
      input = Return (Some input') ->
      output = Return (Some output') ->
      let turn :=
        BrowserLogger.Turn Params num now
          (firstn 500 input') (firstn 500 output') in
      BrowserLogger.logFullTurn Params num stringify now input output this
      = Return
          (BrowserLogger.mkState Params num
             (BrowserLogger.entries Params num this ++ [turn])
             (BrowserLogger.file Params num this)
             [lines (BrowserLogger.entries Params num this ++ [turn])])
      /\ run [BrowserLogger.FullTurn Params num now input output;
              BrowserLogger.Settle Params num 0 true] this
         = BrowserLogger.mkState Params num []
             (BrowserLogger.file Params num this
              ++ [lines (BrowserLogger.entries Params num this ++ [turn])])
             []
      /\ run [BrowserLogger.FullTurn Params num now input output;
              BrowserLogger.Settle Params num 0 false] this
         = BrowserLogger.mkState Params num
             (BrowserLogger.entries Params num this ++ [turn])
             (BrowserLogger.file Params num this)
             [])
  /\ ((forall text, input <> Return (Some text))
      \/ (forall text, output <> Return (Some text)) ->
      (exists e,
          BrowserLogger.logFullTurn Params num stringify now input output this
          = Throw e)
      /\ run [BrowserLogger.FullTurn Params num now input output] this
         = this).
Proof.
  intros Hp. split.
  - intros input' output' -> -> turn.
    assert (Hcall :
      BrowserLogger.logFullTurn Params num stringify now
        (Return (Some input')) (Return (Some output')) this
      = Return
          (BrowserLogger.mkState Params num
             (BrowserLogger.entries Params num this ++ [turn])
             (BrowserLogger.file Params num this)
             [lines (BrowserLogger.entries Params num this ++ [turn])])).
    { unfold BrowserLogger.logFullTurn. cbn [BrowserLogger.sliced].
      fold turn. unfold BrowserLogger.flush.
      cbn [BrowserLogger.entries BrowserLogger.file BrowserLogger.pending].
      destruct (BrowserLogger.entries Params num this ++ [turn]) eqn:E;
        [destruct (BrowserLogger.entries Params num this); discriminate |].
      rewrite Hp. reflexivity. }
    split; [exact Hcall |].
    unfold run, BrowserLogger.run. cbn [fold_left BrowserLogger.step].
    rewrite Hcall. split; reflexivity.
  - intros Hbad.
    assert (Hthrow :
      exists e,
        BrowserLogger.logFullTurn Params num stringify now input output this
        = Throw e).
    { unfold BrowserLogger.logFullTurn.
      destruct input as [[i |] | ei]; cbn [BrowserLogger.sliced];
        try (eexists; reflexivity).
      destruct output as [[o |] | eo]; cbn [BrowserLogger.sliced];
        try (eexists; reflexivity).
      exfalso. destruct Hbad as [H | H];
        [exact (H i eq_refl) | exact (H o eq_refl)]. }
    split; [exact Hthrow |].
    destruct Hthrow as [e He].
    unfold run, BrowserLogger.run. cbn [fold_left BrowserLogger.step].
    rewrite He. reflexivity.
Qed.

End ActivityLog.

Lemma entries_logged_during_a_flush_are_lost_witness :
  BrowserLogger.run unit Z Notions.message_of
    (BrowserLogger.Log unit Z (Notions.info_entry "tenth")
     :: map (BrowserLogger.Log unit Z) [Notions.info_entry "eleventh"]
     ++ [BrowserLogger.Settle unit Z 0 true])
    (BrowserLogger.mkState unit Z
       (repeat (Notions.info_entry "early") 9) [] [])
  = BrowserLogger.mkState unit Z []
      ([] ++ [BrowserLogger.lines unit Z Notions.message_of
                (repeat (Notions.info_entry "early") 9
                 ++ [Notions.info_entry "tenth"])])
      [].
Proof.
  apply (entries_logged_during_a_flush_are_lost unit Z Notions.message_of
           (BrowserLogger.mkState unit Z
              (repeat (Notions.info_entry "early") 9) [] [])
           (Notions.info_entry "tenth") [Notions.info_entry "eleventh"]).
  - reflexivity.
  - reflexivity.
  - apply Nat.ltb_lt. reflexivity.
Defined.

Lemma overlapping_flushes_write_twice_witness :
  BrowserLogger.run unit Z Notions.message_of
    (map (BrowserLogger.Log unit Z) (repeat (Notions.info_entry "a") 10)
     ++ map (BrowserLogger.Log unit Z) (repeat (Notions.info_entry "b") 10)
     ++ [BrowserLogger.Settle unit Z 0 true;
         BrowserLogger.Settle unit Z 0 true])
    (BrowserLogger.newLogger unit Z)
  = BrowserLogger.mkState unit Z []
      [BrowserLogger.lines unit Z Notions.message_of
         (repeat (Notions.info_entry "a") 10);
       BrowserLogger.lines unit Z Notions.message_of
         (repeat (Notions.info_entry "a") 10
          ++ repeat (Notions.info_entry "b") 10)]
      [].
Proof.
  apply (overlapping_flushes_write_twice unit Z Notions.message_of
           (repeat (Notions.info_entry "a") 10)
           (repeat (Notions.info_entry "b") 10)); reflexivity.
Defined.

Lemma awaited_flush_is_exact_witness :
  BrowserLogger.run unit Z Notions.message_of
    [BrowserLogger.FullTurn unit Z (lit "now")
       (Return (Some (lit "[]"))) (Return (Some (lit "{}")));
     BrowserLogger.Settle unit Z 0 true]
    (BrowserLogger.mkState unit Z [Notions.info_entry "early"] [] [])
  = BrowserLogger.mkState unit Z []
      [BrowserLogger.lines unit Z Notions.message_of
         [Notions.info_entry "early";
          BrowserLogger.Turn unit Z (lit "now") (lit "[]") (lit "{}")]]
      []
  /\ BrowserLogger.run unit Z Notions.message_of
       [BrowserLogger.FullTurn unit Z (lit "now")
          (Return (Some (lit "[]"))) (Return None)]
       (BrowserLogger.mkState unit Z [Notions.info_entry "early"] [] [])
     = BrowserLogger.mkState unit Z [Notions.info_entry "early"] [] [].
Proof.
  split.
  - exact (proj1 (proj2
             (proj1 (awaited_flush_is_exact unit Z Notions.message_of
                       (BrowserLogger.mkState unit Z
                          [Notions.info_entry "early"] [] [])
                       (lit "now") (Return (Some (lit "[]")))
                       (Return (Some (lit "{}"))) eq_refl)
                (lit "[]") (lit "{}") eq_refl eq_refl))).
  - apply (proj2 (awaited_flush_is_exact unit Z Notions.message_of
                    (BrowserLogger.mkState unit Z
                       [Notions.info_entry "early"] [] [])
                    (lit "now") (Return (Some (lit "[]"))) (Return None)
                    eq_refl)).
    right. intros text H. discriminate H.
Defined.

(** X21.  Nothing reaches the file before the tenth entry: on a new
    logger, fewer than ten logged entries are all kept in the buffer, no
    write is started and the file receives nothing, unless [flush] or
    [logFullTurn] is called. *)
Theorem short_sessions_write_nothing
    (Params num : Type) (stringify : BrowserLogger.Logged Params num -> str)
    (logged : list (BrowserLogger.Logged Params num)) :
  (List.length logged < 10)%nat ->
  BrowserLogger.run Params num stringify
    (map (BrowserLogger.Log Params num) logged)
    (BrowserLogger.newLogger Params num)
  = BrowserLogger.mkState Params num logged [] [].
Proof.
  intros H.
  exact (run_logs_buffered Params num stringify logged
           (BrowserLogger.newLogger Params num) H).
Qed.

Lemma short_sessions_write_nothing_witness :
  BrowserLogger.run unit Z Notions.message_of
    (map (BrowserLogger.Log unit Z) (repeat (Notions.info_entry "a") 9))
    (BrowserLogger.newLogger unit Z)
  = BrowserLogger.mkState unit Z (repeat (Notions.info_entry "a") 9) [] [].
Proof.
  apply (short_sessions_write_nothing unit Z Notions.message_of
           (repeat (Notions.info_entry "a") 9)).
  apply Nat.ltb_lt. reflexivity.
Defined.
